(** * OP_Scribe: the on-chain file registry contract (contract/src/OPScribe.ts)

    A shallow embedding of the [OPScribe] contract class and the properties of
    its storage engine: key derivation ([cidToKey]), the chunked string store
    ([storeString] / [readString]) and the record registry ([registerFile],
    [getFile], [checkFileExists], [getTotalFiles], [getFileByIndex], [pause],
    [unpause], [getIsPaused]).

    Modelling conventions.
    - [u256], [u64], [u32] and [i32] values are integers in [Z]; every cast and
      every wrapping operation of the source is written out.
    - A string is represented by the sequence of its UTF-8 code units (one
      8-bit character per byte), so [String.UTF8.encode] exposes the
      characters as numbers and [String.UTF8.decodeUnsafe] rebuilds them.
    - Persistent storage is one finite map from (pointer, sub-key) to a
      256-bit cell; a [StoredMapU256] is just its pointer, as in the runtime.
    - A contract method is a computation over the world (storage and emitted
      events) that either returns or reverts; the runtime discards the
      effects of a reverted call ([run]).
    - Calldata decoding is not modelled: methods take the arguments the
      calldata reads deliver and return the values they write.
    - Of the response [BytesWriter] the buffer length and the write offset
      are modelled, for the two responses whose length depends on a stored
      string ([getFile], [getFileByIndex]); the responses of fixed length
      ([registerFile], [checkFileExists], [getTotalFiles], [pause],
      [unpause], [getIsPaused]) are written into a buffer of exactly their
      size. *)

From Stdlib Require Import ZArith Lia String Ascii List.
From stdpp Require Import base option list gmap.

Local Open Scope Z_scope.

(* ===================================================================== *)
(** ** Machine integers *)
(* ===================================================================== *)

Definition U32_MOD : Z := 2 ^ 32.
Definition U64_MOD : Z := 2 ^ 64.
Definition U256_MOD : Z := 2 ^ 256.
Definition U256_MAX : Z := U256_MOD - 1.

(** [<u32>x] and [<u64>x]: truncation. *)
Definition to_u32 (x : Z) : Z := x mod U32_MOD.
Definition to_u64 (x : Z) : Z := x mod U64_MOD.

(** [<i32>x]: reinterpretation of the low 32 bits as a signed value. *)
Definition to_i32 (x : Z) : Z := (x + 2 ^ 31) mod U32_MOD - 2 ^ 31.

(** [~x] on a [u64]. *)
Definition not64 (x : Z) : Z := to_u64 (Z.lnot x).

(** [new u256(lo1, lo2, hi1, hi2)]: four 64-bit limbs, least significant
    first. *)
Definition u256_of_limbs (lo1 lo2 hi1 hi2 : Z) : Z :=
  lo1 + lo2 * 2 ^ 64 + hi1 * 2 ^ 128 + hi2 * 2 ^ 192.

(** [u256.fromBytesBE]: big-endian bytes to a number. *)
Definition fromBytesBE (bs : list Z) : Z :=
  fold_left (fun acc b => acc * 256 + b) bs 0.

(** [n] little-endian bytes of [v]. *)
Fixpoint bytesLE (n : nat) (v : Z) : list Z :=
  match n with
  | O => []
  | S n' => v mod 256 :: bytesLE n' (v / 256)
  end.

(** [v.toUint8Array(true)]: the 32 bytes of a [u256], big-endian. *)
Definition toUint8ArrayBE (v : Z) : list Z := rev (bytesLE 32 v).

(** The AssemblyScript runtime's largest allocatable block; the size limit of
    every [ArrayBuffer], hence of every typed array and encoded string. *)
Definition BLOCK_MAXSIZE : Z := 1073741820.

(* ===================================================================== *)
(** ** Strings and their UTF-8 bytes *)
(* ===================================================================== *)

Definition byte_of_ascii (a : ascii) : Z := Z.of_N (N_of_ascii a).
Definition ascii_of_byte (b : Z) : ascii := ascii_of_N (Z.to_N b).

(** [Uint8Array.wrap(String.UTF8.encode(s))]. *)
Definition utf8_encode (s : string) : list Z :=
  map byte_of_ascii (list_ascii_of_string s).

(** [String.UTF8.decodeUnsafe(ptr, len)] over the bytes of a buffer. *)
Definition utf8_decode (bs : list Z) : string :=
  string_of_list_ascii (map ascii_of_byte bs).

(** The number of UTF-16 code units of the string that a sequence of UTF-8
    bytes decodes to, as [String.UTF8.decodeUnsafe] walks it: a byte below
    128 is one unit; a lead byte 110xxxxx takes one more byte and gives one
    unit; a lead byte 1110xxxx takes two more and gives one unit; any other
    byte takes three more and gives one unit, or a surrogate pair when the
    code point is 0x10000 or more; a sequence cut short by the end of the
    input gives nothing. *)
Fixpoint utf16_units (bs : list Z) : Z :=
  match bs with
  | [] => 0
  | u0 :: r1 =>
      if Z.land u0 128 =? 0 then 1 + utf16_units r1
      else
        match r1 with
        | [] => 0
        | u1 :: r2 =>
            if Z.land u0 224 =? 192 then 1 + utf16_units r2
            else
              match r2 with
              | [] => 0
              | u2 :: r3 =>
                  if Z.land u0 240 =? 224 then 1 + utf16_units r3
                  else
                    match r3 with
                    | [] => 0
                    | u3 :: r4 =>
                        let cp :=
                          Z.lor (Z.lor (Z.lor (Z.shiftl (Z.land u0 7) 18)
                                               (Z.shiftl (Z.land u1 63) 12))
                                        (Z.shiftl (Z.land u2 63) 6))
                                (Z.land u3 63) in
                        (if cp <? 65536 then 1 else 2) + utf16_units r4
                    end
              end
        end
  end.

(** [s.length]: the length of a string in UTF-16 code units. *)
Definition utf16_length (s : string) : Z := utf16_units (utf8_encode s).

(** [s.length === 0]. *)
Definition is_empty (s : string) : bool :=
  match s with EmptyString => true | String _ _ => false end.

(** Strings that can exist in the runtime: the encoding fits a buffer. *)
Definition wf_string (s : string) : Prop :=
  Z.of_nat (length (utf8_encode s)) <= BLOCK_MAXSIZE.

(* ===================================================================== *)
(** ** The world: storage cells and the event log *)
(* ===================================================================== *)

(** A storage slot is addressed by the pointer of the stored object and a
    256-bit sub-key. *)
Abbreviation Slot := (Z * Z)%type.
Abbreviation Storage := (gmap Slot Z).

Record Event := mkEvent { ev_name : string; ev_data : list Z }.

Record World := mkWorld { storage : Storage; events : list Event }.

Definition set_storage (f : Storage -> Storage) (w : World) : World :=
  {| storage := f (storage w); events := events w |}.

Definition add_event (e : Event) (w : World) : World :=
  {| storage := storage w; events := events w ++ [e] |}.

(** Ambient transaction data: [Blockchain.tx.sender] (a 32-byte address),
    [Blockchain.contractDeployer], [Blockchain.block.number] and
    [Blockchain.block.medianTimestamp] (both [u64]). *)
Record Env := mkEnv {
  sender : list Z;
  deployer : list Z;
  block_number : Z;
  block_medianTimestamp : Z
}.

(* ===================================================================== *)
(** ** Computations that may revert *)
(* ===================================================================== *)

(** A computation either returns a value and the new world, or throws
    [Revert(msg)]; [dirty] is the world as it was when the exception was
    thrown, before the runtime rolls it back. *)
Inductive outcome (A : Type) : Type :=
| Ok (a : A) (w : World)
| Reverted (msg : string) (dirty : World).
Arguments Ok {A} a w.
Arguments Reverted {A} msg dirty.

Definition M (A : Type) : Type := World -> outcome A.

Definition ret {A} (a : A) : M A := fun w => Ok a w.

Definition bind {A B} (c : M A) (k : A -> M B) : M B :=
  fun w => match c w with
           | Ok a w' => k a w'
           | Reverted msg d => Reverted msg d
           end.

Definition throw {A} (msg : string) : M A := fun w => Reverted msg w.

Notation "x <~ c1 ;; c2" := (bind c1 (fun x => c2))
  (at level 100, c1 at next level, right associativity).
Notation "c1 ;;; c2" := (bind c1 (fun _ => c2))
  (at level 100, right associativity).

(** [for (let i = start; i < start + n; i++) body(i, acc)], threading the
    value [acc] that the body updates. *)
Fixpoint for_loop {A} (n : nat) (i : Z) (body : Z -> A -> M A) (acc : A) : M A :=
  match n with
  | O => ret acc
  | S n' => acc' <~ body i acc ;; for_loop n' (i + 1) body acc'
  end.

(** What the runtime commits: the new world on return, the old one on
    revert. *)
Definition run {A} (c : M A) (w : World) : World :=
  match c w with
  | Ok _ w' => w'
  | Reverted _ _ => w
  end.

(** The value or the error message the caller sees. *)
Definition result {A} (c : M A) (w : World) : A + string :=
  match c w with
  | Ok a _ => inl a
  | Reverted msg _ => inr msg
  end.

(* ===================================================================== *)
(** ** Runtime library: stored values, maps and checked arithmetic *)
(* ===================================================================== *)

(** [Blockchain.getStorageAt]: an unwritten cell reads as zero. *)
Definition cell (st : Storage) (p k : Z) : Z := default 0 (st !! (p, k)).

(** [StoredMapU256.get] / [.set] on the map with pointer [p]. *)
Definition map_get (p : Z) (k : Z) : M Z :=
  fun w => Ok (cell (storage w) p k) w.

Definition map_set (p : Z) (k v : Z) : M unit :=
  fun w => Ok tt (set_storage (insert (p, k) v) w).

(** Modelled from the spec: [SafeMath.add] and [SafeMath.mul] belong to the
    runtime package and are not part of the contract sources; section 4.3
    requires increment and multiply-by-stride to detect overflow of the
    unsigned range and fail closed, which is what the library's checked
    operations do (they throw [Revert]). *)
Definition SafeMath_add (a b : Z) : M Z :=
  if a + b <=? U256_MAX then ret (a + b)
  else throw "SafeMath: addition overflow".

Definition SafeMath_mul (a b : Z) : M Z :=
  if a * b <=? U256_MAX then ret (a * b)
  else throw "SafeMath: multiplication overflow".

(** [new Uint8Array(n)]: zero-filled; a length that is negative or exceeds
    the largest block throws. *)
Definition new_Uint8Array (n : Z) : M (list Z) :=
  if (0 <=? n) && (n <=? BLOCK_MAXSIZE) then ret (replicate (Z.to_nat n) 0)
  else throw "Invalid length".

(** The runtime's [BytesWriter]: a buffer of fixed length and a write
    offset. [new BytesWriter(length)] allocates the buffer, which throws for
    a length that is negative or exceeds the largest block; a write that
    would pass the end of the buffer throws, the writer does not grow (the
    runtime's message also quotes the two sizes). The values written are
    what the methods return; here only their sizes count. *)
Record BytesWriter := mkBytesWriter { bw_length : Z; bw_offset : Z }.

Definition E_BUFFER_RESIZE : string :=
  "Buffer is getting resized. This is bad for performance.".

Definition new_BytesWriter (length : Z) : M BytesWriter :=
  if (0 <=? length) && (length <=? BLOCK_MAXSIZE)
  then ret (mkBytesWriter length 0)
  else throw "Invalid length".

Definition allocSafe (size : Z) (bw : BytesWriter) : M BytesWriter :=
  if bw_offset bw + size >? bw_length bw then throw E_BUFFER_RESIZE
  else ret (mkBytesWriter (bw_length bw) (bw_offset bw + size)).

Definition writeU256 (v : Z) (bw : BytesWriter) : M BytesWriter :=
  allocSafe 32 bw.

Definition writeBoolean (b : bool) (bw : BytesWriter) : M BytesWriter :=
  allocSafe 1 bw.

(** A [u32] byte count, then the UTF-8 bytes of the string. *)
Definition writeStringWithLength (s : string) (bw : BytesWriter)
  : M BytesWriter :=
  bw1 <~ allocSafe 4 bw ;;
  allocSafe (Z.of_nat (length (utf8_encode s))) bw1.

(** Modelled from the spec: [onlyDeployer] is inherited from the runtime's
    base contract class; section 4.4 makes the pause toggle callable only by
    the operator identity recorded at deployment. *)
Definition onlyDeployer (env : Env) (caller : list Z) : M unit :=
  if decide (caller = deployer env) then ret tt
  else throw "Only deployer can call this method".

(* ===================================================================== *)
(** ** The contract *)
(* ===================================================================== *)

Module OPScribe.

(** Storage pointers, in declaration order (see the class comment). *)
Definition pausedPointer : Z := 0.
Definition totalFilesPointer : Z := 1.
Definition fileSizesPointer : Z := 2.
Definition fileUploadersPointer : Z := 3.
Definition fileBlocksPointer : Z := 4.
Definition fileTimestampsPointer : Z := 5.
Definition fileExistsPointer : Z := 6.
Definition fileNameChunksPointer : Z := 7.
Definition cidChunksPointer : Z := 8.

(** [this.paused.value] (a [StoredBoolean]) and [this.totalFiles.value]
    (a [StoredU256] at the empty sub-pointer). Both getters are taken to
    read their cell and nothing more. *)
Definition paused_value : M bool :=
  v <~ map_get pausedPointer 0 ;; ret (negb (v =? 0)).
Definition set_paused_value (b : bool) : M unit :=
  map_set pausedPointer 0 (if b then 1 else 0).
Definition totalFiles_value : M Z := map_get totalFilesPointer 0.
Definition set_totalFiles_value (v : Z) : M unit :=
  map_set totalFilesPointer 0 v.

Definition onDeployment : M unit := set_totalFiles_value 0.

Definition ensureNotPaused : M unit :=
  p <~ paused_value ;;
  if p then throw "Contract paused" else ret tt.

(** *** Key derivation *)

Definition FNV_OFFSET : Z := 0xcbf29ce484222325.
Definition FNV_PRIME : Z := 0x100000001b3.

(** The loop of [cidToKey] from index [i] on, with the current accumulators. *)
Fixpoint cidToKey_loop (bytes : list Z) (i : Z) (hi lo : Z) : Z * Z :=
  match bytes with
  | [] => (hi, lo)
  | b :: rest =>
      cidToKey_loop rest (i + 1)
        (to_u64 (Z.lxor hi b * FNV_PRIME))
        (to_u64 (Z.lxor lo (to_u64 (b + i)) * FNV_OFFSET))
  end.

Definition cidToKey (cid : string) : Z :=
  let '(hi, lo) := cidToKey_loop (utf8_encode cid) 0 FNV_OFFSET FNV_PRIME in
  u256_of_limbs lo hi (not64 hi) (not64 lo).

(** *** Chunked strings *)

(** The inner copy loop of [storeString]:
    [for (j = start; j < end; j++) chunkArr[j - start] = bytes[j]]. *)
Fixpoint fill_chunk (n : nat) (j start : Z) (bytes chunkArr : list Z) : list Z :=
  match n with
  | O => chunkArr
  | S n' =>
      fill_chunk n' (j + 1) start bytes
        (<[Z.to_nat (j - start) := nth (Z.to_nat j) bytes 0]> chunkArr)
  end.

Definition storeString (map : Z) (baseKey : Z) (value : string) : M unit :=
  let bytes := utf8_encode value in
  let totalLen := to_u32 (Z.of_nat (length bytes)) in
  map_set map baseKey totalLen ;;;
  let chunks := to_i32 (to_u32 (totalLen + 31) / 32) in
  for_loop (Z.to_nat chunks) 0 (fun i _ =>
    let start := i * 32 in
    let end_ := if start + 32 >? to_i32 totalLen then to_i32 totalLen
                else start + 32 in
    let chunkArr :=
      fill_chunk (Z.to_nat (end_ - start)) start start bytes (replicate 32 0) in
    slotKey <~ SafeMath_add baseKey (to_u32 (i + 1)) ;;
    map_set map slotKey (fromBytesBE chunkArr)) tt.

(** The inner copy loop of [readString]:
    [for (j = start; j < end; j++) buf[j] = slotBytes[j - start]]. *)
Fixpoint drain_chunk (n : nat) (j start : Z) (slotBytes buf : list Z) : list Z :=
  match n with
  | O => buf
  | S n' =>
      drain_chunk n' (j + 1) start slotBytes
        (<[Z.to_nat j := nth (Z.to_nat (j - start)) slotBytes 0]> buf)
  end.

Definition readString (map : Z) (baseKey : Z) : M string :=
  lengthVal <~ map_get map baseKey ;;
  if lengthVal =? 0 then ret EmptyString
  else
    let totalLen := to_i32 (to_u32 lengthVal) in
    buf0 <~ new_Uint8Array totalLen ;;
    let chunks := (totalLen + 31) / 32 in
    buf <~ for_loop (Z.to_nat chunks) 0 (fun i buf =>
      slotKey <~ SafeMath_add baseKey (to_u32 (i + 1)) ;;
      slotVal <~ map_get map slotKey ;;
      let slotBytes := toUint8ArrayBE slotVal in
      let start := i * 32 in
      let end_ := if start + 32 >? totalLen then totalLen else start + 32 in
      ret (drain_chunk (Z.to_nat (end_ - start)) start start slotBytes buf)) buf0 ;;
    ret (utf8_decode buf).

(** *** Registry operations *)

Definition FileRegisteredEvent (fileSize : Z) (uploader : list Z) : Event :=
  mkEvent "FileRegistered" (fileSize :: uploader).

Definition emitEvent (e : Event) : M unit := fun w => Ok tt (add_event e w).

(** [cid], [fileName] and [fileSize] are what the three calldata reads that
    follow the pause check deliver. *)
Definition registerFile (env : Env) (cid fileName : string) (fileSize : Z) : M bool :=
  ensureNotPaused ;;;
  (if is_empty cid then throw "CID cannot be empty" else ret tt) ;;;
  (if is_empty fileName then throw "File name cannot be empty" else ret tt) ;;;
  (if fileSize =? 0 then throw "File size cannot be zero" else ret tt) ;;;
  let cidKey := cidToKey cid in
  existsVal <~ map_get fileExistsPointer cidKey ;;
  (if existsVal =? 1 then throw "File already registered" else ret tt) ;;;
  map_set fileSizesPointer cidKey fileSize ;;;
  let senderBytes := map (fun i => nth i (sender env) 0) (seq 0 32) in
  map_set fileUploadersPointer cidKey (fromBytesBE senderBytes) ;;;
  map_set fileBlocksPointer cidKey (block_number env) ;;;
  map_set fileTimestampsPointer cidKey (block_medianTimestamp env) ;;;
  map_set fileExistsPointer cidKey 1 ;;;
  storeString fileNameChunksPointer cidKey fileName ;;;
  currentIndex <~ totalFiles_value ;;
  cidBaseKey <~ SafeMath_mul currentIndex 256 ;;
  storeString cidChunksPointer cidBaseKey cid ;;;
  next <~ SafeMath_add currentIndex 1 ;;
  set_totalFiles_value next ;;;
  emitEvent (FileRegisteredEvent fileSize (sender env)) ;;;
  ret true.

(** The values [getFile] writes to its response. *)
Record FileResponse := mkFileResponse {
  r_fileName : string;
  r_fileSize : Z;
  r_uploader : Z;
  r_blockNumber : Z;
  r_timestamp : Z;
  r_exists : bool
}.

Definition getFile (cid : string) : M FileResponse :=
  let cidKey := cidToKey cid in
  existsVal <~ map_get fileExistsPointer cidKey ;;
  let exists_ := existsVal =? 1 in
  if negb exists_ then
    response <~ new_BytesWriter (to_i32 (4 + 32 * 4 + 1)) ;;
    response <~ writeStringWithLength EmptyString response ;;
    response <~ writeU256 0 response ;;
    response <~ writeU256 0 response ;;
    response <~ writeU256 0 response ;;
    response <~ writeU256 0 response ;;
    response <~ writeBoolean false response ;;
    ret (mkFileResponse EmptyString 0 0 0 0 false)
  else
    fileName <~ readString fileNameChunksPointer cidKey ;;
    fileSize <~ map_get fileSizesPointer cidKey ;;
    uploader <~ map_get fileUploadersPointer cidKey ;;
    blockNumber <~ map_get fileBlocksPointer cidKey ;;
    timestamp <~ map_get fileTimestampsPointer cidKey ;;
    response <~ new_BytesWriter
                  (to_i32 (4 + utf16_length fileName + 32 * 4 + 1)) ;;
    response <~ writeStringWithLength fileName response ;;
    response <~ writeU256 fileSize response ;;
    response <~ writeU256 uploader response ;;
    response <~ writeU256 blockNumber response ;;
    response <~ writeU256 timestamp response ;;
    response <~ writeBoolean true response ;;
    ret (mkFileResponse fileName fileSize uploader blockNumber timestamp true).

Definition checkFileExists (cid : string) : M bool :=
  let cidKey := cidToKey cid in
  existsVal <~ map_get fileExistsPointer cidKey ;;
  ret (existsVal =? 1).

Definition getTotalFiles : M Z := totalFiles_value.

(** The values [getFileByIndex] writes to its response. *)
Record IndexResponse := mkIndexResponse {
  ir_cid : string;
  ir_fileName : string;
  ir_fileSize : Z;
  ir_uploader : Z;
  ir_blockNumber : Z;
  ir_timestamp : Z
}.

Definition getFileByIndex (index : Z) : M IndexResponse :=
  total <~ totalFiles_value ;;
  (if index >=? total then throw "Index out of bounds" else ret tt) ;;;
  cidBaseKey <~ SafeMath_mul index 256 ;;
  cid <~ readString cidChunksPointer cidBaseKey ;;
  let cidKey := cidToKey cid in
  fileName <~ readString fileNameChunksPointer cidKey ;;
  fileSize <~ map_get fileSizesPointer cidKey ;;
  uploader <~ map_get fileUploadersPointer cidKey ;;
  blockNumber <~ map_get fileBlocksPointer cidKey ;;
  timestamp <~ map_get fileTimestampsPointer cidKey ;;
  response <~ new_BytesWriter
                (to_i32 (4 + utf16_length cid + 4 + utf16_length fileName
                         + 32 * 4)) ;;
  response <~ writeStringWithLength cid response ;;
  response <~ writeStringWithLength fileName response ;;
  response <~ writeU256 fileSize response ;;
  response <~ writeU256 uploader response ;;
  response <~ writeU256 blockNumber response ;;
  response <~ writeU256 timestamp response ;;
  ret (mkIndexResponse cid fileName fileSize uploader blockNumber timestamp).

Definition pause (env : Env) : M unit :=
  onlyDeployer env (sender env) ;;; set_paused_value true.

Definition unpause (env : Env) : M unit :=
  onlyDeployer env (sender env) ;;; set_paused_value false.

Definition getIsPaused : M bool := paused_value.

End OPScribe.

Import OPScribe.

(* ===================================================================== *)
(** ** Observations, calls and call histories *)
(* ===================================================================== *)

(** The registry's persisted scalars, read straight from the storage. *)
Definition totalCount (w : World) : Z := cell (storage w) totalFilesPointer 0.
Definition is_paused (w : World) : bool :=
  negb (cell (storage w) pausedPointer 0 =? 0).
Definition exists_flag (w : World) (cid : string) : Z :=
  cell (storage w) fileExistsPointer (cidToKey cid).

(** The world right after deployment. *)
Definition deployed : World := run onDeployment (mkWorld ∅ []).

(** The world with the pause flag forced to [b]. *)
Definition with_paused (b : bool) (w : World) : World :=
  run (set_paused_value b) w.

(** What [getFile] answers on a miss. *)
Definition miss_response : FileResponse :=
  mkFileResponse EmptyString 0 0 0 0 false.

(** The public entry points, with their decoded arguments. *)
Inductive Call : Type :=
| RegisterFile (cid fileName : string) (fileSize : Z)
| GetFile (cid : string)
| CheckFileExists (cid : string)
| GetTotalFiles
| GetFileByIndex (index : Z)
| Pause
| Unpause
| GetIsPaused.

(** One transaction: the world the runtime commits. *)
Definition exec (env : Env) (c : Call) (w : World) : World :=
  match c with
  | RegisterFile cid fileName fileSize =>
      run (registerFile env cid fileName fileSize) w
  | GetFile cid => run (getFile cid) w
  | CheckFileExists cid => run (checkFileExists cid) w
  | GetTotalFiles => run getTotalFiles w
  | GetFileByIndex index => run (getFileByIndex index) w
  | Pause => run (pause env) w
  | Unpause => run (unpause env) w
  | GetIsPaused => run getIsPaused w
  end.

Fixpoint exec_trace (tr : list (Env * Call)) (w : World) : World :=
  match tr with
  | [] => w
  | (env, c) :: tr' => exec_trace tr' (exec env c w)
  end.

Definition succeeds {A} (c : M A) (w : World) : bool :=
  match c w with Ok _ _ => true | Reverted _ _ => false end.

(** The registrations of a history that went through, in call order. *)
Record Registration := mkRegistration {
  reg_env : Env;
  reg_cid : string;
  reg_fileName : string;
  reg_fileSize : Z
}.

Definition registration_of (env : Env) (c : Call) (w : World)
  : list Registration :=
  match c with
  | RegisterFile cid fileName fileSize =>
      if succeeds (registerFile env cid fileName fileSize) w
      then [mkRegistration env cid fileName fileSize] else []
  | _ => []
  end.

Fixpoint registrations (tr : list (Env * Call)) (w : World)
  : list Registration :=
  match tr with
  | [] => []
  | (env, c) :: tr' =>
      registration_of env c w ++ registrations tr' (exec env c w)
  end.

(** The record a registration leaves behind, as [getFile] and as
    [getFileByIndex] report it. *)
Definition record_of (r : Registration) : FileResponse :=
  mkFileResponse (reg_fileName r) (reg_fileSize r)
    (fromBytesBE (map (fun i => nth i (sender (reg_env r)) 0) (seq 0 32)))
    (block_number (reg_env r)) (block_medianTimestamp (reg_env r)) true.

Definition index_record_of (r : Registration) : IndexResponse :=
  mkIndexResponse (reg_cid r) (reg_fileName r) (reg_fileSize r)
    (fromBytesBE (map (fun i => nth i (sender (reg_env r)) 0) (seq 0 32)))
    (block_number (reg_env r)) (block_medianTimestamp (reg_env r)).

(** Arguments as the ABI delivers them: strings that fit a buffer, [u256]
    numbers, a 32-byte sender, [u64] block data. *)
Definition is_bytes (bs : list Z) : Prop := Forall (fun b => 0 <= b < 256) bs.

Definition wf_env (env : Env) : Prop :=
  length (sender env) = 32%nat /\ is_bytes (sender env) /\
  0 <= block_number env < U64_MOD /\
  0 <= block_medianTimestamp env < U64_MOD.

Definition wf_call (c : Call) : Prop :=
  match c with
  | RegisterFile cid fileName fileSize =>
      wf_string cid /\ wf_string fileName /\ 0 <= fileSize <= U256_MAX
  | GetFile cid | CheckFileExists cid => wf_string cid
  | GetFileByIndex index => 0 <= index <= U256_MAX
  | _ => True
  end.

Definition wf_trace (tr : list (Env * Call)) : Prop :=
  Forall (fun ec => wf_env (fst ec) /\ wf_call (snd ec)) tr.

(** Worlds the contract can be in: reached from deployment by calls with
    well-formed arguments. *)
Inductive reachable : World -> Prop :=
| reach_deployed : reachable deployed
| reach_exec env c w :
    reachable w -> wf_env env -> wf_call c -> reachable (exec env c w).

(* ===================================================================== *)
(** ** The key derivation, as the design describes it *)
(* ===================================================================== *)

(** One accumulator step: XOR the input into the accumulator, then multiply
    by the accumulator's multiplier, in 64-bit arithmetic. *)
Definition xor_then_multiply (multiplier acc input : Z) : Z :=
  (Z.lxor acc input * multiplier) mod 2 ^ 64.

(** The first accumulator consumes the bytes. *)
Definition acc_hi (bytes : list Z) : Z :=
  fold_left (xor_then_multiply FNV_PRIME) bytes FNV_OFFSET.

(** The second accumulator consumes each byte offset by its position. *)
Fixpoint offset_by_position (i : Z) (bytes : list Z) : list Z :=
  match bytes with
  | [] => []
  | b :: rest => (b + i) mod 2 ^ 64 :: offset_by_position (i + 1) rest
  end.

Definition acc_lo (bytes : list Z) : Z :=
  fold_left (xor_then_multiply FNV_OFFSET) (offset_by_position 0 bytes) FNV_PRIME.

(** The 256-bit key assembled from the two accumulators and the bitwise
    complement of each. *)
Definition deriveKey (bytes : list Z) : Z :=
  let hi := acc_hi bytes in
  let lo := acc_lo bytes in
  u256_of_limbs lo hi (not64 hi) (not64 lo).

(** The same key in arithmetic form: complementing a 64-bit word [x] gives
    [2^64 - 1 - x]. *)
Definition key_of (hi lo : Z) : Z :=
  lo + hi * 2 ^ 64 + (2 ^ 64 - 1 - hi) * 2 ^ 128 + (2 ^ 64 - 1 - lo) * 2 ^ 192.

(** Parity of the number of odd bytes. *)
Definition parity (bytes : list Z) : bool :=
  fold_right (fun b p => xorb (Z.odd b) p) false bytes.

(* ===================================================================== *)
(** ** Chunk layout *)
(* ===================================================================== *)

(** Number of chunk slots of a string of [n] bytes, each holding 32 bytes. *)
Definition chunk_count (n : Z) : Z := (n + 31) / 32.

Definition byte_length (s : string) : Z := Z.of_nat (length (utf8_encode s)).

(** The length [getFile] and [getFileByIndex] give their response buffer,
    and the number of bytes they write into it. *)
Definition getFile_capacity (fileName : string) : Z :=
  to_i32 (4 + utf16_length fileName + 32 * 4 + 1).

Definition getFile_size (fileName : string) : Z :=
  4 + byte_length fileName + 32 * 4 + 1.

Definition getFileByIndex_capacity (cid fileName : string) : Z :=
  to_i32 (4 + utf16_length cid + 4 + utf16_length fileName + 32 * 4).

Definition getFileByIndex_size (cid fileName : string) : Z :=
  4 + byte_length cid + 4 + byte_length fileName + 32 * 4.

(** A response of [size] bytes goes into a buffer of length [capacity]. *)
Definition response_fits (capacity size : Z) : bool :=
  (0 <=? capacity) && (capacity <=? BLOCK_MAXSIZE) && (size <=? capacity).

(** What the writer makes of a response: the value, or the error of the
    allocation or of the write that passes the end. *)
Definition respond {A} (capacity size : Z) (a : A) : M A :=
  if (0 <=? capacity) && (capacity <=? BLOCK_MAXSIZE) then
    if size <=? capacity then ret a else throw E_BUFFER_RESIZE
  else throw "Invalid length".

(** The same, as the caller sees it. *)
Definition response_of {A} (capacity size : Z) (a : A) : A + string :=
  if (0 <=? capacity) && (capacity <=? BLOCK_MAXSIZE) then
    if size <=? capacity then inl a else inr E_BUFFER_RESIZE
  else inr "Invalid length"%string.

(** Strings of 7-bit characters: one byte and one UTF-16 unit each. *)
Definition ascii_string (s : string) : Prop :=
  Forall (fun b => b < 128) (utf8_encode s).

(** Strings of 7-bit characters other than NUL: what the calldata reader
    delivers exactly as it was sent. *)
Definition plain_string (s : string) : Prop :=
  Forall (fun b => 0 < b < 128) (utf8_encode s).

(** The slots [storeString] writes for a string stored at [baseKey]. *)
Definition string_slots (baseKey : Z) (s : string) (k : Z) : Prop :=
  baseKey <= k <= baseKey + chunk_count (byte_length s).

(** The ordinal stride of the identifier index. *)
Definition STRIDE : Z := 256.

(** The largest identifier whose chunks stay inside one stride: the base
    slot holds the length, which leaves 255 chunk slots. *)
Definition MAX_CID_BYTES : Z := 255 * 32.

(** The chunk [storeString] builds at loop index [i] for [n] bytes, and the
    bodies of the chunk loops of [storeString] and [readString]. *)
Definition chunk_arr (bytes : list Z) (n i : Z) : list Z :=
  fill_chunk
    (Z.to_nat ((if i * 32 + 32 >? n then n else i * 32 + 32) - i * 32))
    (i * 32) (i * 32) bytes (replicate 32 0).

Definition store_body (map baseKey : Z) (bytes : list Z) (n : Z)
  : Z -> unit -> M unit :=
  fun i _ =>
    slotKey <~ SafeMath_add baseKey (to_u32 (i + 1)) ;;
    map_set map slotKey (fromBytesBE (chunk_arr bytes n i)).

Definition read_body (map baseKey n : Z) : Z -> list Z -> M (list Z) :=
  fun i buf =>
    slotKey <~ SafeMath_add baseKey (to_u32 (i + 1)) ;;
    slotVal <~ map_get map slotKey ;;
    ret (drain_chunk
           (Z.to_nat ((if i * 32 + 32 >? n then n else i * 32 + 32) - i * 32))
           (i * 32) (i * 32) (toUint8ArrayBE slotVal) buf).

(** The layout [storeString] leaves for [s] at [baseKey]: the length in the
    base slot and the chunks in the slots that follow. *)
Definition stored_string (w : World) (map baseKey : Z) (s : string) : Prop :=
  cell (storage w) map baseKey = byte_length s /\
  forall k, 0 <= k < chunk_count (byte_length s) ->
    cell (storage w) map (baseKey + k + 1) =
    fromBytesBE (chunk_arr (utf8_encode s) (byte_length s) k).

(* ===================================================================== *)
(** ** The stages of a registration and its invariants *)
(* ===================================================================== *)

(** The world after the scalar fields of a record were written (the writes
    of [registerFile] that precede the two strings). *)
Definition record_written (env : Env) (cid : string) (fileSize : Z) (w : World)
  : World :=
  let cidKey := cidToKey cid in
  let senderBytes := map (fun i => nth i (sender env) 0) (seq 0 32) in
  set_storage (insert (fileExistsPointer, cidKey) 1)
    (set_storage (insert (fileTimestampsPointer, cidKey) (block_medianTimestamp env))
      (set_storage (insert (fileBlocksPointer, cidKey) (block_number env))
        (set_storage (insert (fileUploadersPointer, cidKey) (fromBytesBE senderBytes))
          (set_storage (insert (fileSizesPointer, cidKey) fileSize) w)))).

(** The world after the counter was bumped and the event emitted. *)
Definition count_bumped (env : Env) (fileSize : Z) (next : Z) (w : World)
  : World :=
  add_event (FileRegisteredEvent fileSize (sender env))
    (set_storage (insert (totalFilesPointer, 0) next) w).

(** Worlds in which every string can be read back: the length slots hold
    buffer-sized lengths and the chunk keys of each registered ordinal stay
    inside the key space. *)
Definition readable (w : World) : Prop :=
  0 <= totalCount w /\
  (forall cid,
     0 <= cell (storage w) fileNameChunksPointer (cidToKey cid) <= BLOCK_MAXSIZE) /\
  (forall i, 0 <= i < totalCount w ->
     0 <= cell (storage w) cidChunksPointer (i * 256) <= BLOCK_MAXSIZE /\
     i * 256 + chunk_count (cell (storage w) cidChunksPointer (i * 256))
       <= U256_MAX).

(** Registration [r], made at ordinal [i], is intact in world [w]. *)
Definition stored_registration (w : World) (i : nat) (r : Registration) : Prop :=
  let key := cidToKey (reg_cid r) in
  wf_string (reg_cid r) /\ wf_string (reg_fileName r) /\
  byte_length (reg_cid r) <= MAX_CID_BYTES /\
  exists_flag w (reg_cid r) = 1 /\
  stored_string w cidChunksPointer (Z.of_nat i * 256) (reg_cid r) /\
  stored_string w fileNameChunksPointer key (reg_fileName r) /\
  cell (storage w) fileSizesPointer key = reg_fileSize r /\
  cell (storage w) fileUploadersPointer key
    = fromBytesBE (map (fun i => nth i (sender (reg_env r)) 0) (seq 0 32)) /\
  cell (storage w) fileBlocksPointer key = block_number (reg_env r) /\
  cell (storage w) fileTimestampsPointer key = block_medianTimestamp (reg_env r).

(** World [w] holds exactly the registrations [regs], in order. *)
Definition consistent (w : World) (regs : list Registration) : Prop :=
  readable w /\
  totalCount w = Z.of_nat (length regs) /\
  forall i r, regs !! i = Some r -> stored_registration w i r.

(** A registration of plain strings whose responses can be allocated. *)
Definition plain_registration (r : Registration) : Prop :=
  plain_string (reg_cid r) /\ plain_string (reg_fileName r) /\
  byte_length (reg_cid r) + byte_length (reg_fileName r) + 136 <= BLOCK_MAXSIZE.

(** Every identifier fits the stride. *)
Definition bounded_cids (regs : list Registration) : Prop :=
  Forall (fun r => byte_length (reg_cid r) <= MAX_CID_BYTES) regs.

(* ===================================================================== *)
(** ** Histories, events and raw slot contents *)
(* ===================================================================== *)

(** The event a registration emits. *)
Definition event_of (r : Registration) : Event :=
  FileRegisteredEvent (reg_fileSize r) (sender (reg_env r)).

(** The first registration of a list that was made under the key of
    [cid]. *)
Definition registered_under (cid : string) (regs : list Registration)
  : option Registration :=
  find (fun r => cidToKey (reg_cid r) =? cidToKey cid) regs.

(** Registration [r] is on record in world [w]: its flag is set and
    [getFile] answers with its record, if the response fits. *)
Definition recorded (w : World) (r : Registration) : Prop :=
  exists_flag w (reg_cid r) = 1 /\
  result (getFile (reg_cid r)) w
  = response_of (getFile_capacity (reg_fileName r))
      (getFile_size (reg_fileName r)) (record_of r).

(** The outcome of the checks [registerFile] makes before it writes. *)
Definition registerFile_verdict (cid fileName : string) (fileSize : Z)
  (w : World) : bool + string :=
  if is_paused w then inr "Contract paused"%string
  else if is_empty cid then inr "CID cannot be empty"%string
  else if is_empty fileName then inr "File name cannot be empty"%string
  else if fileSize =? 0 then inr "File size cannot be zero"%string
  else if exists_flag w cid =? 1 then inr "File already registered"%string
  else inl true.

(** The 32 bytes of chunk [i] of an encoding: the bytes from position
    [32 i] on, zero where the encoding has ended. *)
Definition chunk_bytes (bytes : list Z) (i : Z) : list Z :=
  List.map (fun o => nth (Z.to_nat (i * 32) + o) bytes 0) (seq 0 32).

(** The first [n] bytes held by the chunk slots that follow [baseKey], each
    slot read as 32 big-endian bytes. *)
Definition slot_bytes (w : World) (m baseKey : Z) (n : Z) : list Z :=
  List.map
    (fun x : nat =>
       nth (Z.to_nat (Z.of_nat x mod 32))
         (toUint8ArrayBE (cell (storage w) m (baseKey + Z.of_nat x / 32 + 1))) 0)
    (seq 0 (Z.to_nat n)).

(** The inverse of [FNV_PRIME] modulo [2^64]. *)
Definition FNV_PRIME_INV : Z := 0xce965057aff6957b.

(* ===================================================================== *)
(** ** Sample data *)
(* ===================================================================== *)

Fixpoint repeat_char (n : nat) (a : ascii) : string :=
  match n with
  | O => EmptyString
  | S n' => String a (repeat_char n' a)
  end.

Definition sample_env : Env :=
  mkEnv (replicate 32 7) (replicate 32 7) 100 1700000000.

(** An identifier of 8161 bytes, one more than 255 chunks hold. *)
Definition long_cid : string := repeat_char (Z.to_nat 8161) "a"%char.

(** The [n] low bits of [i] as a string of the characters 0 and 1. *)
Fixpoint bit_string (n : nat) (i : Z) : string :=
  match n with
  | O => EmptyString
  | S n' =>
      String (if Z.odd i then "1"%char else "0"%char) (bit_string n' (i / 2))
  end.

(** A short history: one registration followed by a lookup. *)
Definition sample_trace : list (Env * Call) :=
  [(sample_env, RegisterFile "bafy123" "report.pdf" 2048);
   (sample_env, GetFile "bafy123")].

Definition sample_registration : Registration :=
  mkRegistration sample_env "bafy123" "report.pdf" 2048.

(* ===================================================================== *)
(** * Properties *)
(* ===================================================================== *)


(* ===================================================================== *)
(** ** Machine integers and bytes *)
(* ===================================================================== *)

Lemma to_u64_range x : 0 <= to_u64 x < U64_MOD.
Proof. unfold to_u64, U64_MOD. apply Z.mod_pos_bound. lia. Qed.

Lemma to_u32_small x : 0 <= x < U32_MOD -> to_u32 x = x.
Proof. intros. unfold to_u32. apply Z.mod_small. done. Qed.

Lemma to_i32_small x : 0 <= x < 2 ^ 31 -> to_i32 x = x.
Proof.
  intros. unfold to_i32, U32_MOD. rewrite Z.mod_small; lia.
Qed.

Lemma not64_eq x : 0 <= x < U64_MOD -> not64 x = U64_MOD - 1 - x.
Proof.
  intros Hx. unfold not64, to_u64, Z.lnot, U64_MOD in *.
  symmetry. apply Z.mod_unique with (q := -1); lia.
Qed.

Lemma byte_of_ascii_range a : 0 <= byte_of_ascii a < 256.
Proof.
  unfold byte_of_ascii. pose proof (N_ascii_bounded a). lia.
Qed.

Lemma ascii_of_byte_of_ascii a : ascii_of_byte (byte_of_ascii a) = a.
Proof.
  unfold ascii_of_byte, byte_of_ascii. rewrite N2Z.id. apply ascii_N_embedding.
Qed.

Lemma utf8_encode_bytes s : is_bytes (utf8_encode s).
Proof.
  unfold is_bytes, utf8_encode. apply Forall_forall. intros b Hb.
  apply list_elem_of_In, in_map_iff in Hb. destruct Hb as (a & <- & _).
  apply byte_of_ascii_range.
Qed.

Lemma utf8_decode_encode s : utf8_decode (utf8_encode s) = s.
Proof.
  unfold utf8_decode, utf8_encode. rewrite map_map.
  rewrite (map_ext _ id) by (intros; apply ascii_of_byte_of_ascii).
  rewrite map_id. apply string_of_list_ascii_of_string.
Qed.

Lemma utf8_encode_nil s : utf8_encode s = [] -> s = EmptyString.
Proof. destruct s; [done | discriminate]. Qed.

(** Big-endian bytes of a number built from bytes are those bytes. *)
Lemma bytesLE_fold_right (l : list Z) :
  is_bytes l ->
  bytesLE (length l) (fold_right (fun b acc => acc * 256 + b) 0 l) = l.
Proof.
  induction 1 as [|b l Hb Hl IH]; simpl; [done|].
  f_equal.
  - rewrite Z.add_comm, Z.mod_add by lia. apply Z.mod_small. lia.
  - rewrite Z.add_comm, Z.div_add by lia. rewrite Z.div_small by lia.
    simpl. exact IH.
Qed.

Lemma toUint8ArrayBE_fromBytesBE (l : list Z) :
  length l = 32%nat -> is_bytes l -> toUint8ArrayBE (fromBytesBE l) = l.
Proof.
  intros Hlen Hl. unfold toUint8ArrayBE, fromBytesBE.
  rewrite <- fold_left_rev_right. cbv beta.
  replace 32%nat with (length (rev l)) by (rewrite length_rev; exact Hlen).
  rewrite bytesLE_fold_right.
  - apply rev_involutive.
  - apply Forall_rev. exact Hl.
Qed.

(* ===================================================================== *)
(** ** The length of a string in UTF-16 code units *)
(* ===================================================================== *)

Lemma utf16_units_bounds_upto n : forall bs,
  (length bs <= n)%nat -> 0 <= utf16_units bs <= Z.of_nat (length bs).
Proof.
  induction n as [|n IH]; intros bs Hn.
  - destruct bs; [cbn; lia|cbn in Hn; lia].
  - destruct bs as [|u0 r1]; [cbn; lia|].
    cbn [length] in Hn.
    pose proof (IH r1 ltac:(lia)) as H1.
    cbn [utf16_units]. destruct (Z.land u0 128 =? 0); [cbn [length]; lia|].
    destruct r1 as [|u1 r2]; [cbn [length]; lia|].
    cbn [length] in *.
    pose proof (IH r2 ltac:(lia)) as H2.
    destruct (Z.land u0 224 =? 192); [lia|].
    destruct r2 as [|u2 r3]; [cbn [length]; lia|].
    cbn [length] in *.
    pose proof (IH r3 ltac:(lia)) as H3.
    destruct (Z.land u0 240 =? 224); [lia|].
    destruct r3 as [|u3 r4]; [cbn [length]; lia|].
    cbn [length] in *.
    pose proof (IH r4 ltac:(lia)) as H4.
    cbv zeta. destruct (_ <? 65536); lia.
Qed.

(** A string never has more UTF-16 units than UTF-8 bytes. *)
Lemma utf16_units_bounds bs : 0 <= utf16_units bs <= Z.of_nat (length bs).
Proof. apply (utf16_units_bounds_upto (length bs)). lia. Qed.

Lemma utf16_length_bounds s :
  0 <= utf16_length s <= Z.of_nat (length (utf8_encode s)).
Proof. apply utf16_units_bounds. Qed.

Lemma land_128_small b : 0 <= b < 128 -> Z.land b 128 = 0.
Proof.
  intros Hb. apply Z.bits_inj'. intros n Hn.
  rewrite Z.land_spec, Z.bits_0. change 128 with (2 ^ 7).
  rewrite Z.pow2_bits_eqb by lia.
  destruct (Z.eqb_spec 7 n) as [<-|]; [|apply andb_false_r].
  rewrite andb_true_r.
  destruct (Z.eq_dec b 0) as [-> | Hne]; [apply Z.bits_0|].
  apply Z.bits_above_log2; [lia|]. apply Z.log2_lt_pow2; lia.
Qed.

(** Seven-bit bytes are one unit each. *)
Lemma utf16_units_ascii bs :
  Forall (fun b => 0 <= b < 128) bs -> utf16_units bs = Z.of_nat (length bs).
Proof.
  induction 1 as [|b bs Hb _ IH]; [reflexivity|].
  cbn [utf16_units length]. rewrite (land_128_small b Hb), IH.
  cbn [Z.eqb]. lia.
Qed.

Lemma utf16_units_app_ascii l1 l2 :
  Forall (fun b => 0 <= b < 128) l1 ->
  utf16_units (l1 ++ l2) = Z.of_nat (length l1) + utf16_units l2.
Proof.
  induction 1 as [|b l1 Hb _ IH]; [cbn [app length]; lia|].
  cbn [app utf16_units length]. rewrite (land_128_small b Hb), IH.
  cbn [Z.eqb]. lia.
Qed.

(** The lead byte of a two-byte character. *)
Lemma land_lead2 b :
  192 <= b < 224 ->
  (Z.land b 128 =? 0) = false /\ (Z.land b 224 =? 192) = true.
Proof.
  intros Hb.
  assert (H : forallb (fun c => negb (Z.land (192 + Z.of_nat c) 128 =? 0)
                                && (Z.land (192 + Z.of_nat c) 224 =? 192))
                (seq 0 32) = true) by reflexivity.
  rewrite forallb_forall in H.
  specialize (H (Z.to_nat (b - 192))).
  rewrite Z2Nat.id in H by lia.
  replace (192 + (b - 192)) with b in H by lia.
  assert (Hin : In (Z.to_nat (b - 192)) (seq 0 32)) by (apply in_seq; lia).
  apply H, andb_prop in Hin as [H1 H2].
  split; [|exact H2]. destruct (Z.land b 128 =? 0); [discriminate H1|reflexivity].
Qed.

(** A two-byte character is one UTF-16 unit. *)
Lemma utf16_units_lead2 b0 b1 l :
  192 <= b0 < 224 -> utf16_units (b0 :: b1 :: l) = 1 + utf16_units l.
Proof.
  intros Hb. destruct (land_lead2 b0 Hb) as [H1 H2].
  cbn [utf16_units]. rewrite H1, H2. reflexivity.
Qed.


(* ===================================================================== *)
(** ** Computations *)
(* ===================================================================== *)

Lemma bind_Ok {A B} (c : M A) (k : A -> M B) w a w1 :
  c w = Ok a w1 -> bind c k w = k a w1.
Proof. intros H. unfold bind. rewrite H. reflexivity. Qed.

Lemma bind_Reverted {A B} (c : M A) (k : A -> M B) w msg d :
  c w = Reverted msg d -> bind c k w = Reverted msg d.
Proof. intros H. unfold bind. rewrite H. reflexivity. Qed.

Lemma bind_Ok_inv {A B} (c : M A) (k : A -> M B) w b w2 :
  bind c k w = Ok b w2 -> exists a w1, c w = Ok a w1 /\ k a w1 = Ok b w2.
Proof.
  unfold bind. destruct (c w) as [a w1|msg d]; [eauto | discriminate].
Qed.

(* ===================================================================== *)
(** ** Storage cells *)
(* ===================================================================== *)

Lemma cell_insert (st : Storage) p k v p' k' :
  cell (<[(p, k) := v]> st) p' k' =
  if decide (p' = p /\ k' = k) then v else cell st p' k'.
Proof.
  unfold cell. destruct (decide (p' = p /\ k' = k)) as [[-> ->]|Hne].
  - rewrite lookup_insert_eq. reflexivity.
  - rewrite lookup_insert_ne; [reflexivity|]. intros [= -> ->]. tauto.
Qed.

Lemma cell_insert_eq (st : Storage) p k v : cell (<[(p, k) := v]> st) p k = v.
Proof. rewrite cell_insert. rewrite decide_True; done. Qed.

Lemma cell_insert_ne (st : Storage) p k v p' k' :
  p' <> p \/ k' <> k -> cell (<[(p, k) := v]> st) p' k' = cell st p' k'.
Proof. intros H. rewrite cell_insert. rewrite decide_False; [done | tauto]. Qed.

(* ===================================================================== *)
(** ** The copy loops *)
(* ===================================================================== *)

Lemma fill_chunk_length n : forall j start bytes arr,
  length (fill_chunk n j start bytes arr) = length arr.
Proof.
  induction n as [|n IH]; intros; simpl; [done|].
  rewrite IH. apply length_insert.
Qed.

Lemma fill_chunk_lookup n : forall j start bytes arr (o : nat),
  0 <= start <= j ->
  fill_chunk n j start bytes arr !! o =
  if decide ((Z.to_nat (j - start) <= o < Z.to_nat (j - start) + n)%nat
             /\ (o < length arr)%nat)
  then Some (nth (Z.to_nat start + o) bytes 0)
  else arr !! o.
Proof.
  induction n as [|n IH]; intros j start bytes arr o Hj; simpl.
  - rewrite decide_False by lia. reflexivity.
  - rewrite IH by lia. rewrite length_insert.
    replace (Z.to_nat (j + 1 - start)) with (S (Z.to_nat (j - start))) by lia.
    destruct (decide (o = Z.to_nat (j - start))) as [->|Hne].
    + destruct (decide (Z.to_nat (j - start) < length arr)%nat) as [Hlt|Hge].
      * rewrite list_lookup_insert_eq by done.
        repeat case_decide; try lia. do 2 f_equal. lia.
      * rewrite list_insert_ge by lia. repeat case_decide; try lia; reflexivity.
    + rewrite list_lookup_insert_ne by done.
      repeat case_decide; try reflexivity; lia.
Qed.

Lemma fill_chunk_bytes n : forall j start bytes arr,
  is_bytes bytes -> is_bytes arr -> is_bytes (fill_chunk n j start bytes arr).
Proof.
  induction n as [|n IH]; intros j start bytes arr Hb Ha; simpl; [done|].
  apply IH; [done|]. unfold is_bytes. apply Forall_insert; [done|].
  destruct (nth_in_or_default (Z.to_nat j) bytes 0) as [Hin| ->]; [|lia].
  unfold is_bytes in Hb. rewrite Forall_forall in Hb. apply Hb.
  apply list_elem_of_In. exact Hin.
Qed.

Lemma drain_chunk_length n : forall j start slotBytes buf,
  length (drain_chunk n j start slotBytes buf) = length buf.
Proof.
  induction n as [|n IH]; intros; simpl; [done|].
  rewrite IH. apply length_insert.
Qed.

Lemma drain_chunk_lookup n : forall j start slotBytes buf (x : nat),
  0 <= start <= j ->
  drain_chunk n j start slotBytes buf !! x =
  if decide ((Z.to_nat j <= x < Z.to_nat j + n)%nat /\ (x < length buf)%nat)
  then Some (nth (x - Z.to_nat start) slotBytes 0)
  else buf !! x.
Proof.
  induction n as [|n IH]; intros j start slotBytes buf x Hj; simpl.
  - rewrite decide_False by lia. reflexivity.
  - rewrite IH by lia. rewrite length_insert.
    replace (Z.to_nat (j + 1)) with (S (Z.to_nat j)) by lia.
    destruct (decide (x = Z.to_nat j)) as [->|Hne].
    + destruct (decide (Z.to_nat j < length buf)%nat) as [Hlt|Hge].
      * rewrite list_lookup_insert_eq by done.
        repeat case_decide; try lia. do 2 f_equal. lia.
      * rewrite list_insert_ge by lia. repeat case_decide; try lia; reflexivity.
    + rewrite list_lookup_insert_ne by done.
      repeat case_decide; try reflexivity; lia.
Qed.


(* ===================================================================== *)
(** ** The chunked string store *)
(* ===================================================================== *)

Lemma chunk_count_bound n :
  0 <= n <= BLOCK_MAXSIZE -> 0 <= chunk_count n <= 2 ^ 26.
Proof.
  unfold chunk_count, BLOCK_MAXSIZE. intros.
  split; [apply Z.div_pos; lia | apply Z.div_le_upper_bound; lia].
Qed.

Lemma chunk_count_spec n : 0 <= n ->
  forall i, 0 <= i -> (i < chunk_count n <-> i * 32 < n).
Proof.
  intros Hn i Hi. unfold chunk_count.
  pose proof (Z.div_mod (n + 31) 32 ltac:(lia)).
  pose proof (Z.mod_pos_bound (n + 31) 32 ltac:(lia)). lia.
Qed.

Lemma chunk_arr_length bytes n i : length (chunk_arr bytes n i) = 32%nat.
Proof. unfold chunk_arr. rewrite fill_chunk_length. apply length_replicate. Qed.

Lemma chunk_arr_bytes bytes n i : is_bytes bytes -> is_bytes (chunk_arr bytes n i).
Proof.
  intros Hb. unfold chunk_arr. apply fill_chunk_bytes; [done|].
  unfold is_bytes. apply Forall_replicate. lia.
Qed.

Lemma chunk_arr_lookup bytes n i (o : nat) :
  0 <= i -> (o < 32)%nat -> i * 32 + Z.of_nat o < n ->
  chunk_arr bytes n i !! o = Some (nth (Z.to_nat (i * 32) + o) bytes 0).
Proof.
  intros Hi Ho Hlt. unfold chunk_arr.
  rewrite fill_chunk_lookup by lia. rewrite length_replicate.
  rewrite decide_True; [done|].
  destruct (i * 32 + 32 >? n) eqn:E; lia.
Qed.

Lemma chunk_nth bytes i (x : nat) :
  0 <= i -> i * 32 <= Z.of_nat x < i * 32 + 32 -> (x < length bytes)%nat ->
  Some (nth (x - Z.to_nat (i * 32)) (chunk_arr bytes (Z.of_nat (length bytes)) i) 0)
  = bytes !! x.
Proof.
  intros Hi Hx Hlt.
  rewrite (nth_lookup_Some _ _ 0 (nth x bytes 0)).
  - destruct (lookup_lt_is_Some_2 bytes x Hlt) as [y Hy].
    rewrite Hy. erewrite nth_lookup_Some; done.
  - rewrite chunk_arr_lookup by lia. do 2 f_equal. lia.
Qed.

Lemma storeString_eq map baseKey value :
  wf_string value ->
  storeString map baseKey value =
  (map_set map baseKey (byte_length value) ;;;
   for_loop (Z.to_nat (chunk_count (byte_length value))) 0
     (store_body map baseKey (utf8_encode value) (byte_length value)) tt).
Proof.
  intros Hwf. unfold wf_string in Hwf. unfold storeString, byte_length.
  cbv zeta. set (n := Z.of_nat (length (utf8_encode value))) in *.
  assert (Hn : 0 <= n <= BLOCK_MAXSIZE) by (subst n; lia).
  unfold BLOCK_MAXSIZE in Hn.
  rewrite (to_u32_small n) by (unfold U32_MOD; lia).
  rewrite (to_u32_small (n + 31)) by (unfold U32_MOD; lia).
  rewrite (to_i32_small n) by lia.
  rewrite (to_i32_small ((n + 31) / 32)).
  - reflexivity.
  - split; [apply Z.div_pos; lia | apply Z.div_lt_upper_bound; lia].
Qed.

Lemma store_loop_spec map baseKey bytes n m : forall i0 w,
  0 <= i0 -> i0 + Z.of_nat m < U32_MOD ->
  baseKey + i0 + Z.of_nat m <= U256_MAX ->
  exists w',
    for_loop m i0 (store_body map baseKey bytes n) tt w = Ok tt w' /\
    events w' = events w /\
    forall p x,
      cell (storage w') p x =
      if decide (p = map /\ baseKey + i0 + 1 <= x <= baseKey + i0 + Z.of_nat m)
      then fromBytesBE (chunk_arr bytes n (x - baseKey - 1))
      else cell (storage w) p x.
Proof.
  induction m as [|m IH]; intros i0 w Hi0 Hu32 Hmax.
  - exists w. simpl. split; [done|]. split; [done|]. intros p x.
    rewrite decide_False by lia. reflexivity.
  - simpl. unfold store_body at 1. unfold bind at 2, SafeMath_add.
    rewrite (to_u32_small (i0 + 1)) by lia.
    destruct (baseKey + (i0 + 1) <=? U256_MAX) eqn:E; [|lia].
    unfold ret, map_set. unfold bind at 1.
    destruct (IH (i0 + 1)
      (set_storage (insert (map, baseKey + (i0 + 1))
                           (fromBytesBE (chunk_arr bytes n i0))) w))
      as (w' & Hrun & Hev & Hcell); [lia..|].
    exists w'. split; [exact Hrun|]. split; [exact Hev|].
    intros p x. rewrite Hcell. simpl. rewrite cell_insert.
    repeat case_decide; try lia; try reflexivity.
    all: destruct_and?; subst; try lia.
    all: try (do 2 f_equal; lia).
Qed.

Lemma storeString_spec map baseKey value w :
  wf_string value ->
  baseKey + chunk_count (byte_length value) <= U256_MAX ->
  exists w',
    storeString map baseKey value w = Ok tt w' /\
    events w' = events w /\
    forall p x,
      cell (storage w') p x =
      if decide (p = map /\ x = baseKey) then byte_length value
      else if decide (p = map /\
                      baseKey + 1 <= x <= baseKey + chunk_count (byte_length value))
      then fromBytesBE (chunk_arr (utf8_encode value) (byte_length value)
                                  (x - baseKey - 1))
      else cell (storage w) p x.
Proof.
  intros Hwf Hmax. rewrite storeString_eq by done.
  assert (Hn : 0 <= byte_length value <= BLOCK_MAXSIZE)
    by (unfold wf_string, byte_length in *; lia).
  pose proof (chunk_count_bound _ Hn) as Hc.
  destruct (store_loop_spec map baseKey (utf8_encode value) (byte_length value)
              (Z.to_nat (chunk_count (byte_length value))) 0
              (set_storage (insert (map, baseKey) (byte_length value)) w))
    as (w' & Hrun & Hev & Hcell); [unfold U32_MOD; lia..|].
  exists w'. split; [|split].
  - unfold bind, map_set. exact Hrun.
  - exact Hev.
  - intros p x. rewrite Hcell. simpl. rewrite cell_insert.
    rewrite Z2Nat.id by lia.
    repeat case_decide; try lia; try reflexivity.
    all: destruct_and?; subst; try lia.
Qed.

Lemma read_loop_spec map baseKey bytes w m : forall i0 buf,
  is_bytes bytes ->
  0 <= i0 -> i0 + Z.of_nat m < U32_MOD ->
  (i0 + Z.of_nat m) * 32 < Z.of_nat (length bytes) + 32 ->
  baseKey + i0 + Z.of_nat m <= U256_MAX ->
  length buf = length bytes ->
  (forall i, i0 <= i < i0 + Z.of_nat m ->
     cell (storage w) map (baseKey + i + 1) =
     fromBytesBE (chunk_arr bytes (Z.of_nat (length bytes)) i)) ->
  exists buf',
    for_loop m i0 (read_body map baseKey (Z.of_nat (length bytes))) buf w
      = Ok buf' w /\
    length buf' = length bytes /\
    forall x : nat,
      buf' !! x =
      if decide (i0 * 32 <= Z.of_nat x < (i0 + Z.of_nat m) * 32)
      then bytes !! x else buf !! x.
Proof.
  induction m as [|m IH]; intros i0 buf Hb Hi0 Hu32 Hlast Hmax Hlen Hcells.
  - exists buf. simpl. split; [done|]. split; [done|]. intros x.
    rewrite decide_False by lia. reflexivity.
  - simpl. unfold read_body at 1. unfold bind at 2, SafeMath_add.
    rewrite (to_u32_small (i0 + 1)) by lia.
    destruct (baseKey + (i0 + 1) <=? U256_MAX) eqn:E; [|lia].
    unfold ret at 1. unfold bind at 2. unfold map_get at 1. unfold ret at 1.
    replace (baseKey + (i0 + 1)) with (baseKey + i0 + 1) by lia.
    unfold bind at 1. cbv beta iota.
    rewrite Hcells by lia.
    rewrite toUint8ArrayBE_fromBytesBE
      by (auto using chunk_arr_length, chunk_arr_bytes).
    set (n := Z.of_nat (length bytes)) in *.
    set (buf1 := drain_chunk _ _ _ _ buf).
    destruct (IH (i0 + 1) buf1) as (buf' & Hrun & Hlen' & Hlook); try lia; try done.
    { subst buf1. rewrite drain_chunk_length. exact Hlen. }
    { intros i Hi. apply Hcells. lia. }
    exists buf'. split; [exact Hrun|]. split; [exact Hlen'|].
    intros x. rewrite Hlook. subst buf1.
    rewrite drain_chunk_lookup by lia.
    destruct (i0 * 32 + 32 >? n) eqn:E2;
      repeat case_decide; try lia; try reflexivity; destruct_and?.
    all: try (apply chunk_nth; lia).
    all: rewrite !lookup_ge_None_2 by lia; done.
Qed.

(** Whatever the string, [storeString] writes only cells of its own map and
    emits nothing. *)
Lemma store_body_frame map baseKey bytes n i w w' :
  store_body map baseKey bytes n i tt w = Ok tt w' ->
  events w' = events w /\
  forall p x, p <> map -> cell (storage w') p x = cell (storage w) p x.
Proof.
  unfold store_body, bind, SafeMath_add, map_set, ret, throw.
  destruct (_ <=? _); [|discriminate]. intros [= <-]. simpl.
  split; [done|]. intros p x Hp. apply cell_insert_ne. tauto.
Qed.

Lemma store_loop_frame map baseKey bytes n m : forall i0 w w',
  for_loop m i0 (store_body map baseKey bytes n) tt w = Ok tt w' ->
  events w' = events w /\
  forall p x, p <> map -> cell (storage w') p x = cell (storage w) p x.
Proof.
  induction m as [|m IH]; intros i0 w w' Hrun.
  - injection Hrun as <-. done.
  - simpl in Hrun. apply bind_Ok_inv in Hrun as ([] & w1 & H1 & H2).
    apply store_body_frame in H1 as [He1 Hc1].
    apply IH in H2 as [He2 Hc2]. split; [congruence|].
    intros p x Hp. rewrite Hc2, Hc1; done.
Qed.

Lemma storeString_frame map baseKey value w w' :
  storeString map baseKey value w = Ok tt w' ->
  events w' = events w /\
  forall p x, p <> map -> cell (storage w') p x = cell (storage w) p x.
Proof.
  unfold storeString. cbv zeta. intros Hrun.
  apply bind_Ok_inv in Hrun as ([] & w1 & H1 & H2).
  unfold map_set in H1. injection H1 as <-.
  apply (store_loop_frame map baseKey (utf8_encode value)
           (to_i32 (to_u32 (Z.of_nat (length (utf8_encode value)))))) in H2
    as [He Hc].
  split; [exact He|]. intros p x Hp. rewrite Hc by done.
  simpl. apply cell_insert_ne. tauto.
Qed.

(** A chunk key beyond the 256-bit range makes [storeString] throw. *)
Lemma store_loop_overflow map baseKey bytes n m : forall i0 w,
  0 <= i0 -> i0 + Z.of_nat m < U32_MOD ->
  baseKey + i0 <= U256_MAX < baseKey + i0 + Z.of_nat m ->
  exists d,
    for_loop m i0 (store_body map baseKey bytes n) tt w
    = Reverted "SafeMath: addition overflow" d.
Proof.
  induction m as [|m IH]; intros i0 w Hi0 Hu32 Hover.
  - lia.
  - simpl. unfold store_body at 1. unfold bind at 2, SafeMath_add.
    rewrite (to_u32_small (i0 + 1)) by lia.
    destruct (baseKey + (i0 + 1) <=? U256_MAX) eqn:E.
    + unfold ret, map_set. unfold bind at 1.
      apply IH; lia.
    + eexists. reflexivity.
Qed.

Lemma storeString_overflow map baseKey value w :
  wf_string value -> baseKey <= U256_MAX ->
  U256_MAX < baseKey + chunk_count (byte_length value) ->
  exists d,
    storeString map baseKey value w = Reverted "SafeMath: addition overflow" d.
Proof.
  intros Hwf Hk Hover. rewrite storeString_eq by done.
  assert (Hn : 0 <= byte_length value <= BLOCK_MAXSIZE)
    by (unfold wf_string, byte_length in *; lia).
  pose proof (chunk_count_bound _ Hn) as Hc.
  unfold bind, map_set.
  apply store_loop_overflow; unfold U32_MOD; lia.
Qed.


Lemma readString_eq map baseKey w :
  readString map baseKey w =
  let lengthVal := cell (storage w) map baseKey in
  if lengthVal =? 0 then Ok EmptyString w
  else
    let n := to_i32 (to_u32 lengthVal) in
    if (0 <=? n) && (n <=? BLOCK_MAXSIZE)
    then match for_loop (Z.to_nat (chunk_count n)) 0 (read_body map baseKey n)
                 (replicate (Z.to_nat n) 0) w with
         | Ok buf w' => Ok (utf8_decode buf) w'
         | Reverted msg d => Reverted msg d
         end
    else Reverted "Invalid length" w.
Proof.
  unfold readString, bind, map_get, new_Uint8Array, ret, throw. cbv zeta.
  destruct (cell (storage w) map baseKey =? 0); [reflexivity|].
  destruct ((0 <=? _) && (_ <=? BLOCK_MAXSIZE)); reflexivity.
Qed.

Lemma for_loop_S {A} (m : nat) i (body : Z -> A -> M A) acc w :
  for_loop (S m) i body acc w =
  match body i acc w with
  | Ok acc' w' => for_loop m (i + 1) body acc' w'
  | Reverted msg d => Reverted msg d
  end.
Proof. reflexivity. Qed.

Lemma read_body_run map baseKey n i buf w :
  read_body map baseKey n i buf w =
  if baseKey + to_u32 (i + 1) <=? U256_MAX
  then Ok (drain_chunk
             (Z.to_nat ((if i * 32 + 32 >? n then n else i * 32 + 32) - i * 32))
             (i * 32) (i * 32)
             (toUint8ArrayBE (cell (storage w) map (baseKey + to_u32 (i + 1))))
             buf) w
  else Reverted "SafeMath: addition overflow" w.
Proof.
  unfold read_body, bind, SafeMath_add, map_get, ret, throw.
  destruct (_ <=? _); reflexivity.
Qed.

(** Reading never changes the world, whether it returns or throws. *)
Lemma read_loop_pure map baseKey n m : forall i0 buf w,
  (exists buf', for_loop m i0 (read_body map baseKey n) buf w = Ok buf' w) \/
  (exists msg, for_loop m i0 (read_body map baseKey n) buf w = Reverted msg w).
Proof.
  induction m as [|m IH]; intros i0 buf w.
  - left. eexists. reflexivity.
  - rewrite for_loop_S, read_body_run.
    destruct (_ <=? _); [apply IH | right; eauto].
Qed.

Lemma readString_pure map baseKey w :
  (exists s, readString map baseKey w = Ok s w) \/
  (exists msg, readString map baseKey w = Reverted msg w).
Proof.
  rewrite readString_eq. cbv zeta.
  destruct (_ =? 0); [left; eauto|].
  destruct (_ && _); [|right; eauto].
  match goal with |- context [for_loop ?m ?i ?b ?buf w] =>
    destruct (read_loop_pure map baseKey
                (to_i32 (to_u32 (cell (storage w) map baseKey))) m i buf w)
      as [[buf' ->]|[msg ->]] end; eauto.
Qed.

(** Reading a string only looks at the slots from its base key on. *)
Lemma read_loop_ext map baseKey n w1 w2 m : forall i0 buf,
  (forall x, baseKey <= x < baseKey + U32_MOD ->
     cell (storage w1) map x = cell (storage w2) map x) ->
  result (for_loop m i0 (read_body map baseKey n) buf) w1 =
  result (for_loop m i0 (read_body map baseKey n) buf) w2.
Proof.
  induction m as [|m IH]; intros i0 buf Hagree; unfold result.
  - reflexivity.
  - rewrite !for_loop_S, !read_body_run.
    destruct (_ <=? _); [|reflexivity].
    rewrite Hagree.
    + apply IH. exact Hagree.
    + unfold to_u32.
      pose proof (Z.mod_pos_bound (i0 + 1) U32_MOD ltac:(unfold U32_MOD; lia)).
      lia.
Qed.

Lemma readString_ext map baseKey w1 w2 :
  (forall x, baseKey <= x < baseKey + U32_MOD ->
     cell (storage w1) map x = cell (storage w2) map x) ->
  result (readString map baseKey) w1 = result (readString map baseKey) w2.
Proof.
  intros Hagree. unfold result. rewrite !readString_eq. cbv zeta.
  rewrite <- (Hagree baseKey) by (unfold U32_MOD; lia).
  destruct (_ =? 0); [reflexivity|].
  destruct (_ && _); [|reflexivity].
  match goal with |- context [for_loop ?m ?i ?b ?buf w1] =>
    pose proof (read_loop_ext map baseKey
                  (to_i32 (to_u32 (cell (storage w1) map baseKey)))
                  w1 w2 m i buf Hagree) as Hext end.
  unfold result in Hext.
  destruct (for_loop _ _ _ _ w1), (for_loop _ _ _ _ w2); congruence.
Qed.

Lemma read_loop_total map baseKey n m : forall i0 buf w,
  0 <= i0 -> i0 + Z.of_nat m < U32_MOD ->
  baseKey + i0 + Z.of_nat m <= U256_MAX ->
  exists buf', for_loop m i0 (read_body map baseKey n) buf w = Ok buf' w.
Proof.
  induction m as [|m IH]; intros i0 buf w Hi0 Hu32 Hmax.
  - eexists. reflexivity.
  - rewrite for_loop_S, read_body_run.
    rewrite (to_u32_small (i0 + 1)) by lia.
    destruct (baseKey + (i0 + 1) <=? U256_MAX) eqn:E; [|lia].
    apply IH; lia.
Qed.

(** A plausible length slot whose chunk keys do not overflow can be read. *)
Lemma readString_total map baseKey w :
  0 <= cell (storage w) map baseKey <= BLOCK_MAXSIZE ->
  baseKey + chunk_count (cell (storage w) map baseKey) <= U256_MAX ->
  exists s, readString map baseKey w = Ok s w.
Proof.
  intros HL Hmax. rewrite readString_eq. cbv zeta.
  destruct (_ =? 0); [eauto|].
  unfold BLOCK_MAXSIZE in HL.
  rewrite to_u32_small by (unfold U32_MOD; lia).
  rewrite to_i32_small by lia.
  destruct ((0 <=? _) && (_ <=? BLOCK_MAXSIZE)) eqn:E;
    [|unfold BLOCK_MAXSIZE in E; lia].
  pose proof (chunk_count_bound (cell (storage w) map baseKey)
                ltac:(unfold BLOCK_MAXSIZE; lia)) as Hc.
  match goal with |- context [for_loop ?m ?i ?b ?buf w] =>
    destruct (read_loop_total map baseKey
                (cell (storage w) map baseKey) m i buf w)
      as [buf' ->] end; [unfold U32_MOD; lia..|].
  eauto.
Qed.

(** Reading back what the layout of [storeString] holds. *)
Lemma readString_stored map baseKey value w :
  wf_string value ->
  baseKey + chunk_count (byte_length value) <= U256_MAX ->
  cell (storage w) map baseKey = byte_length value ->
  (forall i, 0 <= i < chunk_count (byte_length value) ->
     cell (storage w) map (baseKey + i + 1) =
     fromBytesBE (chunk_arr (utf8_encode value) (byte_length value) i)) ->
  readString map baseKey w = Ok value w.
Proof.
  intros Hwf Hmax Hlen Hchunks. rewrite readString_eq. cbv zeta.
  rewrite Hlen.
  assert (Hn : 0 <= byte_length value <= BLOCK_MAXSIZE)
    by (unfold wf_string, byte_length in *; lia).
  pose proof (chunk_count_bound _ Hn) as Hc.
  destruct (byte_length value =? 0) eqn:E0.
  - f_equal. symmetry. apply utf8_encode_nil.
    unfold byte_length in E0. destruct (utf8_encode value); [done|].
    simpl in E0. lia.
  - unfold BLOCK_MAXSIZE in Hn.
    rewrite to_u32_small by (unfold U32_MOD; lia).
    rewrite to_i32_small by lia.
    destruct ((0 <=? _) && (_ <=? BLOCK_MAXSIZE)) eqn:E;
      [|unfold BLOCK_MAXSIZE in E; lia].
    unfold byte_length in *.
    set (bytes := utf8_encode value) in *.
    pose proof (chunk_count_spec (Z.of_nat (length bytes)) ltac:(lia)) as Hcs.
    destruct (read_loop_spec map baseKey bytes w
                (Z.to_nat (chunk_count (Z.of_nat (length bytes)))) 0
                (replicate (Z.to_nat (Z.of_nat (length bytes))) 0))
      as (buf' & Hrun & Hlen' & Hlook).
    + apply utf8_encode_bytes.
    + lia.
    + unfold U32_MOD; lia.
    + destruct (Z.eq_dec (chunk_count (Z.of_nat (length bytes))) 0) as [Hz|Hnz];
        [lia|].
      pose proof (proj1 (Hcs (chunk_count (Z.of_nat (length bytes)) - 1)
                             ltac:(lia)) ltac:(lia)). lia.
    + lia.
    + rewrite length_replicate. lia.
    + intros i Hi. apply Hchunks. lia.
    + rewrite Hrun. f_equal.
      replace buf' with bytes; [apply utf8_decode_encode|].
      apply list_eq. intros x. rewrite Hlook.
      case_decide as Hx; [reflexivity|].
      assert (Hge : (length bytes <= x)%nat).
      { destruct (decide (length bytes <= x)%nat) as [|Hlt]; [done|].
        exfalso. apply Hx. split; [lia|].
        pose proof (Z.div_mod (Z.of_nat x) 32 ltac:(lia)).
        pose proof (Z.mod_pos_bound (Z.of_nat x) 32 ltac:(lia)).
        assert (Z.of_nat x / 32 < chunk_count (Z.of_nat (length bytes)))
          by (apply Hcs; [apply Z.div_pos|]; lia).
        lia. }
      rewrite !lookup_ge_None_2 by (rewrite ?length_replicate; lia). done.
Qed.

(* ===================================================================== *)
(** ** C1: round trip of the chunked string store *)
(* ===================================================================== *)

(** C1 (as amended). For every storage map, every string that fits a
    buffer and every base key whose last chunk key [baseKey + ceil(len/32)]
    stays within the 256-bit range, [storeString] returns and [readString]
    at the same base key then returns exactly the stored string. This covers
    the empty string and lengths that are exact multiples of 32. *)
Theorem C1_round_trip map baseKey value w :
  wf_string value ->
  baseKey + chunk_count (byte_length value) <= U256_MAX ->
  exists w',
    storeString map baseKey value w = Ok tt w' /\
    readString map baseKey w' = Ok value w'.
Proof.
  intros Hwf Hmax.
  destruct (storeString_spec map baseKey value w Hwf Hmax)
    as (w' & Hstore & _ & Hcell).
  exists w'. split; [exact Hstore|].
  apply readString_stored; [done|done| |].
  - rewrite Hcell. rewrite decide_True; done.
  - intros i Hi. rewrite Hcell.
    rewrite decide_False by lia. rewrite decide_True by lia.
    do 2 f_equal. lia.
Qed.

Lemma C1_round_trip_witness :
  exists w',
    storeString fileNameChunksPointer 5 "0123456789abcdef0123456789abcdef"
      deployed = Ok tt w' /\
    readString fileNameChunksPointer 5 w'
      = Ok "0123456789abcdef0123456789abcdef"%string w'.
Proof.
  apply C1_round_trip.
  - unfold wf_string. vm_compute. discriminate.
  - vm_compute. discriminate.
Defined.

(** C1, as stated, fails at the top of the key space: the first chunk key
    overflows and [SafeMath.add] throws. *)
Lemma C1_counterexample :
  result (storeString fileNameChunksPointer U256_MAX "a" ;;;
          readString fileNameChunksPointer U256_MAX) deployed
  = inr "SafeMath: addition overflow"%string.
Proof. vm_compute. reflexivity. Qed.


(* ===================================================================== *)
(** ** Key derivation *)
(* ===================================================================== *)

Lemma xor_then_multiply_range m acc x : 0 <= xor_then_multiply m acc x < 2 ^ 64.
Proof. unfold xor_then_multiply. apply Z.mod_pos_bound. lia. Qed.

Lemma fold_xor_then_multiply_range m l : forall acc,
  0 <= acc < 2 ^ 64 -> 0 <= fold_left (xor_then_multiply m) l acc < 2 ^ 64.
Proof.
  induction l as [|x l IH]; intros acc Hacc; simpl; [done|].
  apply IH, xor_then_multiply_range.
Qed.

Lemma acc_hi_range bytes : 0 <= acc_hi bytes < 2 ^ 64.
Proof.
  unfold acc_hi. apply fold_xor_then_multiply_range. unfold FNV_OFFSET. lia.
Qed.

Lemma acc_lo_range bytes : 0 <= acc_lo bytes < 2 ^ 64.
Proof.
  unfold acc_lo. apply fold_xor_then_multiply_range. unfold FNV_PRIME. lia.
Qed.

Lemma cidToKey_loop_split bytes : forall i hi lo,
  cidToKey_loop bytes i hi lo =
  (fold_left (xor_then_multiply FNV_PRIME) bytes hi,
   fold_left (xor_then_multiply FNV_OFFSET) (offset_by_position i bytes) lo).
Proof.
  induction bytes as [|b rest IH]; intros i hi lo; simpl; [done|].
  rewrite IH. reflexivity.
Qed.

Lemma cidToKey_deriveKey cid : cidToKey cid = deriveKey (utf8_encode cid).
Proof.
  unfold cidToKey, deriveKey. rewrite cidToKey_loop_split. reflexivity.
Qed.

Lemma offset_by_position_snoc bytes b : forall i,
  offset_by_position i (bytes ++ [b]) =
  offset_by_position i bytes ++ [(b + (i + Z.of_nat (length bytes))) mod 2 ^ 64].
Proof.
  induction bytes as [|x bytes IH]; intros i; simpl.
  - do 3 f_equal. lia.
  - rewrite IH. do 4 f_equal. lia.
Qed.

Lemma deriveKey_key_of bytes :
  deriveKey bytes = key_of (acc_hi bytes) (acc_lo bytes).
Proof.
  unfold deriveKey, key_of, u256_of_limbs. cbv zeta.
  pose proof (acc_hi_range bytes). pose proof (acc_lo_range bytes).
  rewrite !not64_eq by (unfold U64_MOD; lia). unfold U64_MOD. reflexivity.
Qed.

Lemma key_of_range hi lo :
  0 <= hi < 2 ^ 64 -> 0 <= lo < 2 ^ 64 ->
  0 <= key_of hi lo <= U256_MAX - 2 ^ 128 + 1.
Proof. intros. unfold key_of, U256_MAX, U256_MOD. lia. Qed.

(** Two different keys are at least [2^64] apart. *)
Lemma key_of_far hi1 lo1 hi2 lo2 :
  0 <= hi1 < 2 ^ 64 -> 0 <= lo1 < 2 ^ 64 ->
  0 <= hi2 < 2 ^ 64 -> 0 <= lo2 < 2 ^ 64 ->
  key_of hi1 lo1 <> key_of hi2 lo2 ->
  2 ^ 64 <= Z.abs (key_of hi1 lo1 - key_of hi2 lo2).
Proof. intros. unfold key_of in *. lia. Qed.

Lemma key_of_inj hi1 lo1 hi2 lo2 :
  0 <= hi1 < 2 ^ 64 -> 0 <= lo1 < 2 ^ 64 ->
  0 <= hi2 < 2 ^ 64 -> 0 <= lo2 < 2 ^ 64 ->
  key_of hi1 lo1 = key_of hi2 lo2 -> hi1 = hi2 /\ lo1 = lo2.
Proof. intros. unfold key_of in *. lia. Qed.

Lemma cidToKey_range cid : 0 <= cidToKey cid <= U256_MAX - 2 ^ 128 + 1.
Proof.
  rewrite cidToKey_deriveKey, deriveKey_key_of.
  apply key_of_range; [apply acc_hi_range | apply acc_lo_range].
Qed.

Lemma cidToKey_far cid1 cid2 :
  cidToKey cid1 <> cidToKey cid2 ->
  2 ^ 64 <= Z.abs (cidToKey cid1 - cidToKey cid2).
Proof.
  rewrite !cidToKey_deriveKey, !deriveKey_key_of.
  apply key_of_far; first [apply acc_hi_range | apply acc_lo_range].
Qed.

(* ===================================================================== *)
(** ** C7: key derivation *)
(* ===================================================================== *)

(** C7. [cidToKey] is a function of the identifier's UTF-8 bytes alone (it
    equals [deriveKey] on them, so equal bytes give equal keys).  [deriveKey]
    runs two 64-bit accumulators that do not read each other: they start
    from distinct constants; each consumes every input byte (the second one
    offset by the byte's position) with an XOR followed by a multiplication
    modulo 2^64 by a large odd constant; and the key is the four limbs
    lo, hi, ~hi, ~lo, a 256-bit value. *)
Theorem C7_key_derivation :
  (forall cid, cidToKey cid = deriveKey (utf8_encode cid)) /\
  (forall bytes,
     deriveKey bytes =
     u256_of_limbs (acc_lo bytes) (acc_hi bytes)
       (not64 (acc_hi bytes)) (not64 (acc_lo bytes))) /\
  (acc_hi [] = FNV_OFFSET /\ acc_lo [] = FNV_PRIME /\ FNV_OFFSET <> FNV_PRIME) /\
  (forall bytes b,
     acc_hi (bytes ++ [b]) = (Z.lxor (acc_hi bytes) b * FNV_PRIME) mod 2 ^ 64) /\
  (forall bytes b,
     acc_lo (bytes ++ [b]) =
     (Z.lxor (acc_lo bytes) ((b + Z.of_nat (length bytes)) mod 2 ^ 64)
      * FNV_OFFSET) mod 2 ^ 64) /\
  (Z.odd FNV_PRIME = true /\ Z.odd FNV_OFFSET = true /\
   2 ^ 40 < FNV_PRIME < 2 ^ 64 /\ 2 ^ 40 < FNV_OFFSET < 2 ^ 64) /\
  (forall bytes, 0 <= acc_hi bytes < 2 ^ 64 /\ 0 <= acc_lo bytes < 2 ^ 64) /\
  (forall cid, 0 <= cidToKey cid < 2 ^ 256).
Proof.
  repeat split.
  - apply cidToKey_deriveKey.
  - discriminate.
  - intros bytes b. unfold acc_hi. rewrite fold_left_app. reflexivity.
  - intros bytes b. unfold acc_lo.
    rewrite offset_by_position_snoc, fold_left_app. reflexivity.
  - apply acc_hi_range.
  - apply acc_hi_range.
  - apply acc_lo_range.
  - apply acc_lo_range.
  - apply cidToKey_range.
  - pose proof (cidToKey_range cid). unfold U256_MAX, U256_MOD in *. lia.
Qed.


(* ===================================================================== *)
(** ** The registry operations, step by step *)
(* ===================================================================== *)

Lemma bind_ret {A B} (a : A) (k : A -> M B) w : bind (ret a) k w = k a w.
Proof. reflexivity. Qed.

Lemma bind_throw {A B} msg (k : A -> M B) w :
  bind (throw msg) k w = Reverted msg w.
Proof. reflexivity. Qed.

Lemma bind_assoc {A B C} (c : M A) (f : A -> M B) (g : B -> M C) w :
  bind (bind c f) g w = bind c (fun a => bind (f a) g) w.
Proof. unfold bind. destruct (c w); reflexivity. Qed.

Lemma bind_if {A B} (b : bool) (c1 c2 : M A) (k : A -> M B) w :
  bind (if b then c1 else c2) k w = if b then bind c1 k w else bind c2 k w.
Proof. destruct b; reflexivity. Qed.

Lemma bind_map_get {B} p x (k : Z -> M B) w :
  bind (map_get p x) k w = k (cell (storage w) p x) w.
Proof. reflexivity. Qed.

Lemma bind_map_set {B} p x v (k : unit -> M B) w :
  bind (map_set p x v) k w = k tt (set_storage (insert (p, x) v) w).
Proof. reflexivity. Qed.

Lemma bind_run {A B} (c : M A) (k : A -> M B) w :
  bind c k w = match c w with
               | Ok a w1 => k a w1
               | Reverted msg d => Reverted msg d
               end.
Proof. reflexivity. Qed.

Ltac mstep :=
  repeat first
    [ rewrite bind_assoc | rewrite bind_ret | rewrite bind_throw
    | rewrite bind_map_get | rewrite bind_map_set | rewrite bind_if ].

Lemma registerFile_run env cid fileName fileSize w :
  registerFile env cid fileName fileSize w =
  if is_paused w then Reverted "Contract paused" w
  else if is_empty cid then Reverted "CID cannot be empty" w
  else if is_empty fileName then Reverted "File name cannot be empty" w
  else if fileSize =? 0 then Reverted "File size cannot be zero" w
  else if exists_flag w cid =? 1 then Reverted "File already registered" w
  else
    match storeString fileNameChunksPointer (cidToKey cid) fileName
            (record_written env cid fileSize w) with
    | Reverted msg d => Reverted msg d
    | Ok _ wb =>
        if totalCount wb * 256 <=? U256_MAX then
          match storeString cidChunksPointer (totalCount wb * 256) cid wb with
          | Reverted msg d => Reverted msg d
          | Ok _ wc =>
              if totalCount wb + 1 <=? U256_MAX
              then Ok true (count_bumped env fileSize (totalCount wb + 1) wc)
              else Reverted "SafeMath: addition overflow" wc
          end
        else Reverted "SafeMath: multiplication overflow" wb
    end.
Proof.
  unfold registerFile, ensureNotPaused, paused_value, is_paused, exists_flag.
  cbv zeta. mstep.
  destruct (negb (cell (storage w) pausedPointer 0 =? 0)); [reflexivity|].
  mstep. destruct (is_empty cid); [reflexivity|].
  mstep. destruct (is_empty fileName); [reflexivity|].
  mstep. destruct (fileSize =? 0); [reflexivity|].
  mstep.
  destruct (cell (storage w) fileExistsPointer (cidToKey cid) =? 1);
    [reflexivity|].
  mstep. fold (record_written env cid fileSize w).
  rewrite bind_run.
  destruct (storeString fileNameChunksPointer _ _ _) as [[] wb|msg d];
    [|reflexivity].
  unfold totalFiles_value. mstep. fold (totalCount wb).
  unfold SafeMath_mul.
  destruct (totalCount wb * 256 <=? U256_MAX); [|reflexivity].
  mstep. rewrite bind_run.
  destruct (storeString cidChunksPointer _ _ _) as [[] wc|msg d];
    [|reflexivity].
  unfold SafeMath_add.
  destruct (totalCount wb + 1 <=? U256_MAX); [|reflexivity].
  reflexivity.
Qed.

(** The writes into a response buffer, one by one. *)
Lemma allocSafe_run {B} size bw (k : BytesWriter -> M B) w :
  bind (allocSafe size bw) k w =
  if bw_offset bw + size <=? bw_length bw
  then k (mkBytesWriter (bw_length bw) (bw_offset bw + size)) w
  else Reverted E_BUFFER_RESIZE w.
Proof.
  unfold allocSafe, bind.
  destruct (Z.gtb_spec (bw_offset bw + size) (bw_length bw));
    destruct (Z.leb_spec (bw_offset bw + size) (bw_length bw));
    try lia; reflexivity.
Qed.

Lemma new_BytesWriter_run {B} n (k : BytesWriter -> M B) w :
  bind (new_BytesWriter n) k w =
  if (0 <=? n) && (n <=? BLOCK_MAXSIZE) then k (mkBytesWriter n 0) w
  else Reverted "Invalid length" w.
Proof.
  unfold new_BytesWriter, bind. destruct (_ && _); reflexivity.
Qed.

Ltac wstep :=
  unfold writeStringWithLength, writeU256, writeBoolean;
  repeat first
    [ rewrite bind_assoc | rewrite new_BytesWriter_run | rewrite allocSafe_run
    | rewrite bind_ret ];
  cbn [bw_offset bw_length].

Ltac leb_cases :=
  repeat match goal with
         | |- context [?a <=? ?b] => destruct (Z.leb_spec a b)
         end.

(** The response of [getFile]: a string and 129 bytes of fixed fields. *)
Lemma getFile_response {A} capacity (s : string) v1 v2 v3 v4 b (a : A) w :
  (response <~ new_BytesWriter capacity ;;
   response <~ writeStringWithLength s response ;;
   response <~ writeU256 v1 response ;;
   response <~ writeU256 v2 response ;;
   response <~ writeU256 v3 response ;;
   response <~ writeU256 v4 response ;;
   response <~ writeBoolean b response ;;
   ret a) w
  = respond capacity (getFile_size s) a w.
Proof.
  unfold respond, getFile_size, byte_length. wstep.
  destruct ((0 <=? capacity) && (capacity <=? BLOCK_MAXSIZE)); [|reflexivity].
  pose proof (Nat2Z.is_nonneg (length (utf8_encode s))).
  leb_cases; try reflexivity; lia.
Qed.

(** The response of [getFileByIndex]: two strings and 128 bytes. *)
Lemma getFileByIndex_response {A} capacity (s1 s2 : string) v1 v2 v3 v4
    (a : A) w :
  (response <~ new_BytesWriter capacity ;;
   response <~ writeStringWithLength s1 response ;;
   response <~ writeStringWithLength s2 response ;;
   response <~ writeU256 v1 response ;;
   response <~ writeU256 v2 response ;;
   response <~ writeU256 v3 response ;;
   response <~ writeU256 v4 response ;;
   ret a) w
  = respond capacity (getFileByIndex_size s1 s2) a w.
Proof.
  unfold respond, getFileByIndex_size, byte_length. wstep.
  destruct ((0 <=? capacity) && (capacity <=? BLOCK_MAXSIZE)); [|reflexivity].
  pose proof (Nat2Z.is_nonneg (length (utf8_encode s1))).
  pose proof (Nat2Z.is_nonneg (length (utf8_encode s2))).
  leb_cases; try reflexivity; lia.
Qed.

Lemma respond_fits {A} capacity size (a : A) w :
  response_fits capacity size = true -> respond capacity size a w = Ok a w.
Proof.
  unfold response_fits, respond. intros H.
  apply andb_prop in H as [-> ->]. reflexivity.
Qed.

Lemma respond_overflow {A} capacity size (a : A) w :
  response_fits capacity size = false ->
  exists msg, respond capacity size a w = Reverted msg w.
Proof.
  unfold response_fits, respond. intros H.
  destruct ((0 <=? capacity) && (capacity <=? BLOCK_MAXSIZE)); [|eauto].
  cbn [andb] in H. rewrite H. eauto.
Qed.

Lemma result_respond {A} capacity size (a : A) w :
  result (respond capacity size a) w = response_of capacity size a.
Proof.
  unfold result, respond, response_of.
  destruct ((0 <=? capacity) && (capacity <=? BLOCK_MAXSIZE)); [|reflexivity].
  destruct (size <=? capacity); reflexivity.
Qed.

Lemma response_of_fits {A} capacity size (a : A) :
  response_fits capacity size = true -> response_of capacity size a = inl a.
Proof.
  unfold response_fits, response_of. intros H.
  apply andb_prop in H as [-> ->]. reflexivity.
Qed.

Lemma response_of_inl {A} capacity size (a b : A) :
  response_of capacity size a = inl b ->
  a = b /\ response_fits capacity size = true.
Proof.
  unfold response_fits, response_of.
  destruct ((0 <=? capacity) && (capacity <=? BLOCK_MAXSIZE)); [|discriminate].
  destruct (size <=? capacity); [|discriminate].
  intros [= ->]. split; reflexivity.
Qed.

Lemma respond_Ok_inv {A} capacity size (a b : A) w w' :
  respond capacity size a w = Ok b w' ->
  a = b /\ w' = w /\ response_fits capacity size = true.
Proof.
  unfold response_fits, respond, ret, throw.
  destruct ((0 <=? capacity) && (capacity <=? BLOCK_MAXSIZE)); [|discriminate].
  destruct (size <=? capacity); [|discriminate].
  intros [= -> ->]. repeat split.
Qed.

Lemma response_of_overflow {A} capacity size (a : A) :
  response_fits capacity size = false ->
  exists msg, response_of capacity size a = inr msg.
Proof.
  unfold response_fits, response_of. intros H.
  destruct ((0 <=? capacity) && (capacity <=? BLOCK_MAXSIZE)); [|eauto].
  cbn [andb] in H. rewrite H. eauto.
Qed.

Lemma respond_pure {A} capacity size (a : A) w :
  respond capacity size a w = Ok a w \/
  exists msg, respond capacity size a w = Reverted msg w.
Proof.
  destruct (response_fits capacity size) eqn:E.
  - left. apply respond_fits, E.
  - right. apply respond_overflow, E.
Qed.

Lemma getFile_run cid w :
  getFile cid w =
  if exists_flag w cid =? 1 then
    match readString fileNameChunksPointer (cidToKey cid) w with
    | Reverted msg d => Reverted msg d
    | Ok fileName w1 =>
        respond (getFile_capacity fileName) (getFile_size fileName)
          (mkFileResponse fileName
             (cell (storage w1) fileSizesPointer (cidToKey cid))
             (cell (storage w1) fileUploadersPointer (cidToKey cid))
             (cell (storage w1) fileBlocksPointer (cidToKey cid))
             (cell (storage w1) fileTimestampsPointer (cidToKey cid))
             true) w1
    end
  else Ok miss_response w.
Proof.
  unfold getFile, exists_flag. cbv zeta. mstep.
  destruct (cell (storage w) fileExistsPointer (cidToKey cid) =? 1).
  - cbn [negb]. rewrite bind_run.
    destruct (readString _ _ w) as [fileName w1|msg d]; [|reflexivity].
    mstep. apply getFile_response.
  - cbn [negb]. rewrite getFile_response. reflexivity.
Qed.

Lemma getFileByIndex_run index w :
  getFileByIndex index w =
  if index >=? totalCount w then Reverted "Index out of bounds" w
  else if index * 256 <=? U256_MAX then
    match readString cidChunksPointer (index * 256) w with
    | Reverted msg d => Reverted msg d
    | Ok cid w1 =>
        match readString fileNameChunksPointer (cidToKey cid) w1 with
        | Reverted msg d => Reverted msg d
        | Ok fileName w2 =>
            respond (getFileByIndex_capacity cid fileName)
              (getFileByIndex_size cid fileName)
              (mkIndexResponse cid fileName
                 (cell (storage w2) fileSizesPointer (cidToKey cid))
                 (cell (storage w2) fileUploadersPointer (cidToKey cid))
                 (cell (storage w2) fileBlocksPointer (cidToKey cid))
                 (cell (storage w2) fileTimestampsPointer (cidToKey cid))) w2
        end
    end
  else Reverted "SafeMath: multiplication overflow" w.
Proof.
  unfold getFileByIndex, totalFiles_value. mstep. fold (totalCount w).
  destruct (index >=? totalCount w); [reflexivity|].
  mstep. unfold SafeMath_mul.
  destruct (index * 256 <=? U256_MAX); [|reflexivity].
  mstep. rewrite bind_run.
  destruct (readString cidChunksPointer _ w) as [cid w1|msg d]; [|reflexivity].
  cbv zeta. rewrite bind_run.
  destruct (readString fileNameChunksPointer _ w1) as [fileName w2|msg d];
    [|reflexivity].
  mstep. apply getFileByIndex_response.
Qed.


Ltac pointers :=
  unfold pausedPointer, totalFilesPointer, fileSizesPointer,
    fileUploadersPointer, fileBlocksPointer, fileTimestampsPointer,
    fileExistsPointer, fileNameChunksPointer, cidChunksPointer in *.

Lemma record_written_cell env cid fileSize w p x :
  cell (storage (record_written env cid fileSize w)) p x =
  if decide (x = cidToKey cid) then
    if decide (p = fileExistsPointer) then 1
    else if decide (p = fileTimestampsPointer) then block_medianTimestamp env
    else if decide (p = fileBlocksPointer) then block_number env
    else if decide (p = fileUploadersPointer)
         then fromBytesBE (map (fun i => nth i (sender env) 0) (seq 0 32))
    else if decide (p = fileSizesPointer) then fileSize
    else cell (storage w) p x
  else cell (storage w) p x.
Proof.
  unfold record_written. cbv zeta. simpl. rewrite !cell_insert.
  pointers. repeat case_decide; try reflexivity; try lia.
  all: destruct_and?; subst; try lia.
Qed.

Lemma record_written_events env cid fileSize w :
  events (record_written env cid fileSize w) = events w.
Proof. reflexivity. Qed.

Lemma count_bumped_cell env fileSize next w p x :
  cell (storage (count_bumped env fileSize next w)) p x =
  if decide (p = totalFilesPointer /\ x = 0) then next else cell (storage w) p x.
Proof. unfold count_bumped. simpl. apply cell_insert. Qed.

(** What a successful registration went through. *)
Lemma registerFile_Ok_inv env cid fileName fileSize w b w' :
  registerFile env cid fileName fileSize w = Ok b w' ->
  b = true /\ is_paused w = false /\ is_empty cid = false /\
  is_empty fileName = false /\ fileSize <> 0 /\ exists_flag w cid <> 1 /\
  totalCount w * 256 <= U256_MAX /\ totalCount w + 1 <= U256_MAX /\
  exists wb wc,
    storeString fileNameChunksPointer (cidToKey cid) fileName
      (record_written env cid fileSize w) = Ok tt wb /\
    storeString cidChunksPointer (totalCount w * 256) cid wb = Ok tt wc /\
    w' = count_bumped env fileSize (totalCount w + 1) wc.
Proof.
  rewrite registerFile_run.
  destruct (is_paused w); [discriminate|].
  destruct (is_empty cid); [discriminate|].
  destruct (is_empty fileName); [discriminate|].
  destruct (fileSize =? 0) eqn:Es; [discriminate|].
  destruct (exists_flag w cid =? 1) eqn:Ee; [discriminate|].
  destruct (storeString fileNameChunksPointer _ _ _) as [[] wb|] eqn:Hb;
    [|discriminate].
  assert (Hcount : totalCount wb = totalCount w).
  { apply storeString_frame in Hb as [_ Hc]. unfold totalCount.
    rewrite Hc by (pointers; lia). rewrite record_written_cell.
    pointers. repeat case_decide; try reflexivity; lia. }
  rewrite Hcount.
  destruct (totalCount w * 256 <=? U256_MAX) eqn:Em; [|discriminate].
  destruct (storeString cidChunksPointer _ _ _) as [[] wc|] eqn:Hc;
    [|discriminate].
  destruct (totalCount w + 1 <=? U256_MAX) eqn:Ea; [|discriminate].
  intros [= <- <-]. repeat split; try lia. eauto.
Qed.

(** A registration writes the scalar cells of its own key, the counter, and
    cells of the two string maps; nothing else. *)
Lemma registerFile_Ok_cells env cid fileName fileSize w b w' :
  registerFile env cid fileName fileSize w = Ok b w' ->
  forall p x, p <> fileNameChunksPointer -> p <> cidChunksPointer ->
    cell (storage w') p x =
    if decide (p = totalFilesPointer /\ x = 0) then totalCount w + 1
    else cell (storage (record_written env cid fileSize w)) p x.
Proof.
  intros Hrun p x Hp7 Hp8.
  apply registerFile_Ok_inv in Hrun
    as (_ & _ & _ & _ & _ & _ & _ & _ & wb & wc & Hb & Hc & ->).
  rewrite count_bumped_cell. case_decide; [reflexivity|].
  apply storeString_frame in Hb as [_ Hfb].
  apply storeString_frame in Hc as [_ Hfc].
  rewrite Hfc, Hfb; done.
Qed.

Lemma registerFile_Ok_totalCount env cid fileName fileSize w b w' :
  registerFile env cid fileName fileSize w = Ok b w' ->
  totalCount w' = totalCount w + 1.
Proof.
  intros Hrun. unfold totalCount at 1.
  rewrite (registerFile_Ok_cells _ _ _ _ _ _ _ Hrun) by (pointers; lia).
  rewrite decide_True; done.
Qed.

Lemma registerFile_Ok_exists env cid fileName fileSize w b w' :
  registerFile env cid fileName fileSize w = Ok b w' ->
  forall x, cell (storage w') fileExistsPointer x =
            if decide (x = cidToKey cid) then 1
            else cell (storage w) fileExistsPointer x.
Proof.
  intros Hrun x.
  rewrite (registerFile_Ok_cells _ _ _ _ _ _ _ Hrun) by (pointers; lia).
  rewrite decide_False by (pointers; lia).
  rewrite record_written_cell. case_decide; [|reflexivity].
  rewrite decide_True; done.
Qed.

Lemma registerFile_Ok_paused env cid fileName fileSize w b w' :
  registerFile env cid fileName fileSize w = Ok b w' ->
  is_paused w' = is_paused w.
Proof.
  intros Hrun. unfold is_paused.
  rewrite (registerFile_Ok_cells _ _ _ _ _ _ _ Hrun) by (pointers; lia).
  rewrite decide_False by (pointers; lia).
  rewrite record_written_cell. pointers.
  repeat case_decide; try reflexivity; lia.
Qed.

(** The read-only entry points commit the world they started from. *)
Lemma run_readString map baseKey w : run (readString map baseKey) w = w.
Proof.
  unfold run. destruct (readString_pure map baseKey w) as [[s ->]|[m ->]]; done.
Qed.

Lemma getFile_pure cid w :
  (exists r, getFile cid w = Ok r w) \/ (exists msg, getFile cid w = Reverted msg w).
Proof.
  rewrite getFile_run. destruct (_ =? 1); [|eauto].
  destruct (readString_pure fileNameChunksPointer (cidToKey cid) w)
    as [[s ->]|[m ->]]; [|eauto].
  match goal with
  | |- context [respond ?c ?n ?a w] =>
      destruct (respond_pure c n a w) as [-> | [msg ->]]; eauto
  end.
Qed.

Lemma getFileByIndex_pure index w :
  (exists r, getFileByIndex index w = Ok r w) \/
  (exists msg, getFileByIndex index w = Reverted msg w).
Proof.
  rewrite getFileByIndex_run. destruct (_ >=? _); [eauto|].
  destruct (_ <=? _); [|eauto].
  destruct (readString_pure cidChunksPointer (index * 256) w)
    as [[cid ->]|[m ->]]; [|eauto].
  destruct (readString_pure fileNameChunksPointer (cidToKey cid) w)
    as [[s ->]|[m ->]]; [|eauto].
  match goal with
  | |- context [respond ?c ?n ?a w] =>
      destruct (respond_pure c n a w) as [-> | [msg ->]]; eauto
  end.
Qed.

Lemma run_getFile cid w : run (getFile cid) w = w.
Proof.
  unfold run. destruct (getFile_pure cid w) as [[r ->]|[m ->]]; done.
Qed.

Lemma run_getFileByIndex index w : run (getFileByIndex index) w = w.
Proof.
  unfold run. destruct (getFileByIndex_pure index w) as [[r ->]|[m ->]]; done.
Qed.

Lemma run_pause_cell env b w p x :
  cell (storage (run (onlyDeployer env (sender env) ;;; set_paused_value b) w)) p x =
  if decide (sender env = deployer env /\ p = pausedPointer /\ x = 0)
  then (if b then 1 else 0) else cell (storage w) p x.
Proof.
  unfold run, onlyDeployer, set_paused_value. mstep.
  destruct (decide (sender env = deployer env)) as [Heq|Hne].
  - mstep. unfold map_set. simpl. rewrite cell_insert.
    repeat case_decide; try reflexivity; tauto.
  - mstep. rewrite decide_False by tauto. reflexivity.
Qed.

(** How one call changes the cells outside the two string maps. *)
Lemma exec_totalCount env c w :
  totalCount (exec env c w) =
  totalCount w + Z.of_nat (length (registration_of env c w)).
Proof.
  destruct c; simpl;
    rewrite ?run_getFile, ?run_getFileByIndex; try (unfold run; simpl; lia).
  - unfold run, succeeds.
    destruct (registerFile _ _ _ _ w) as [b w'|msg d] eqn:Hrun; simpl; [|lia].
    rewrite (registerFile_Ok_totalCount _ _ _ _ _ _ _ Hrun). lia.
  - unfold totalCount, pause. rewrite run_pause_cell.
    rewrite decide_False by (pointers; lia). lia.
  - unfold totalCount, unpause. rewrite run_pause_cell.
    rewrite decide_False by (pointers; lia). lia.
Qed.

Lemma exec_exists_flag env c w x :
  cell (storage (exec env c w)) fileExistsPointer x =
  match registration_of env c w with
  | r :: _ => if decide (x = cidToKey (reg_cid r)) then 1
              else cell (storage w) fileExistsPointer x
  | [] => cell (storage w) fileExistsPointer x
  end.
Proof.
  destruct c; simpl; rewrite ?run_getFile, ?run_getFileByIndex;
    try reflexivity.
  - unfold run, succeeds.
    destruct (registerFile _ _ _ _ w) as [b w'|msg d] eqn:Hrun; simpl.
    + apply (registerFile_Ok_exists _ _ _ _ _ _ _ Hrun).
    + reflexivity.
  - unfold pause. rewrite run_pause_cell.
    rewrite decide_False by (pointers; lia). reflexivity.
  - unfold unpause. rewrite run_pause_cell.
    rewrite decide_False by (pointers; lia). reflexivity.
Qed.


(* ===================================================================== *)
(** ** Registrations with well-formed arguments *)
(* ===================================================================== *)

Lemma wf_string_range s : wf_string s -> 0 <= byte_length s <= BLOCK_MAXSIZE.
Proof. unfold wf_string, byte_length. lia. Qed.

Lemma name_store_fits cid fileName :
  wf_string fileName ->
  cidToKey cid + chunk_count (byte_length fileName) <= U256_MAX.
Proof.
  intros Hwf. pose proof (cidToKey_range cid).
  pose proof (chunk_count_bound _ (wf_string_range _ Hwf)). lia.
Qed.

(** The cells of the two string maps after a successful registration. *)
Lemma registerFile_Ok_strings env cid fileName fileSize w b w' :
  wf_string cid -> wf_string fileName ->
  registerFile env cid fileName fileSize w = Ok b w' ->
  totalCount w * 256 + chunk_count (byte_length cid) <= U256_MAX /\
  (forall x,
     cell (storage w') fileNameChunksPointer x =
     if decide (x = cidToKey cid) then byte_length fileName
     else if decide (cidToKey cid + 1 <= x
                     <= cidToKey cid + chunk_count (byte_length fileName))
     then fromBytesBE (chunk_arr (utf8_encode fileName) (byte_length fileName)
                                 (x - cidToKey cid - 1))
     else cell (storage w) fileNameChunksPointer x) /\
  (forall x,
     cell (storage w') cidChunksPointer x =
     if decide (x = totalCount w * 256) then byte_length cid
     else if decide (totalCount w * 256 + 1 <= x
                     <= totalCount w * 256 + chunk_count (byte_length cid))
     then fromBytesBE (chunk_arr (utf8_encode cid) (byte_length cid)
                                 (x - totalCount w * 256 - 1))
     else cell (storage w) cidChunksPointer x).
Proof.
  intros Hcid Hname Hrun.
  apply registerFile_Ok_inv in Hrun
    as (_ & _ & _ & _ & _ & _ & Hmul & _ & wb & wc & Hb & Hc & ->).
  pose proof (name_store_fits cid fileName Hname) as Hfit.
  destruct (storeString_spec fileNameChunksPointer (cidToKey cid) fileName
              (record_written env cid fileSize w) Hname Hfit)
    as (wb' & Hb' & _ & Hcellb).
  rewrite Hb in Hb'. injection Hb' as <-.
  assert (Hfitc : totalCount w * 256 + chunk_count (byte_length cid) <= U256_MAX).
  { destruct (Z_le_gt_dec
                (totalCount w * 256 + chunk_count (byte_length cid)) U256_MAX)
      as [|Hgt]; [done|].
    destruct (storeString_overflow cidChunksPointer (totalCount w * 256) cid wb
                Hcid Hmul ltac:(lia)) as [d Hd].
    congruence. }
  destruct (storeString_spec cidChunksPointer (totalCount w * 256) cid wb
              Hcid Hfitc) as (wc' & Hc' & _ & Hcellc).
  rewrite Hc in Hc'. injection Hc' as <-.
  split; [exact Hfitc|]. split; intros x.
  - rewrite count_bumped_cell, Hcellc, Hcellb, record_written_cell.
    pointers. repeat case_decide; try reflexivity; try lia.
    all: destruct_and?; try lia; try congruence.
  - rewrite count_bumped_cell, Hcellc, Hcellb, record_written_cell.
    pointers. repeat case_decide; try reflexivity; try lia.
    all: destruct_and?; try lia; try congruence.
Qed.

(** When a registration goes through. *)
Lemma registerFile_succeeds env cid fileName fileSize w :
  wf_string cid -> wf_string fileName ->
  is_paused w = false -> is_empty cid = false -> is_empty fileName = false ->
  fileSize <> 0 -> exists_flag w cid <> 1 ->
  0 <= totalCount w ->
  totalCount w * 256 + chunk_count (byte_length cid) <= U256_MAX ->
  exists w', registerFile env cid fileName fileSize w = Ok true w'.
Proof.
  intros Hcid Hname Hp Hec Hen Hs He Hc0 Hfit.
  rewrite registerFile_run, Hp, Hec, Hen.
  destruct (fileSize =? 0) eqn:Es; [lia|].
  destruct (exists_flag w cid =? 1) eqn:Ee; [lia|].
  pose proof (name_store_fits cid fileName Hname) as Hfitn.
  destruct (storeString_spec fileNameChunksPointer (cidToKey cid) fileName
              (record_written env cid fileSize w) Hname Hfitn)
    as (wb & Hb & _ & Hcellb).
  rewrite Hb.
  assert (Hcount : totalCount wb = totalCount w).
  { unfold totalCount. rewrite Hcellb, record_written_cell.
    pointers. repeat case_decide; try reflexivity; lia. }
  rewrite Hcount.
  pose proof (chunk_count_bound _ (wf_string_range _ Hcid)) as Hcc.
  destruct (totalCount w * 256 <=? U256_MAX) eqn:Em; [|lia].
  destruct (storeString_spec cidChunksPointer (totalCount w * 256) cid wb
              Hcid Hfit) as (wc & Hc & _ & _).
  rewrite Hc.
  destruct (totalCount w + 1 <=? U256_MAX) eqn:Ea; [eauto|].
  unfold U256_MAX, U256_MOD in *. lia.
Qed.

(* ===================================================================== *)
(** ** Reachable worlds are readable *)
(* ===================================================================== *)

Lemma readable_deployed : readable deployed.
Proof.
  unfold readable, deployed, run, onDeployment, set_totalFiles_value, map_set,
    totalCount.
  simpl. rewrite cell_insert_eq. split; [lia|]. split.
  - intros cid. rewrite cell_insert_ne by (pointers; left; lia).
    unfold cell. rewrite lookup_empty. simpl. unfold BLOCK_MAXSIZE. lia.
  - intros i Hi. lia.
Qed.

Lemma non_empty_chunks s :
  is_empty s = false -> 1 <= chunk_count (byte_length s).
Proof.
  destruct s as [|a s]; [discriminate|]. intros _.
  unfold chunk_count, byte_length. simpl length.
  apply Z.div_le_lower_bound; lia.
Qed.

Lemma readable_registerFile env cid fileName fileSize w b w' :
  wf_string cid -> wf_string fileName ->
  readable w ->
  registerFile env cid fileName fileSize w = Ok b w' ->
  readable w'.
Proof.
  intros Hcid Hname (Hc0 & Hnames & Hcids) Hrun.
  pose proof (registerFile_Ok_totalCount _ _ _ _ _ _ _ Hrun) as Hcount.
  destruct (registerFile_Ok_strings _ _ _ _ _ _ _ Hcid Hname Hrun)
    as (Hfit & Hn & Hc).
  pose proof (wf_string_range _ Hcid) as Hrc.
  pose proof (wf_string_range _ Hname) as Hrn.
  pose proof (chunk_count_bound _ Hrn) as Hbn.
  pose proof (chunk_count_bound _ Hrc) as Hbc.
  split; [lia|]. split.
  - intros cid'. rewrite Hn.
    case_decide as Hk; [lia|].
    pose proof (cidToKey_far _ _ Hk).
    rewrite decide_False by lia. exact (Hnames cid').
  - intros i Hi. rewrite Hc.
    case_decide as Hk; [rewrite Hk; lia|].
    rewrite decide_False by lia. apply Hcids. lia.
Qed.

Lemma readable_exec env c w :
  wf_call c -> readable w -> readable (exec env c w).
Proof.
  intros Hwf Hr. destruct c; simpl;
    rewrite ?run_getFile, ?run_getFileByIndex; try exact Hr.
  - unfold run. destruct (registerFile _ _ _ _ w) as [b w'|] eqn:Hrun;
      [|exact Hr].
    destruct Hwf as (Hcid & Hname & _).
    exact (readable_registerFile _ _ _ _ _ _ _ Hcid Hname Hr Hrun).
  - destruct Hr as (Hc0 & Hnames & Hcids). unfold readable, totalCount, pause.
    repeat split; intros; rewrite ?run_pause_cell;
      rewrite ?decide_False by (pointers; lia); try apply Hnames; try done.
    all: apply Hcids; revert H; rewrite ?run_pause_cell;
      rewrite ?decide_False by (pointers; lia); done.
  - destruct Hr as (Hc0 & Hnames & Hcids). unfold readable, totalCount, unpause.
    repeat split; intros; rewrite ?run_pause_cell;
      rewrite ?decide_False by (pointers; lia); try apply Hnames; try done.
    all: apply Hcids; revert H; rewrite ?run_pause_cell;
      rewrite ?decide_False by (pointers; lia); done.
Qed.

Lemma reachable_readable w : reachable w -> readable w.
Proof.
  induction 1 as [|env c w Hreach IH Henv Hcall].
  - apply readable_deployed.
  - apply readable_exec; done.
Qed.

(** In a readable world the stored strings can always be read back; what
    is left to a lookup is to fit its response. *)
Lemma readable_readName w cid :
  readable w ->
  exists s, readString fileNameChunksPointer (cidToKey cid) w = Ok s w.
Proof.
  intros (Hc0 & Hnames & Hcids).
  apply readString_total; [apply Hnames|].
  pose proof (cidToKey_range cid).
  pose proof (chunk_count_bound _ (Hnames cid)). lia.
Qed.

Lemma readable_readCid w index :
  readable w -> 0 <= index < totalCount w ->
  index * 256 <= U256_MAX /\
  exists cid, readString cidChunksPointer (index * 256) w = Ok cid w.
Proof.
  intros (Hc0 & Hnames & Hcids) Hi.
  destruct (Hcids index Hi) as [HL Hfit].
  pose proof (chunk_count_bound _ HL).
  split; [lia|]. apply readString_total; assumption.
Qed.

Lemma readable_getFile w cid :
  readable w ->
  (exists r, getFile cid w = Ok r w) \/
  (exists fileName msg,
     readString fileNameChunksPointer (cidToKey cid) w = Ok fileName w /\
     response_fits (getFile_capacity fileName) (getFile_size fileName) = false /\
     getFile cid w = Reverted msg w).
Proof.
  intros Hr. rewrite getFile_run.
  destruct (_ =? 1); [|eauto].
  destruct (readable_readName w cid Hr) as [s Hs]. rewrite Hs.
  destruct (response_fits (getFile_capacity s) (getFile_size s)) eqn:E.
  - left. rewrite respond_fits by exact E. eauto.
  - right. exists s.
    match goal with
    | |- context [respond ?c ?n ?a w] =>
        destruct (respond_overflow c n a w E) as [msg ->]
    end.
    eauto.
Qed.


(* ===================================================================== *)
(** ** What the reads depend on *)
(* ===================================================================== *)

Lemma result_readString_world map baseKey w s w1 :
  readString map baseKey w = Ok s w1 -> w1 = w.
Proof.
  intros H. destruct (readString_pure map baseKey w) as [[s' H']|[m H']];
    congruence.
Qed.

Lemma getFile_result cid w :
  result (getFile cid) w =
  if exists_flag w cid =? 1 then
    match result (readString fileNameChunksPointer (cidToKey cid)) w with
    | inl fileName =>
        response_of (getFile_capacity fileName) (getFile_size fileName)
          (mkFileResponse fileName
             (cell (storage w) fileSizesPointer (cidToKey cid))
             (cell (storage w) fileUploadersPointer (cidToKey cid))
             (cell (storage w) fileBlocksPointer (cidToKey cid))
             (cell (storage w) fileTimestampsPointer (cidToKey cid))
             true)
    | inr msg => inr msg
    end
  else inl miss_response.
Proof.
  unfold result. rewrite getFile_run. destruct (_ =? 1); [|reflexivity].
  destruct (readString _ _ w) as [s w1|m d] eqn:Hr; [|reflexivity].
  apply result_readString_world in Hr as ->.
  exact (result_respond _ _ _ _).
Qed.


(** [getFile] looks at the cells of its own key and at the name slots that
    start there. *)
Lemma getFile_ext cid w1 w2 :
  (forall p, fileSizesPointer <= p <= fileExistsPointer ->
     cell (storage w1) p (cidToKey cid) = cell (storage w2) p (cidToKey cid)) ->
  (forall x, cidToKey cid <= x < cidToKey cid + U32_MOD ->
     cell (storage w1) fileNameChunksPointer x =
     cell (storage w2) fileNameChunksPointer x) ->
  result (getFile cid) w1 = result (getFile cid) w2.
Proof.
  intros Hs Hn. rewrite !getFile_result. unfold exists_flag.
  rewrite (readString_ext _ _ w1 w2 Hn).
  rewrite !Hs by (pointers; lia). reflexivity.
Qed.


Lemma with_paused_cell b w p x :
  cell (storage (with_paused b w)) p x =
  if decide (p = pausedPointer /\ x = 0) then (if b then 1 else 0)
  else cell (storage w) p x.
Proof. unfold with_paused, run, set_paused_value, map_set. simpl. apply cell_insert. Qed.

(** [storeString] stays within [2^32] slots of its base key. *)
Lemma store_loop_range map baseKey bytes n m : forall i0 w w',
  for_loop m i0 (store_body map baseKey bytes n) tt w = Ok tt w' ->
  forall x, x < baseKey \/ baseKey + U32_MOD <= x ->
    cell (storage w') map x = cell (storage w) map x.
Proof.
  induction m as [|m IH]; intros i0 w w' Hrun x Hx.
  - injection Hrun as <-. done.
  - rewrite for_loop_S in Hrun.
    destruct (store_body _ _ _ _ i0 tt w) as [[] w1|] eqn:Hb; [|discriminate].
    rewrite (IH _ _ _ Hrun x Hx).
    unfold store_body, SafeMath_add in Hb. revert Hb. mstep.
    destruct (_ <=? _); mstep; [|discriminate].
    unfold map_set. intros [= <-]. simpl. apply cell_insert_ne. right.
    unfold to_u32.
    pose proof (Z.mod_pos_bound (i0 + 1) U32_MOD ltac:(unfold U32_MOD; lia)).
    lia.
Qed.

Lemma storeString_range map baseKey value w w' :
  storeString map baseKey value w = Ok tt w' ->
  forall x, x < baseKey \/ baseKey + U32_MOD <= x ->
    cell (storage w') map x = cell (storage w) map x.
Proof.
  unfold storeString. cbv zeta. intros Hrun x Hx.
  apply bind_Ok_inv in Hrun as ([] & w1 & H1 & H2).
  unfold map_set in H1. injection H1 as <-.
  rewrite (store_loop_range map baseKey (utf8_encode value)
             (to_i32 (to_u32 (Z.of_nat (length (utf8_encode value)))))
             _ _ _ _ H2 x Hx).
  simpl. apply cell_insert_ne. right. unfold U32_MOD in Hx. lia.
Qed.

(** The name slots a registration leaves alone. *)
Lemma registerFile_Ok_names_far env cid fileName fileSize w b w' :
  registerFile env cid fileName fileSize w = Ok b w' ->
  forall x, x < cidToKey cid \/ cidToKey cid + U32_MOD <= x ->
    cell (storage w') fileNameChunksPointer x =
    cell (storage w) fileNameChunksPointer x.
Proof.
  intros Hrun x Hx.
  apply registerFile_Ok_inv in Hrun
    as (_ & _ & _ & _ & _ & _ & _ & _ & wb & wc & Hb & Hc & ->).
  rewrite count_bumped_cell. rewrite decide_False by (pointers; lia).
  apply storeString_frame in Hc as [_ Hfc].
  rewrite Hfc by (pointers; lia).
  rewrite (storeString_range _ _ _ _ _ Hb x Hx).
  rewrite record_written_cell. pointers.
  repeat case_decide; try reflexivity; lia.
Qed.

(** The identifier slots a registration leaves alone. *)
Lemma registerFile_Ok_cids_far env cid fileName fileSize w b w' :
  registerFile env cid fileName fileSize w = Ok b w' ->
  forall x, x < totalCount w * 256 \/ totalCount w * 256 + U32_MOD <= x ->
    cell (storage w') cidChunksPointer x = cell (storage w) cidChunksPointer x.
Proof.
  intros Hrun x Hx.
  apply registerFile_Ok_inv in Hrun
    as (_ & _ & _ & _ & _ & _ & _ & _ & wb & wc & Hb & Hc & ->).
  rewrite count_bumped_cell. rewrite decide_False by (pointers; lia).
  rewrite (storeString_range _ _ _ _ _ Hc x Hx).
  apply storeString_frame in Hb as [_ Hfb].
  rewrite Hfb by (pointers; lia).
  rewrite record_written_cell. pointers.
  repeat case_decide; try reflexivity; lia.
Qed.

(** A registration leaves the records of other keys as they were. *)
Lemma registerFile_Ok_getFile_other env cid fileName fileSize w b w' cid' :
  registerFile env cid fileName fileSize w = Ok b w' ->
  cidToKey cid' <> cidToKey cid ->
  result (getFile cid') w' = result (getFile cid') w.
Proof.
  intros Hrun Hne. apply getFile_ext.
  - intros p Hp.
    rewrite (registerFile_Ok_cells _ _ _ _ _ _ _ Hrun) by (pointers; lia).
    rewrite decide_False by (pointers; lia).
    rewrite record_written_cell. rewrite decide_False by done. reflexivity.
  - intros x Hx. apply (registerFile_Ok_names_far _ _ _ _ _ _ _ Hrun).
    pose proof (cidToKey_far _ _ Hne). unfold U32_MOD in *. lia.
Qed.

(** A registration leaves the names under every other key as they were. *)
Lemma registerFile_Ok_readName_other env cid fileName fileSize w b w' cid' :
  registerFile env cid fileName fileSize w = Ok b w' ->
  cidToKey cid' <> cidToKey cid ->
  result (readString fileNameChunksPointer (cidToKey cid')) w'
  = result (readString fileNameChunksPointer (cidToKey cid')) w.
Proof.
  intros Hrun Hne. apply readString_ext.
  intros x Hx. apply (registerFile_Ok_names_far _ _ _ _ _ _ _ Hrun).
  pose proof (cidToKey_far _ _ Hne). unfold U32_MOD in *. lia.
Qed.


(* ===================================================================== *)
(** ** Histories *)
(* ===================================================================== *)

Lemma exec_trace_totalCount tr : forall w,
  totalCount (exec_trace tr w) =
  totalCount w + Z.of_nat (length (registrations tr w)).
Proof.
  induction tr as [|[env c] tr IH]; intros w; simpl; [lia|].
  rewrite IH, exec_totalCount, length_app. lia.
Qed.

(** Once set, an existence flag stays set. *)
Lemma exec_exists_flag_stable env c w cid :
  exists_flag w cid = 1 -> exists_flag (exec env c w) cid = 1.
Proof.
  unfold exists_flag. intros H. rewrite exec_exists_flag.
  destruct (registration_of env c w); [done|]. case_decide; done.
Qed.

Lemma exec_trace_exists_flag_stable tr : forall w cid,
  exists_flag w cid = 1 -> exists_flag (exec_trace tr w) cid = 1.
Proof.
  induction tr as [|[env c] tr IH]; intros w cid H; simpl; [done|].
  apply IH, exec_exists_flag_stable, H.
Qed.

Lemma registrations_of_single env c w r :
  r ∈ registration_of env c w -> registration_of env c w = [r].
Proof.
  destruct c; simpl; intros Hin; try (inversion Hin; fail).
  destruct (succeeds _ w); [|inversion Hin].
  apply list_elem_of_singleton in Hin as ->. reflexivity.
Qed.

(** A flag is only ever set by a registration under the same key. *)
Lemma exec_trace_exists_flag_other tr : forall w cid,
  Forall (fun r => cidToKey (reg_cid r) <> cidToKey cid) (registrations tr w) ->
  exists_flag (exec_trace tr w) cid = exists_flag w cid.
Proof.
  induction tr as [|[env c] tr IH]; intros w cid H; simpl in *; [done|].
  apply Forall_app in H as [H1 H2]. rewrite IH by exact H2.
  unfold exists_flag. rewrite exec_exists_flag.
  destruct (registration_of env c w) as [|r l]; [done|].
  inversion H1; subst. rewrite decide_False; [done|]. congruence.
Qed.

Lemma is_paused_deployed : is_paused deployed = false.
Proof. reflexivity. Qed.

Lemma exists_flag_deployed cid : exists_flag deployed cid = 0.
Proof.
  unfold exists_flag, deployed, run, onDeployment, set_totalFiles_value, map_set.
  simpl. rewrite cell_insert_ne by (pointers; left; lia).
  unfold cell. rewrite lookup_empty. reflexivity.
Qed.

(* ===================================================================== *)
(** ** C2: uniqueness *)
(* ===================================================================== *)

(** C2 (as amended). After [registerFile] succeeded for an identifier, and
    whatever calls follow, a further [registerFile] with the same identifier
    throws before its first write: the world at the throw is the world
    before the call, so the record is untouched. The error is the duplicate
    error whenever the call passes the checks that come first; otherwise it
    is the error of the first failing check (paused, empty name, zero
    size). *)
Theorem C2_uniqueness env cid fileName fileSize w w1 :
  registerFile env cid fileName fileSize w = Ok true w1 ->
  forall tr env' fileName' fileSize',
    registerFile env' cid fileName' fileSize' (exec_trace tr w1) =
    Reverted
      (if is_paused (exec_trace tr w1) then "Contract paused"
       else if is_empty fileName' then "File name cannot be empty"
       else if fileSize' =? 0 then "File size cannot be zero"
       else "File already registered")
      (exec_trace tr w1) /\
    exec env' (RegisterFile cid fileName' fileSize') (exec_trace tr w1)
    = exec_trace tr w1.
Proof.
  intros Hrun tr env' fileName' fileSize'.
  assert (Hflag : exists_flag (exec_trace tr w1) cid = 1).
  { apply exec_trace_exists_flag_stable. unfold exists_flag.
    rewrite (registerFile_Ok_exists _ _ _ _ _ _ _ Hrun).
    rewrite decide_True; done. }
  apply registerFile_Ok_inv in Hrun as (_ & _ & Hne & _).
  assert (Hrev : registerFile env' cid fileName' fileSize' (exec_trace tr w1) =
                 Reverted
                   (if is_paused (exec_trace tr w1) then "Contract paused"
                    else if is_empty fileName' then "File name cannot be empty"
                    else if fileSize' =? 0 then "File size cannot be zero"
                    else "File already registered")
                   (exec_trace tr w1)).
  { rewrite registerFile_run, Hne, Hflag.
    destruct (is_paused _); [reflexivity|].
    destruct (is_empty fileName'); [reflexivity|].
    destruct (fileSize' =? 0); reflexivity. }
  split; [exact Hrev|]. simpl. unfold run. rewrite Hrev. reflexivity.
Qed.

Lemma C2_uniqueness_witness :
  exists w1,
    registerFile sample_env "cid1" "a.txt" 100 deployed = Ok true w1 /\
    registerFile sample_env "cid1" "b.txt" 7 w1
      = Reverted "File already registered" w1 /\
    exec sample_env (RegisterFile "cid1" "b.txt" 7) w1 = w1.
Proof.
  assert (Hrun : exists w1,
            registerFile sample_env "cid1" "a.txt" 100 deployed = Ok true w1).
  { apply registerFile_succeeds.
    - unfold wf_string. vm_compute. discriminate.
    - unfold wf_string. vm_compute. discriminate.
    - apply is_paused_deployed.
    - reflexivity.
    - reflexivity.
    - lia.
    - rewrite exists_flag_deployed. lia.
    - vm_compute. discriminate.
    - vm_compute. discriminate. }
  destruct Hrun as [w1 Hrun].
  - exists w1. split; [exact Hrun|].
    pose proof (C2_uniqueness sample_env "cid1" "a.txt" 100 deployed w1 Hrun
                  [] sample_env "b.txt" 7) as Hdup.
    simpl exec_trace in Hdup.
    rewrite (registerFile_Ok_paused _ _ _ _ _ _ _ Hrun) in Hdup.
    exact Hdup.
Defined.

(** C2, as stated, fails for a second call whose other arguments are
    invalid: the name check comes before the duplicate check. *)
Lemma C2_counterexample :
  succeeds (registerFile sample_env "cid1" "a.txt" 100) deployed = true /\
  result (registerFile sample_env "cid1" "" 100)
    (exec sample_env (RegisterFile "cid1" "a.txt" 100) deployed)
  = inr "File name cannot be empty"%string.
Proof. split; vm_compute; reflexivity. Qed.

(* ===================================================================== *)
(** ** C3: the counter *)
(* ===================================================================== *)

(** C3. The counter is 0 after deployment; a registration that returns
    raises it by exactly 1; a registration that throws (for any reason)
    commits the world unchanged; no call lowers it; and after any history
    the counter is the number of registrations that went through. *)
Theorem C3_monotone_count :
  result getTotalFiles deployed = inl 0 /\
  (forall w, result getTotalFiles w = inl (totalCount w)) /\
  (forall env cid fileName fileSize w,
     match registerFile env cid fileName fileSize w with
     | Ok _ w' =>
         totalCount w' = totalCount w + 1 /\
         exec env (RegisterFile cid fileName fileSize) w = w'
     | Reverted _ _ =>
         exec env (RegisterFile cid fileName fileSize) w = w
     end) /\
  (forall env c w, totalCount w <= totalCount (exec env c w)) /\
  (forall tr,
     totalCount (exec_trace tr deployed) =
     Z.of_nat (length (registrations tr deployed))).
Proof.
  split; [reflexivity|]. split; [reflexivity|]. split; [|split].
  - intros env cid fileName fileSize w. simpl. unfold run.
    destruct (registerFile env cid fileName fileSize w) as [b w'|] eqn:Hrun;
      [|reflexivity].
    split; [|reflexivity]. exact (registerFile_Ok_totalCount _ _ _ _ _ _ _ Hrun).
  - intros env c w. rewrite exec_totalCount. lia.
  - intros tr. rewrite exec_trace_totalCount. reflexivity.
Qed.

(* ===================================================================== *)
(** ** C6: misses *)
(* ===================================================================== *)

(** C6 (as amended). After any history, [getFile] on an identifier whose
    derived key differs from the key of every registered identifier returns
    the miss record (not found, empty name, all numbers zero) and never
    throws. *)
Theorem C6_miss_semantics tr cid :
  Forall (fun r => cidToKey (reg_cid r) <> cidToKey cid)
         (registrations tr deployed) ->
  getFile cid (exec_trace tr deployed)
  = Ok (mkFileResponse "" 0 0 0 0 false) (exec_trace tr deployed).
Proof.
  intros H. rewrite getFile_run.
  rewrite (exec_trace_exists_flag_other tr deployed cid H).
  rewrite exists_flag_deployed. reflexivity.
Qed.

Lemma C6_miss_semantics_witness :
  getFile "never-seen"
    (exec_trace [(sample_env, RegisterFile "bafy123" "report.pdf" 2048)] deployed)
  = Ok (mkFileResponse "" 0 0 0 0 false)
      (exec_trace [(sample_env, RegisterFile "bafy123" "report.pdf" 2048)] deployed).
Proof.
  apply C6_miss_semantics.
  replace (registrations
             [(sample_env, RegisterFile "bafy123" "report.pdf" 2048)] deployed)
    with [mkRegistration sample_env "bafy123" "report.pdf" 2048]
    by (vm_compute; reflexivity).
  constructor; [|constructor]. simpl reg_cid. vm_compute. discriminate.
Defined.

(* ===================================================================== *)
(** ** C8: overflow *)
(* ===================================================================== *)

(** C8. Whatever the counter holds, [registerFile] throws when [count * 256]
    or [count + 1] leaves the 256-bit range, and [getFileByIndex] throws when
    [index * 256] does; a registration that returns has computed both
    without wrapping. *)
Theorem C8_overflow_fails_closed :
  (forall env cid fileName fileSize w,
     U256_MAX < totalCount w * 256 \/ U256_MAX < totalCount w + 1 ->
     exists msg d, registerFile env cid fileName fileSize w = Reverted msg d) /\
  (forall index w,
     U256_MAX < index * 256 ->
     exists msg, getFileByIndex index w = Reverted msg w) /\
  (forall env cid fileName fileSize w b w',
     registerFile env cid fileName fileSize w = Ok b w' ->
     totalCount w * 256 <= U256_MAX /\
     totalCount w' = totalCount w + 1 /\ totalCount w' <= U256_MAX).
Proof.
  split; [|split].
  - intros env cid fileName fileSize w Hover.
    destruct (registerFile env cid fileName fileSize w) as [b w'|msg d] eqn:Hrun;
      [|eauto].
    apply registerFile_Ok_inv in Hrun as (_ & _ & _ & _ & _ & _ & Hm & Ha & _).
    lia.
  - intros index w Hover. rewrite getFileByIndex_run.
    destruct (_ >=? _); [eauto|].
    destruct (index * 256 <=? U256_MAX) eqn:E; [lia|eauto].
  - intros env cid fileName fileSize w b w' Hrun.
    pose proof (registerFile_Ok_totalCount _ _ _ _ _ _ _ Hrun).
    apply registerFile_Ok_inv in Hrun as (_ & _ & _ & _ & _ & _ & Hm & Ha & _).
    lia.
Qed.

Lemma C8_overflow_fails_closed_witness :
  (exists msg d,
     registerFile sample_env "cid1" "a.txt" 100
       (mkWorld {[ (totalFilesPointer, 0) := 2 ^ 255 ]} [])
     = Reverted msg d) /\
  (exists msg,
     getFileByIndex (2 ^ 250) (mkWorld {[ (totalFilesPointer, 0) := 2 ^ 255 ]} [])
     = Reverted msg (mkWorld {[ (totalFilesPointer, 0) := 2 ^ 255 ]} [])).
Proof.
  destruct C8_overflow_fails_closed as (Hreg & Hidx & _). split.
  - apply Hreg. left. vm_compute. reflexivity.
  - apply Hidx. vm_compute. reflexivity.
Defined.


(* ===================================================================== *)
(** ** C5: the pause gate *)
(* ===================================================================== *)






(* ===================================================================== *)
(** ** Keys collide *)
(* ===================================================================== *)

(** Searching a value among the first [n] images of [f]. *)
Lemma bounded_search (f : Z -> Z) (v : Z) (n : Z) :
  0 <= n ->
  (exists i, 0 <= i < n /\ f i = v) \/ (forall i, 0 <= i < n -> f i <> v).
Proof.
  intros Hn. pattern n. apply natlike_ind; [| |exact Hn].
  - right. intros i Hi. lia.
  - intros m Hm [(i & Hi & Hf)|Hnone].
    + left. exists i. split; [lia|exact Hf].
    + destruct (Z.eq_dec (f m) v) as [Heq|Hneq].
      * left. exists m. split; [lia|exact Heq].
      * right. intros i Hi. destruct (Z.eq_dec i m) as [->|]; [done|].
        apply Hnone. lia.
Qed.

(** The pigeonhole principle on intervals of integers: [n + 1] arguments
    with images among [n] values contain a repetition. *)
Lemma pigeonhole (n : Z) :
  0 <= n ->
  forall f : Z -> Z,
    (forall i, 0 <= i <= n -> 0 <= f i < n) ->
    exists i j, 0 <= i < j /\ j <= n /\ f i = f j.
Proof.
  intros Hn. pattern n. apply natlike_ind; [| |exact Hn].
  - intros f Hf. specialize (Hf 0). lia.
  - intros m Hm IH f Hf.
    destruct (bounded_search f (f (Z.succ m)) (Z.succ m) ltac:(lia))
      as [(i & Hi & Heq)|Hnone].
    + exists i, (Z.succ m). repeat split; lia.
    + set (v := f (Z.succ m)) in *.
      assert (Hv : 0 <= v < Z.succ m) by (apply Hf; lia).
      destruct (IH (fun i => if f i <? v then f i else f i - 1))
        as (i & j & Hij & Hj & Heq).
      * intros i Hi. specialize (Hf i ltac:(lia)).
        specialize (Hnone i ltac:(lia)).
        destruct (f i <? v) eqn:E; lia.
      * exists i, j. repeat split; try lia.
        pose proof (Hnone i ltac:(lia)). pose proof (Hnone j ltac:(lia)).
        cbv beta in Heq.
        destruct (f i <? v) eqn:Ei; destruct (f j <? v) eqn:Ej; lia.
Qed.

Lemma bit_string_length n : forall i,
  length (utf8_encode (bit_string n i)) = n.
Proof.
  induction n as [|n IH]; intros i; simpl; [done|].
  unfold utf8_encode in IH. rewrite IH. reflexivity.
Qed.

Lemma bit_string_inj n : forall i j,
  0 <= i < 2 ^ Z.of_nat n -> 0 <= j < 2 ^ Z.of_nat n ->
  bit_string n i = bit_string n j -> i = j.
Proof.
  induction n as [|n IH]; intros i j Hi Hj Heq.
  - simpl in *. lia.
  - rewrite Nat2Z.inj_succ, Z.pow_succ_r in Hi, Hj by lia.
    simpl in Heq. injection Heq as Hbit Hrest.
    apply IH in Hrest.
    + rewrite (Z.div2_odd i), (Z.div2_odd j), !Z.div2_div, Hrest.
      destruct (Z.odd i), (Z.odd j); try reflexivity; discriminate.
    + split; [apply Z.div_pos; lia | apply Z.div_lt_upper_bound; lia].
    + split; [apply Z.div_pos; lia | apply Z.div_lt_upper_bound; lia].
Qed.

(** There are more identifiers of 129 characters than accumulator states,
    so two different identifiers share a key. *)
Lemma cidToKey_collision :
  exists cid1 cid2,
    cid1 <> cid2 /\ cidToKey cid1 = cidToKey cid2 /\
    is_empty cid1 = false /\ wf_string cid1.
Proof.
  destruct (pigeonhole (2 ^ 128) ltac:(lia)
              (fun i => acc_hi (utf8_encode (bit_string 129 i)) * 2 ^ 64
                        + acc_lo (utf8_encode (bit_string 129 i))))
    as (i & j & Hij & Hj & Heq).
  - intros i Hi.
    pose proof (acc_hi_range (utf8_encode (bit_string 129 i))).
    pose proof (acc_lo_range (utf8_encode (bit_string 129 i))). lia.
  - cbv beta in Heq.
    exists (bit_string 129 i), (bit_string 129 j). repeat split.
    + intros Hs. apply bit_string_inj in Hs; lia.
    + rewrite !cidToKey_deriveKey. unfold deriveKey. cbv zeta.
      pose proof (acc_hi_range (utf8_encode (bit_string 129 i))).
      pose proof (acc_lo_range (utf8_encode (bit_string 129 i))).
      pose proof (acc_hi_range (utf8_encode (bit_string 129 j))).
      pose proof (acc_lo_range (utf8_encode (bit_string 129 j))).
      assert (acc_hi (utf8_encode (bit_string 129 i))
              = acc_hi (utf8_encode (bit_string 129 j))) as -> by lia.
      assert (acc_lo (utf8_encode (bit_string 129 i))
              = acc_lo (utf8_encode (bit_string 129 j))) as -> by lia.
      reflexivity.
    + unfold wf_string. rewrite bit_string_length. unfold BLOCK_MAXSIZE. lia.
Qed.

(** C6, as stated, fails: an identifier that was never registered but
    shares its key with a registered one is reported as found. *)
Lemma C6_counterexample :
  ~ (forall tr cid,
       Forall (fun r => reg_cid r <> cid) (registrations tr deployed) ->
       result (getFile cid) (exec_trace tr deployed) = inl miss_response).
Proof.
  intros Hclaim.
  destruct cidToKey_collision as (cid1 & cid2 & Hne & Hkey & Hnonempty & Hwf).
  destruct (registerFile_succeeds sample_env cid1 "n" 1 deployed)
    as [w1 Hrun].
  - exact Hwf.
  - unfold wf_string. vm_compute. discriminate.
  - apply is_paused_deployed.
  - exact Hnonempty.
  - reflexivity.
  - lia.
  - rewrite exists_flag_deployed. lia.
  - vm_compute. discriminate.
  - pose proof (chunk_count_bound _ (wf_string_range _ Hwf)).
    replace (totalCount deployed) with 0 by reflexivity.
    unfold U256_MAX, U256_MOD. lia.
  - specialize (Hclaim [(sample_env, RegisterFile cid1 "n" 1)] cid2).
    simpl in Hclaim. unfold succeeds, run in Hclaim. rewrite Hrun in Hclaim.
    simpl in Hclaim.
    specialize (Hclaim ltac:(repeat constructor; exact Hne)).
    rewrite getFile_result in Hclaim. unfold exists_flag in Hclaim.
    rewrite (registerFile_Ok_exists _ _ _ _ _ _ _ Hrun) in Hclaim.
    rewrite decide_True in Hclaim by congruence.
    simpl in Hclaim.
    destruct (result (readString fileNameChunksPointer (cidToKey cid2)) w1);
      [|discriminate].
    apply response_of_inl in Hclaim as [Hrec _]. discriminate Hrec.
Qed.


(* ===================================================================== *)
(** ** Reading arbitrary slots *)
(* ===================================================================== *)

Lemma byte_of_ascii_of_byte b : 0 <= b < 256 -> byte_of_ascii (ascii_of_byte b) = b.
Proof.
  intros Hb. unfold byte_of_ascii, ascii_of_byte.
  rewrite N_ascii_embedding by lia. lia.
Qed.

Lemma utf8_encode_decode bs : is_bytes bs -> utf8_encode (utf8_decode bs) = bs.
Proof.
  intros Hb. unfold utf8_encode, utf8_decode.
  rewrite list_ascii_of_string_of_list_ascii, map_map.
  induction Hb as [|b bs Hb _ IH]; simpl; [done|].
  rewrite byte_of_ascii_of_byte by done. f_equal. exact IH.
Qed.

Lemma bytesLE_bytes n : forall v, is_bytes (bytesLE n v).
Proof.
  induction n as [|n IH]; intros v; simpl; constructor.
  - apply Z.mod_pos_bound. lia.
  - apply IH.
Qed.

Lemma toUint8ArrayBE_bytes v : is_bytes (toUint8ArrayBE v).
Proof. unfold toUint8ArrayBE. apply Forall_rev, bytesLE_bytes. Qed.

Lemma drain_chunk_bytes n : forall j start slotBytes buf,
  is_bytes slotBytes -> is_bytes buf ->
  is_bytes (drain_chunk n j start slotBytes buf).
Proof.
  induction n as [|n IH]; intros j start slotBytes buf Hs Hb; simpl; [done|].
  apply IH; [done|]. unfold is_bytes. apply Forall_insert; [done|].
  destruct (nth_in_or_default (Z.to_nat (j - start)) slotBytes 0) as [Hin| ->];
    [|lia].
  unfold is_bytes in Hs. rewrite Forall_forall in Hs. apply Hs.
  apply list_elem_of_In. exact Hin.
Qed.

(** The buffer the chunk loop of [readString] fills, whatever the slots
    hold: byte [x] comes from position [x mod 32] of slot [x / 32 + 1]. *)
Lemma read_loop_gen map baseKey n w m : forall i0 buf,
  0 <= i0 -> i0 + Z.of_nat m < U32_MOD ->
  baseKey + i0 + Z.of_nat m <= U256_MAX ->
  is_bytes buf ->
  exists buf',
    for_loop m i0 (read_body map baseKey n) buf w = Ok buf' w /\
    length buf' = length buf /\ is_bytes buf' /\
    forall x : nat,
      buf' !! x =
      if decide (i0 * 32 <= Z.of_nat x < (i0 + Z.of_nat m) * 32
                 /\ Z.of_nat x < n /\ (x < length buf)%nat)
      then Some (nth (Z.to_nat (Z.of_nat x mod 32))
                   (toUint8ArrayBE
                      (cell (storage w) map (baseKey + Z.of_nat x / 32 + 1))) 0)
      else buf !! x.
Proof.
  induction m as [|m IH]; intros i0 buf Hi0 Hu32 Hmax Hbuf.
  - exists buf. repeat split; try done. intros x.
    rewrite decide_False by lia. reflexivity.
  - rewrite for_loop_S, read_body_run.
    rewrite (to_u32_small (i0 + 1)) by lia.
    destruct (baseKey + (i0 + 1) <=? U256_MAX) eqn:E; [|lia].
    set (buf1 := drain_chunk _ _ _ _ buf).
    destruct (IH (i0 + 1) buf1) as (buf' & Hrun & Hlen' & Hb' & Hlook);
      try lia.
    { subst buf1. apply drain_chunk_bytes; [apply toUint8ArrayBE_bytes|done]. }
    exists buf'. split; [exact Hrun|].
    assert (Hlen1 : length buf1 = length buf)
      by (subst buf1; apply drain_chunk_length).
    split; [congruence|]. split; [exact Hb'|].
    intros x. rewrite Hlook, Hlen1. subst buf1.
    rewrite drain_chunk_lookup by lia.
    destruct (i0 * 32 + 32 >? n) eqn:E2;
      repeat case_decide; try lia; try reflexivity; destruct_and?.
    all: assert (Hq : Z.of_nat x / 32 = i0)
      by (symmetry; apply (Z.div_unique _ 32 i0 (Z.of_nat x - i0 * 32)); lia).
    all: assert (Hr : Z.of_nat x mod 32 = Z.of_nat x - i0 * 32)
      by (symmetry; apply (Z.mod_unique _ 32 i0); lia).
    all: rewrite Hq, Hr.
    all: replace (baseKey + i0 + 1) with (baseKey + (i0 + 1)) by lia.
    all: replace (Z.to_nat (Z.of_nat x - i0 * 32))
           with (x - Z.to_nat (i0 * 32))%nat by lia.
    all: reflexivity.
Qed.

(** Byte [j] of the string [readString] returns. *)
Lemma readString_byte map baseKey w s j :
  readString map baseKey w = Ok s w ->
  0 < cell (storage w) map baseKey <= BLOCK_MAXSIZE ->
  baseKey + chunk_count (cell (storage w) map baseKey) <= U256_MAX ->
  0 <= j < cell (storage w) map baseKey ->
  nth (Z.to_nat j) (utf8_encode s) 0 =
  nth (Z.to_nat (j mod 32))
    (toUint8ArrayBE (cell (storage w) map (baseKey + j / 32 + 1))) 0.
Proof.
  intros Hrun HL Hfit Hj. rewrite readString_eq in Hrun. cbv zeta in Hrun.
  destruct (_ =? 0) eqn:E0; [lia|].
  unfold BLOCK_MAXSIZE in HL.
  rewrite to_u32_small in Hrun by (unfold U32_MOD; lia).
  rewrite to_i32_small in Hrun by lia.
  destruct ((0 <=? _) && (_ <=? BLOCK_MAXSIZE)) eqn:E;
    [|unfold BLOCK_MAXSIZE in E; lia].
  set (n := cell (storage w) map baseKey) in *.
  pose proof (chunk_count_bound n ltac:(unfold BLOCK_MAXSIZE; lia)) as Hc.
  pose proof (chunk_count_spec n ltac:(lia)) as Hcs.
  destruct (read_loop_gen map baseKey n w (Z.to_nat (chunk_count n)) 0
              (replicate (Z.to_nat n) 0))
    as (buf' & Hloop & Hlen' & Hb' & Hlook); try (unfold U32_MOD; lia).
  { unfold is_bytes. apply Forall_replicate. lia. }
  rewrite Hloop in Hrun. injection Hrun as <-.
  rewrite utf8_encode_decode by exact Hb'.
  rewrite length_replicate in Hlen', Hlook.
  apply nth_lookup_Some. rewrite Hlook.
  rewrite decide_True.
  - rewrite !Z2Nat.id by lia. reflexivity.
  - rewrite !Z2Nat.id by lia. split; [|lia].
    assert (j / 32 < chunk_count n).
    { apply Hcs; [apply Z.div_pos; lia|].
      pose proof (Z.div_mod j 32 ltac:(lia)).
      pose proof (Z.mod_pos_bound j 32 ltac:(lia)). lia. }
    pose proof (Z.div_mod j 32 ltac:(lia)).
    pose proof (Z.mod_pos_bound j 32 ltac:(lia)). lia.
Qed.

Lemma nth_map_seq {A} (f : nat -> A) (n o : nat) (d : A) :
  (o < n)%nat -> nth o (List.map f (seq 0 n)) d = f o.
Proof.
  intros Ho.
  rewrite (nth_indep _ d (f 0%nat)) by (rewrite length_map, length_seq; lia).
  rewrite map_nth, seq_nth by lia. reflexivity.
Qed.

Lemma slot_bytes_length w m baseKey n :
  length (slot_bytes w m baseKey n) = Z.to_nat n.
Proof. unfold slot_bytes. rewrite length_map, length_seq. reflexivity. Qed.

Lemma slot_bytes_bytes w m baseKey n : is_bytes (slot_bytes w m baseKey n).
Proof.
  unfold slot_bytes, is_bytes. apply Forall_forall. intros b Hb.
  apply list_elem_of_In, in_map_iff in Hb as (x & <- & _).
  pose proof (toUint8ArrayBE_bytes
                (cell (storage w) m (baseKey + Z.of_nat x / 32 + 1))) as Hall.
  unfold is_bytes in Hall. rewrite Forall_forall in Hall.
  set (l := toUint8ArrayBE _) in *.
  destruct (nth_in_or_default (Z.to_nat (Z.of_nat x mod 32)) l 0) as [Hin | ->].
  - apply Hall, list_elem_of_In, Hin.
  - lia.
Qed.

(** The buffer [readString] hands to the decoder holds the first bytes of
    the chunk slots, as many as the base slot says. *)
Lemma readString_slot_bytes m baseKey w :
  0 <= cell (storage w) m baseKey <= BLOCK_MAXSIZE ->
  baseKey + chunk_count (cell (storage w) m baseKey) <= U256_MAX ->
  readString m baseKey w
  = Ok (utf8_decode (slot_bytes w m baseKey (cell (storage w) m baseKey))) w.
Proof.
  intros HL Hfit. rewrite readString_eq. cbv zeta.
  destruct (cell (storage w) m baseKey =? 0) eqn:E0.
  - assert (H0 : cell (storage w) m baseKey = 0) by lia. rewrite H0.
    reflexivity.
  - unfold BLOCK_MAXSIZE in HL.
    rewrite to_u32_small by (unfold U32_MOD; lia).
    rewrite to_i32_small by lia.
    destruct ((0 <=? _) && (_ <=? BLOCK_MAXSIZE)) eqn:E;
      [|unfold BLOCK_MAXSIZE in E; lia].
    set (n := cell (storage w) m baseKey) in *.
    pose proof (chunk_count_bound n ltac:(unfold BLOCK_MAXSIZE; lia)) as Hc.
    pose proof (chunk_count_spec n ltac:(lia)) as Hcs.
    destruct (read_loop_gen m baseKey n w (Z.to_nat (chunk_count n)) 0
                (replicate (Z.to_nat n) 0))
      as (buf' & Hloop & Hlen' & Hb' & Hlook); try (unfold U32_MOD; lia).
    { unfold is_bytes. apply Forall_replicate. lia. }
    rewrite Hloop. do 2 f_equal.
    rewrite length_replicate in Hlen', Hlook.
    apply (nth_ext _ _ 0 0).
    + rewrite slot_bytes_length. exact Hlen'.
    + intros x Hx. rewrite Hlen' in Hx.
      unfold slot_bytes. rewrite nth_map_seq by exact Hx.
      apply nth_lookup_Some. rewrite Hlook.
      rewrite decide_True; [reflexivity|].
      split; [|lia].
      assert (Z.of_nat x / 32 < chunk_count n).
      { apply Hcs; [apply Z.div_pos; lia|].
        pose proof (Z.div_mod (Z.of_nat x) 32 ltac:(lia)).
        pose proof (Z.mod_pos_bound (Z.of_nat x) 32 ltac:(lia)). lia. }
      pose proof (Z.div_mod (Z.of_nat x) 32 ltac:(lia)).
      pose proof (Z.mod_pos_bound (Z.of_nat x) 32 ltac:(lia)). lia.
Qed.

Lemma utf8_encode_app s1 s2 :
  utf8_encode (s1 ++ s2) = utf8_encode s1 ++ utf8_encode s2.
Proof.
  unfold utf8_encode. induction s1 as [|a s1 IH]; [reflexivity|].
  change (List.map byte_of_ascii (list_ascii_of_string (String a (s1 ++ s2)))
          = byte_of_ascii a
            :: (List.map byte_of_ascii (list_ascii_of_string s1)
                ++ List.map byte_of_ascii (list_ascii_of_string s2))).
  cbn [list_ascii_of_string List.map]. rewrite IH. reflexivity.
Qed.


(* ===================================================================== *)
(** ** A record right after its registration *)
(* ===================================================================== *)

Lemma registerFile_Ok_readName env cid fileName fileSize w b w' :
  wf_string cid -> wf_string fileName ->
  registerFile env cid fileName fileSize w = Ok b w' ->
  readString fileNameChunksPointer (cidToKey cid) w' = Ok fileName w'.
Proof.
  intros Hcid Hname Hrun.
  destruct (registerFile_Ok_strings _ _ _ _ _ _ _ Hcid Hname Hrun)
    as (_ & Hn & _).
  apply readString_stored; [done|apply name_store_fits; done| |].
  - rewrite Hn. rewrite decide_True; done.
  - intros i Hi. rewrite Hn. rewrite decide_False by lia.
    rewrite decide_True by lia. do 2 f_equal. lia.
Qed.

Lemma registerFile_Ok_readCid env cid fileName fileSize w b w' :
  wf_string cid -> wf_string fileName ->
  registerFile env cid fileName fileSize w = Ok b w' ->
  readString cidChunksPointer (totalCount w * 256) w' = Ok cid w'.
Proof.
  intros Hcid Hname Hrun.
  destruct (registerFile_Ok_strings _ _ _ _ _ _ _ Hcid Hname Hrun)
    as (Hfit & _ & Hc).
  apply readString_stored; [done|done| |].
  - rewrite Hc. rewrite decide_True; done.
  - intros i Hi. rewrite Hc. rewrite decide_False by lia.
    rewrite decide_True by lia. do 2 f_equal. lia.
Qed.

Lemma registerFile_Ok_scalars env cid fileName fileSize w b w' :
  registerFile env cid fileName fileSize w = Ok b w' ->
  cell (storage w') fileSizesPointer (cidToKey cid) = fileSize /\
  cell (storage w') fileUploadersPointer (cidToKey cid)
    = fromBytesBE (map (fun i => nth i (sender env) 0) (seq 0 32)) /\
  cell (storage w') fileBlocksPointer (cidToKey cid) = block_number env /\
  cell (storage w') fileTimestampsPointer (cidToKey cid)
    = block_medianTimestamp env.
Proof.
  intros Hrun.
  repeat split;
    rewrite (registerFile_Ok_cells _ _ _ _ _ _ _ Hrun) by (pointers; lia);
    rewrite decide_False by (pointers; lia);
    rewrite record_written_cell; rewrite decide_True by done;
    pointers; repeat case_decide; try reflexivity; lia.
Qed.

(** The record just registered is what [getFile] answers with, if the
    response fits its buffer. *)
Lemma registerFile_Ok_getFile env cid fileName fileSize w b w' :
  wf_string cid -> wf_string fileName ->
  registerFile env cid fileName fileSize w = Ok b w' ->
  getFile cid w'
  = respond (getFile_capacity fileName) (getFile_size fileName)
      (record_of (mkRegistration env cid fileName fileSize)) w'.
Proof.
  intros Hcid Hname Hrun. rewrite getFile_run. unfold exists_flag.
  rewrite (registerFile_Ok_exists _ _ _ _ _ _ _ Hrun).
  rewrite decide_True by done. simpl.
  rewrite (registerFile_Ok_readName _ _ _ _ _ _ _ Hcid Hname Hrun).
  destruct (registerFile_Ok_scalars _ _ _ _ _ _ _ Hrun) as (-> & -> & -> & ->).
  reflexivity.
Qed.

(** ... and what [getFileByIndex] answers with at the ordinal it was
    given. *)
Lemma registerFile_Ok_getFileByIndex env cid fileName fileSize w b w' :
  wf_string cid -> wf_string fileName ->
  registerFile env cid fileName fileSize w = Ok b w' ->
  getFileByIndex (totalCount w) w'
  = respond (getFileByIndex_capacity cid fileName)
      (getFileByIndex_size cid fileName)
      (index_record_of (mkRegistration env cid fileName fileSize)) w'.
Proof.
  intros Hcid Hname Hrun. rewrite getFileByIndex_run.
  rewrite (registerFile_Ok_totalCount _ _ _ _ _ _ _ Hrun).
  destruct (totalCount w >=? totalCount w + 1) eqn:E; [lia|].
  pose proof (registerFile_Ok_inv _ _ _ _ _ _ _ Hrun)
    as (_ & _ & _ & _ & _ & _ & Hm & _).
  destruct (totalCount w * 256 <=? U256_MAX) eqn:Em; [|lia].
  rewrite (registerFile_Ok_readCid _ _ _ _ _ _ _ Hcid Hname Hrun).
  rewrite (registerFile_Ok_readName _ _ _ _ _ _ _ Hcid Hname Hrun).
  destruct (registerFile_Ok_scalars _ _ _ _ _ _ _ Hrun) as (-> & -> & -> & ->).
  reflexivity.
Qed.

(* ===================================================================== *)
(** ** Responses that fit *)
(* ===================================================================== *)

Lemma ascii_utf16_length s : ascii_string s -> utf16_length s = byte_length s.
Proof.
  intros Ha. unfold utf16_length, byte_length. apply utf16_units_ascii.
  pose proof (utf8_encode_bytes s) as Hb. unfold ascii_string, is_bytes in *.
  rewrite Forall_forall in *. intros x Hx.
  specialize (Ha x Hx). specialize (Hb x Hx). lia.
Qed.

(** A string needs at least as many bytes as UTF-16 units, so a response
    fits exactly when the two counts agree and the buffer can be
    allocated. *)
Lemma byte_length_nonneg s : 0 <= byte_length s.
Proof. unfold byte_length. lia. Qed.

Lemma getFile_fits_iff s :
  response_fits (getFile_capacity s) (getFile_size s) = true <->
  utf16_length s = byte_length s /\ byte_length s + 133 <= BLOCK_MAXSIZE.
Proof.
  pose proof (utf16_length_bounds s) as Hu. fold (byte_length s) in Hu.
  unfold response_fits, getFile_capacity, getFile_size, BLOCK_MAXSIZE.
  rewrite !andb_true_iff, !Z.leb_le. split.
  - intros ((H0 & Hmax) & Hsize).
    assert (Hcap : to_i32 (4 + utf16_length s + 32 * 4 + 1)
                   = 4 + utf16_length s + 32 * 4 + 1).
    { apply to_i32_small. lia. }
    lia.
  - intros (He & Hmax).
    rewrite to_i32_small by lia. lia.
Qed.

Lemma getFileByIndex_fits_iff c s :
  response_fits (getFileByIndex_capacity c s) (getFileByIndex_size c s) = true <->
  utf16_length c = byte_length c /\ utf16_length s = byte_length s /\
  byte_length c + byte_length s + 136 <= BLOCK_MAXSIZE.
Proof.
  pose proof (utf16_length_bounds c) as Hc. fold (byte_length c) in Hc.
  pose proof (utf16_length_bounds s) as Hs. fold (byte_length s) in Hs.
  unfold response_fits, getFileByIndex_capacity, getFileByIndex_size,
    BLOCK_MAXSIZE.
  rewrite !andb_true_iff, !Z.leb_le. split.
  - intros ((H0 & Hmax) & Hsize).
    assert (Hcap : to_i32 (4 + utf16_length c + 4 + utf16_length s + 32 * 4)
                   = 4 + utf16_length c + 4 + utf16_length s + 32 * 4).
    { apply to_i32_small. lia. }
    lia.
  - intros (He1 & He2 & Hmax).
    rewrite to_i32_small by lia. lia.
Qed.

Lemma plain_ascii s : plain_string s -> ascii_string s.
Proof.
  unfold plain_string, ascii_string. intros H.
  eapply Forall_impl; [exact H|]. intros b Hb. cbv beta in Hb. lia.
Qed.

Lemma ascii_getFile_fits s :
  ascii_string s -> byte_length s + 133 <= BLOCK_MAXSIZE ->
  response_fits (getFile_capacity s) (getFile_size s) = true.
Proof.
  intros Ha Hmax. apply getFile_fits_iff. split; [|exact Hmax].
  apply ascii_utf16_length, Ha.
Qed.

Lemma ascii_getFileByIndex_fits c s :
  ascii_string c -> ascii_string s ->
  byte_length c + byte_length s + 136 <= BLOCK_MAXSIZE ->
  response_fits (getFileByIndex_capacity c s) (getFileByIndex_size c s) = true.
Proof.
  intros Hc Hs Hmax. apply getFileByIndex_fits_iff.
  split; [apply ascii_utf16_length, Hc|].
  split; [apply ascii_utf16_length, Hs|exact Hmax].
Qed.

(* ===================================================================== *)
(** ** Telling two keys apart by parity *)
(* ===================================================================== *)

Lemma odd_mod_2_64 x : Z.odd (x mod 2 ^ 64) = Z.odd x.
Proof. rewrite <- !Z.bit0_odd. apply Z.mod_pow2_bits_low. lia. Qed.

Lemma xor_then_multiply_odd m acc x :
  Z.odd m = true ->
  Z.odd (xor_then_multiply m acc x) = xorb (Z.odd acc) (Z.odd x).
Proof.
  intros Hm. unfold xor_then_multiply.
  rewrite odd_mod_2_64, Z.odd_mul, Hm, andb_true_r.
  rewrite <- !Z.bit0_odd. apply Z.lxor_spec.
Qed.

Lemma fold_xor_then_multiply_odd m bytes : forall acc,
  Z.odd m = true ->
  Z.odd (fold_left (xor_then_multiply m) bytes acc)
  = xorb (Z.odd acc) (parity bytes).
Proof.
  induction bytes as [|b bytes IH]; intros acc Hm; simpl.
  - rewrite xorb_false_r. reflexivity.
  - rewrite IH by done. rewrite xor_then_multiply_odd by done.
    apply xorb_assoc.
Qed.

Lemma acc_hi_odd bytes : Z.odd (acc_hi bytes) = negb (parity bytes).
Proof.
  unfold acc_hi. rewrite fold_xor_then_multiply_odd by reflexivity.
  reflexivity.
Qed.

Lemma cidToKey_parity cid1 cid2 :
  parity (utf8_encode cid1) <> parity (utf8_encode cid2) ->
  cidToKey cid1 <> cidToKey cid2.
Proof.
  intros Hp Hk. rewrite !cidToKey_deriveKey, !deriveKey_key_of in Hk.
  apply key_of_inj in Hk as [Hhi _];
    try first [apply acc_hi_range | apply acc_lo_range].
  apply Hp. pose proof (acc_hi_odd (utf8_encode cid1)) as H1.
  pose proof (acc_hi_odd (utf8_encode cid2)) as H2. rewrite Hhi in H1.
  destruct (parity (utf8_encode cid1)), (parity (utf8_encode cid2));
    simpl in *; congruence.
Qed.

Lemma utf8_encode_repeat_char n a :
  utf8_encode (repeat_char n a) = replicate n (byte_of_ascii a).
Proof.
  induction n as [|n IH]; simpl; [done|].
  unfold utf8_encode in *. simpl. rewrite IH. reflexivity.
Qed.

Lemma parity_replicate n b :
  parity (replicate n b) = Nat.odd n && Z.odd b.
Proof.
  induction n as [|n IH]; [reflexivity|].
  change (parity (replicate (S n) b)) with (xorb (Z.odd b) (parity (replicate n b))).
  rewrite IH, Nat.odd_succ, <- Nat.negb_odd.
  destruct (Nat.odd n), (Z.odd b); reflexivity.
Qed.

Lemma plain_registration_fits r :
  plain_registration r ->
  response_fits (getFile_capacity (reg_fileName r))
    (getFile_size (reg_fileName r)) = true /\
  response_fits (getFileByIndex_capacity (reg_cid r) (reg_fileName r))
    (getFileByIndex_size (reg_cid r) (reg_fileName r)) = true.
Proof.
  intros (Hc & Hn & Hmax).
  pose proof (byte_length_nonneg (reg_cid r)).
  split.
  - apply ascii_getFile_fits; [apply plain_ascii, Hn|lia].
  - apply ascii_getFileByIndex_fits;
      [apply plain_ascii, Hc|apply plain_ascii, Hn|exact Hmax].
Qed.

Lemma plain_registration_wf r :
  plain_registration r -> wf_string (reg_cid r) /\ wf_string (reg_fileName r).
Proof.
  intros (_ & _ & Hmax).
  pose proof (byte_length_nonneg (reg_cid r)).
  pose proof (byte_length_nonneg (reg_fileName r)).
  unfold wf_string, byte_length in *. lia.
Qed.

(** A response by ordinal that fits leaves room for the response by
    identifier. *)
Lemma index_fits_getFile c s :
  response_fits (getFileByIndex_capacity c s) (getFileByIndex_size c s) = true ->
  response_fits (getFile_capacity s) (getFile_size s) = true.
Proof.
  rewrite getFileByIndex_fits_iff, getFile_fits_iff.
  pose proof (byte_length_nonneg c). intros (_ & Hs & Hmax). split; [exact Hs|lia].
Qed.


(* ===================================================================== *)
(** ** Slot regions *)
(* ===================================================================== *)

(** Name strings stored under different keys never share a slot. *)
Lemma name_slots_disjoint cid1 cid2 name1 name2 x :
  wf_string name1 -> wf_string name2 ->
  cidToKey cid1 <> cidToKey cid2 ->
  string_slots (cidToKey cid1) name1 x ->
  ~ string_slots (cidToKey cid2) name2 x.
Proof.
  intros H1 H2 Hne. unfold string_slots.
  pose proof (chunk_count_bound _ (wf_string_range _ H1)).
  pose proof (chunk_count_bound _ (wf_string_range _ H2)).
  pose proof (cidToKey_far _ _ Hne). lia.
Qed.

Lemma chunk_count_cid_bound n : 0 <= n <= MAX_CID_BYTES -> chunk_count n < 256.
Proof.
  unfold MAX_CID_BYTES, chunk_count. intros.
  apply Z.div_lt_upper_bound; lia.
Qed.

(** Identifiers of at most 255 chunks stay inside their ordinal's stride. *)
Lemma cid_slots_disjoint i j cid1 cid2 x :
  byte_length cid1 <= MAX_CID_BYTES -> byte_length cid2 <= MAX_CID_BYTES ->
  i <> j ->
  string_slots (i * STRIDE) cid1 x -> ~ string_slots (j * STRIDE) cid2 x.
Proof.
  unfold string_slots, STRIDE. intros H1 H2 Hne.
  assert (0 <= byte_length cid1) by (unfold byte_length; lia).
  assert (0 <= byte_length cid2) by (unfold byte_length; lia).
  pose proof (chunk_count_cid_bound (byte_length cid1) ltac:(lia)).
  pose proof (chunk_count_cid_bound (byte_length cid2) ltac:(lia)).
  lia.
Qed.

(* ===================================================================== *)
(** ** An identifier longer than 255 chunks *)
(* ===================================================================== *)

Lemma long_cid_bytes : utf8_encode long_cid = replicate (Z.to_nat 8161) 97.
Proof. unfold long_cid. apply utf8_encode_repeat_char. Qed.

Lemma long_cid_length : byte_length long_cid = 8161.
Proof.
  unfold byte_length. rewrite long_cid_bytes, length_replicate. lia.
Qed.

Lemma long_cid_wf : wf_string long_cid.
Proof.
  pose proof long_cid_length as H. unfold byte_length in H.
  unfold wf_string, BLOCK_MAXSIZE. rewrite H. lia.
Qed.

Lemma long_cid_chunks : chunk_count (byte_length long_cid) = 256.
Proof. rewrite long_cid_length. reflexivity. Qed.

Lemma long_cid_key : cidToKey "b" <> cidToKey long_cid.
Proof.
  apply cidToKey_parity. rewrite long_cid_bytes, parity_replicate.
  vm_compute. discriminate.
Qed.

Lemma short_wf s : (String.length s < 100)%nat -> wf_string s.
Proof.
  intros H. unfold wf_string, utf8_encode, BLOCK_MAXSIZE.
  rewrite length_map. rewrite <- (string_of_list_ascii_of_string s) in H.
  revert H. generalize (list_ascii_of_string s). intros l.
  assert (String.length (string_of_list_ascii l) = length l) as ->.
  { induction l as [|a l IH]; simpl; [done|]. rewrite IH. reflexivity. }
  lia.
Qed.

Lemma totalCount_deployed : totalCount deployed = 0.
Proof. reflexivity. Qed.

(** The two registrations, in any worlds [w1] and [w2] they lead to. *)
Section Spill.

Variables w1 w2 : World.
Hypothesis first_ok :
  registerFile sample_env long_cid "n" 1 deployed = Ok true w1.
Hypothesis second_ok :
  registerFile sample_env "b" "m" 1 w1 = Ok true w2.

Lemma spill_count_1 : totalCount w1 = 1.
Proof.
  rewrite (registerFile_Ok_totalCount _ _ _ _ _ _ _ first_ok).
  rewrite totalCount_deployed. reflexivity.
Qed.

Lemma spill_count_2 : totalCount w2 = 2.
Proof.
  rewrite (registerFile_Ok_totalCount _ _ _ _ _ _ _ second_ok).
  rewrite spill_count_1. reflexivity.
Qed.

(** The identifier slots after the first registration. *)
Lemma spill_cids_1 x :
  cell (storage w1) cidChunksPointer x =
  if decide (x = 0) then 8161
  else if decide (1 <= x <= 256)
  then fromBytesBE (chunk_arr (utf8_encode long_cid) 8161 (x - 1))
  else 0.
Proof.
  destruct (registerFile_Ok_strings _ _ _ _ _ _ _ long_cid_wf
              (short_wf "n" ltac:(simpl; lia)) first_ok) as (_ & _ & Hc).
  rewrite Hc, totalCount_deployed, long_cid_chunks, long_cid_length.
  repeat case_decide; try lia; try reflexivity.
  - do 2 f_equal. lia.
  - unfold deployed, run, onDeployment, set_totalFiles_value, map_set. simpl.
    rewrite cell_insert_ne by (pointers; left; lia).
    unfold cell. rewrite lookup_empty. reflexivity.
Qed.

(** The identifier slots after the second registration: slot 256 now
    holds the length of the second identifier. *)
Lemma spill_cids_2 x :
  x <= 256 ->
  cell (storage w2) cidChunksPointer x =
  if decide (x = 256) then 1 else cell (storage w1) cidChunksPointer x.
Proof.
  intros Hx.
  destruct (registerFile_Ok_strings _ _ _ _ _ _ _
              (short_wf "b" ltac:(simpl; lia))
              (short_wf "m" ltac:(simpl; lia)) second_ok) as (_ & _ & Hc).
  rewrite Hc, spill_count_1.
  repeat case_decide; try lia; reflexivity.
Qed.

Lemma spill_readable : readable w2.
Proof.
  apply (readable_registerFile _ _ _ _ _ _ _
           (short_wf "b" ltac:(simpl; lia))
           (short_wf "m" ltac:(simpl; lia))
           (readable_registerFile _ _ _ _ _ _ _ long_cid_wf
              (short_wf "n" ltac:(simpl; lia)) readable_deployed first_ok)
           second_ok).
Qed.

(** Ordinal 0 right after the first registration. *)
Lemma long_cid_ascii : ascii_string long_cid.
Proof.
  unfold ascii_string. rewrite long_cid_bytes. apply Forall_replicate. lia.
Qed.

Lemma spill_ordinal_0_before :
  getFileByIndex 0 w1
  = Ok (index_record_of (mkRegistration sample_env long_cid "n" 1)) w1.
Proof.
  rewrite <- totalCount_deployed.
  rewrite (registerFile_Ok_getFileByIndex _ _ _ _ _ _ _ long_cid_wf
             (short_wf "n" ltac:(simpl; lia)) first_ok).
  apply respond_fits, ascii_getFileByIndex_fits.
  - exact long_cid_ascii.
  - repeat constructor.
  - rewrite long_cid_length. vm_compute. discriminate.
Qed.

(** The bytes of the identifier slots of ordinal 0 after the second
    registration: the first 8160 are intact, the last one is the top byte
    of the length that now sits in slot 256. *)
Lemma spill_cid_byte (x : nat) :
  (x < Z.to_nat 8161)%nat ->
  nth x (slot_bytes w2 cidChunksPointer (0 * 256) 8161) 0
  = if decide (x = Z.to_nat 8160) then 0 else 97.
Proof.
  intros Hx. unfold slot_bytes. rewrite nth_map_seq by exact Hx.
  case_decide as Hlast.
  - subst x. replace (Z.of_nat (Z.to_nat 8160)) with 8160 by lia.
    replace (0 * 256 + 8160 / 32 + 1) with 256 by reflexivity.
    rewrite spill_cids_2 by lia. rewrite decide_True by reflexivity.
    reflexivity.
  - pose proof (Z.div_mod (Z.of_nat x) 32 ltac:(lia)) as Hdm.
    pose proof (Z.mod_pos_bound (Z.of_nat x) 32 ltac:(lia)) as Hm.
    assert (Hq : 0 <= Z.of_nat x / 32 <= 254).
    { split; [apply Z.div_pos; lia|]. apply Z.lt_succ_r.
      apply Z.div_lt_upper_bound; lia. }
    rewrite spill_cids_2 by lia. rewrite decide_False by lia.
    rewrite spill_cids_1.
    rewrite decide_False by lia. rewrite decide_True by lia.
    rewrite toUint8ArrayBE_fromBytesBE;
      [|apply chunk_arr_length|apply chunk_arr_bytes, utf8_encode_bytes].
    apply nth_lookup_Some.
    rewrite chunk_arr_lookup by lia.
    f_equal. rewrite long_cid_bytes. apply nth_lookup_Some.
    apply lookup_replicate_2. lia.
Qed.

Lemma spill_cid_length :
  cell (storage w2) cidChunksPointer (0 * 256) = 8161.
Proof.
  rewrite spill_cids_2 by lia. rewrite decide_False by lia.
  rewrite spill_cids_1. rewrite decide_True by lia. reflexivity.
Qed.

(** What [readString] makes of them. *)
Lemma spill_cid_read :
  exists cid,
    readString cidChunksPointer (0 * 256) w2 = Ok cid w2 /\
    byte_length cid = 8161 /\ ascii_string cid /\
    nth (Z.to_nat 8160) (utf8_encode cid) 0 = 0.
Proof.
  exists (utf8_decode (slot_bytes w2 cidChunksPointer (0 * 256) 8161)).
  split.
  - rewrite readString_slot_bytes; rewrite spill_cid_length.
    + reflexivity.
    + unfold BLOCK_MAXSIZE. lia.
    + replace (chunk_count 8161) with 256 by reflexivity.
      unfold U256_MAX, U256_MOD. lia.
  - unfold byte_length, ascii_string.
    rewrite utf8_encode_decode by apply slot_bytes_bytes.
    split; [rewrite slot_bytes_length; lia|]. split.
    + apply Forall_forall. intros b Hb.
      apply list_elem_of_In, (In_nth _ _ 0) in Hb as (x & Hx & <-).
      rewrite slot_bytes_length in Hx.
      rewrite spill_cid_byte by exact Hx. case_decide; lia.
    + rewrite spill_cid_byte by lia. rewrite decide_True; reflexivity.
Qed.

(** The names of the two registrations are the only ones there are. *)
Lemma spill_names cid :
  exists s,
    readString fileNameChunksPointer (cidToKey cid) w2 = Ok s w2 /\
    ascii_string s /\ byte_length s <= 1.
Proof.
  assert (Hok : forall w s,
            result (readString fileNameChunksPointer (cidToKey cid)) w = inl s ->
            readString fileNameChunksPointer (cidToKey cid) w = Ok s w).
  { intros w s. unfold result.
    destruct (readString_pure fileNameChunksPointer (cidToKey cid) w)
      as [[s' H]|[msg H]]; rewrite H; congruence. }
  destruct (Z.eq_dec (cidToKey cid) (cidToKey "b")) as [Hb|Hb].
  { exists "m"%string. rewrite Hb. split.
    - apply (registerFile_Ok_readName _ _ _ _ _ _ _
               (short_wf "b" ltac:(simpl; lia))
               (short_wf "m" ltac:(simpl; lia)) second_ok).
    - split; [repeat constructor|vm_compute; discriminate]. }
  pose proof (registerFile_Ok_readName_other _ _ _ _ _ _ _ cid second_ok Hb)
    as H2.
  destruct (Z.eq_dec (cidToKey cid) (cidToKey long_cid)) as [Hl|Hl].
  { exists "n"%string. split.
    - apply Hok. rewrite H2, Hl. unfold result.
      rewrite (registerFile_Ok_readName _ _ _ _ _ _ _ long_cid_wf
                 (short_wf "n" ltac:(simpl; lia)) first_ok).
      reflexivity.
    - split; [repeat constructor|vm_compute; discriminate]. }
  pose proof (registerFile_Ok_readName_other _ _ _ _ _ _ _ cid first_ok Hl)
    as H1.
  exists EmptyString. split.
  - apply Hok. rewrite H2, H1. unfold result. rewrite readString_eq. cbv zeta.
    assert (H0 : cell (storage deployed) fileNameChunksPointer (cidToKey cid)
                 = 0).
    { unfold deployed, run, onDeployment, set_totalFiles_value, map_set. simpl.
      rewrite cell_insert_ne by (pointers; left; lia).
      unfold cell. rewrite lookup_empty. reflexivity. }
    rewrite H0. reflexivity.
  - split; [constructor|vm_compute; discriminate].
Qed.

(** Whatever identifier ordinal 0 yields after the second registration,
    its last byte is 0, not the 97 of [long_cid]. *)
Lemma spill_ordinal_0_after :
  exists r,
    getFileByIndex 0 w2 = Ok r w2 /\
    nth (Z.to_nat 8160) (utf8_encode (ir_cid r)) 0 = 0.
Proof.
  destruct spill_cid_read as (cid & Hcid & Hlen & Hascii & Hbyte).
  destruct (spill_names cid) as (s & Hs & Hsa & Hsl).
  eexists. split.
  - rewrite getFileByIndex_run, spill_count_2.
    destruct (0 >=? 2) eqn:E; [lia|].
    destruct (0 * 256 <=? U256_MAX) eqn:Em; [|discriminate Em].
    rewrite Hcid, Hs.
    apply respond_fits, ascii_getFileByIndex_fits; [exact Hascii|exact Hsa|].
    rewrite Hlen. unfold BLOCK_MAXSIZE. lia.
  - exact Hbyte.
Qed.

End Spill.

(** Both registrations return. *)
Lemma spill_runs :
  exists w1 w2,
    registerFile sample_env long_cid "n" 1 deployed = Ok true w1 /\
    registerFile sample_env "b" "m" 1 w1 = Ok true w2.
Proof.
  destruct (registerFile_succeeds sample_env long_cid "n" 1 deployed)
    as [w1 H1].
  - exact long_cid_wf.
  - apply short_wf. simpl. lia.
  - apply is_paused_deployed.
  - reflexivity.
  - reflexivity.
  - lia.
  - rewrite exists_flag_deployed. lia.
  - rewrite totalCount_deployed. lia.
  - rewrite totalCount_deployed, long_cid_chunks.
    unfold U256_MAX, U256_MOD. lia.
  - destruct (registerFile_succeeds sample_env "b" "m" 1 w1) as [w2 H2].
    + apply short_wf. simpl. lia.
    + apply short_wf. simpl. lia.
    + rewrite (registerFile_Ok_paused _ _ _ _ _ _ _ H1).
      apply is_paused_deployed.
    + reflexivity.
    + reflexivity.
    + lia.
    + unfold exists_flag.
      rewrite (registerFile_Ok_exists _ _ _ _ _ _ _ H1).
      rewrite decide_False by exact long_cid_key.
      fold (exists_flag deployed "b"). rewrite exists_flag_deployed. lia.
    + rewrite (spill_count_1 w1 H1). lia.
    + rewrite (spill_count_1 w1 H1).
      replace (chunk_count (byte_length "b")) with 1 by reflexivity.
      unfold U256_MAX, U256_MOD. lia.
    + exists w1, w2. split; [exact H1|exact H2].
Qed.

Lemma long_cid_last_byte : nth (Z.to_nat 8160) (utf8_encode long_cid) 0 = 97.
Proof.
  rewrite long_cid_bytes. apply nth_lookup_Some.
  apply lookup_replicate_2. lia.
Qed.

Lemma spill_chunk_255 :
  fromBytesBE (chunk_arr (utf8_encode long_cid) 8161 255) = 97 * 2 ^ 248.
Proof.
  unfold chunk_arr.
  replace (Z.to_nat ((if 255 * 32 + 32 >? 8161 then 8161 else 255 * 32 + 32)
                     - 255 * 32)) with 1%nat by reflexivity.
  cbn [fill_chunk].
  replace (Z.to_nat (255 * 32)) with (Z.to_nat 8160) by reflexivity.
  rewrite long_cid_last_byte. reflexivity.
Qed.

Lemma spill_slots_shared :
  string_slots (0 * STRIDE) long_cid (1 * STRIDE) /\
  string_slots (1 * STRIDE) "b" (1 * STRIDE).
Proof.
  unfold string_slots, STRIDE. rewrite long_cid_chunks.
  replace (chunk_count (byte_length "b")) with 1 by reflexivity. lia.
Qed.

(* ===================================================================== *)
(** ** C9, C4, C10 at the long identifier *)
(* ===================================================================== *)

(** C9 (at the failing input). On a fresh contract [registerFile] accepts
    an identifier of 8161 bytes at ordinal 0 and then the identifier "b" at
    ordinal 1. Slot 256 of the identifier map belongs to the slots of both
    strings: after the first call it holds the 256th chunk of the long
    identifier, after the second the length of "b". *)
Theorem C9_long_identifier_spills :
  exists w1 w2,
    registerFile sample_env long_cid "n" 1 deployed = Ok true w1 /\
    registerFile sample_env "b" "m" 1 w1 = Ok true w2 /\
    string_slots (0 * STRIDE) long_cid (1 * STRIDE) /\
    string_slots (1 * STRIDE) "b" (1 * STRIDE) /\
    cell (storage w1) cidChunksPointer (1 * STRIDE) = 97 * 2 ^ 248 /\
    cell (storage w2) cidChunksPointer (1 * STRIDE) = 1.
Proof.
  destruct spill_runs as (w1 & w2 & H1 & H2).
  destruct spill_slots_shared as (Ha & Hb).
  exists w1, w2.
  split; [exact H1|]. split; [exact H2|].
  split; [exact Ha|]. split; [exact Hb|]. split.
  - rewrite (spill_cids_1 w1 H1). unfold STRIDE.
    rewrite decide_False by lia. rewrite decide_True by lia.
    apply spill_chunk_255.
  - rewrite (spill_cids_2 w1 w2 H1 H2) by (unfold STRIDE; lia).
    rewrite decide_True by reflexivity. reflexivity.
Qed.

(** C4 (at the failing input). The registrations of [long_cid] and of "b"
    return, in this order, and the counter is 2; yet the identifier that
    [getFileByIndex 0] returns is not [long_cid]. *)
Theorem C4_ordinal_lookup_clobbered :
  exists w1 w2 r,
    registerFile sample_env long_cid "n" 1 deployed = Ok true w1 /\
    registerFile sample_env "b" "m" 1 w1 = Ok true w2 /\
    totalCount w2 = 2 /\
    getFileByIndex 0 w2 = Ok r w2 /\
    ir_cid r <> long_cid.
Proof.
  destruct spill_runs as (w1 & w2 & H1 & H2).
  destruct (spill_ordinal_0_after w1 w2 H1 H2) as (r & Hr & Hbyte).
  exists w1, w2, r.
  split; [exact H1|]. split; [exact H2|].
  split; [exact (spill_count_2 w1 w2 H1 H2)|]. split; [exact Hr|].
  intros Heq. rewrite Heq, long_cid_last_byte in Hbyte. lia.
Qed.

(** C10 (at the failing input). With ordinal 0 registered (the counter is
    1), the successful registration of "b" changes what [getFileByIndex 0]
    returns. *)
Theorem C10_registration_clobbers_ordinal :
  exists w1 w2,
    registerFile sample_env long_cid "n" 1 deployed = Ok true w1 /\
    totalCount w1 = 1 /\
    registerFile sample_env "b" "m" 1 w1 = Ok true w2 /\
    result (getFileByIndex 0) w1
      = inl (index_record_of (mkRegistration sample_env long_cid "n" 1)) /\
    result (getFileByIndex 0) w2 <> result (getFileByIndex 0) w1.
Proof.
  destruct spill_runs as (w1 & w2 & H1 & H2).
  destruct (spill_ordinal_0_after w1 w2 H1 H2) as (r & Hr & Hbyte).
  pose proof (spill_ordinal_0_before w1 H1) as Hbefore.
  exists w1, w2.
  split; [exact H1|]. split; [exact (spill_count_1 w1 H1)|].
  split; [exact H2|]. unfold result. rewrite Hbefore, Hr.
  split; [reflexivity|].
  intros Heq. assert (Hr' : r = index_record_of
                               (mkRegistration sample_env long_cid "n" 1))
    by congruence.
  rewrite Hr' in Hbyte. cbn [ir_cid index_record_of reg_cid] in Hbyte.
  rewrite long_cid_last_byte in Hbyte. lia.
Qed.


(* ===================================================================== *)
(** ** Identifiers that fit the stride *)
(* ===================================================================== *)

Lemma stored_string_read w map baseKey s :
  wf_string s -> baseKey + chunk_count (byte_length s) <= U256_MAX ->
  stored_string w map baseKey s ->
  readString map baseKey w = Ok s w.
Proof.
  intros Hwf Hfit [Hlen Hchunks]. apply readString_stored; done.
Qed.

(** An intact registration is found by identifier and by ordinal; what is
    left is to fit the response. *)
Lemma stored_registration_getFile w i r :
  stored_registration w i r ->
  getFile (reg_cid r) w
  = respond (getFile_capacity (reg_fileName r)) (getFile_size (reg_fileName r))
      (record_of r) w.
Proof.
  intros (Hcid & Hname & _ & He & _ & Hn & Hs & Hu & Hb & Ht).
  rewrite getFile_run, He. simpl.
  rewrite (stored_string_read _ _ _ _ Hname (name_store_fits _ _ Hname) Hn).
  rewrite Hs, Hu, Hb, Ht. reflexivity.
Qed.

Lemma stored_registration_getFileByIndex w regs i r :
  consistent w regs -> regs !! i = Some r ->
  getFileByIndex (Z.of_nat i) w
  = respond (getFileByIndex_capacity (reg_cid r) (reg_fileName r))
      (getFileByIndex_size (reg_cid r) (reg_fileName r))
      (index_record_of r) w.
Proof.
  intros (Hread & Hcount & Hregs) Hi.
  pose proof (Hregs i r Hi)
    as (Hcid & Hname & _ & He & Hc & Hn & Hs & Hu & Hb & Ht).
  apply lookup_lt_Some in Hi.
  destruct Hread as (_ & _ & Hcids).
  destruct (Hcids (Z.of_nat i) ltac:(lia)) as [_ Hfit].
  rewrite (proj1 Hc) in Hfit.
  pose proof (chunk_count_bound _ (wf_string_range _ Hcid)).
  rewrite getFileByIndex_run.
  destruct (Z.of_nat i >=? totalCount w) eqn:E; [lia|].
  destruct (Z.of_nat i * 256 <=? U256_MAX) eqn:Em; [|lia].
  rewrite (stored_string_read _ _ _ _ Hcid Hfit Hc).
  rewrite (stored_string_read _ _ _ _ Hname (name_store_fits _ _ Hname) Hn).
  rewrite Hs, Hu, Hb, Ht. reflexivity.
Qed.

(** A registration stays intact when its cells are left alone. *)
Lemma stored_registration_frame w w' i r :
  stored_registration w i r ->
  (forall p, fileSizesPointer <= p <= fileExistsPointer ->
     cell (storage w') p (cidToKey (reg_cid r))
     = cell (storage w) p (cidToKey (reg_cid r))) ->
  (forall x, cidToKey (reg_cid r) <= x < cidToKey (reg_cid r) + U32_MOD ->
     cell (storage w') fileNameChunksPointer x
     = cell (storage w) fileNameChunksPointer x) ->
  (forall x, Z.of_nat i * 256 <= x < Z.of_nat i * 256 + 256 ->
     cell (storage w') cidChunksPointer x = cell (storage w) cidChunksPointer x) ->
  stored_registration w' i r.
Proof.
  intros (Hcid & Hname & Hbound & He & [Hc0 Hc] & [Hn0 Hn] & Hs & Hu & Hb & Ht)
    Hscal Hnames Hcids.
  pose proof (chunk_count_bound _ (wf_string_range _ Hname)).
  pose proof (chunk_count_cid_bound (byte_length (reg_cid r))
                ltac:(unfold byte_length in *; lia)).
  assert (0 <= chunk_count (byte_length (reg_cid r)))
    by (apply chunk_count_bound, wf_string_range, Hcid).
  unfold stored_registration, stored_string, exists_flag in *. cbv zeta.
  repeat split; try assumption;
    try (rewrite Hscal by (pointers; lia); assumption).
  - rewrite Hcids by lia. exact Hc0.
  - intros k Hk. rewrite Hcids by lia. apply Hc, Hk.
  - rewrite Hnames by (unfold U32_MOD; lia). exact Hn0.
  - intros k Hk. rewrite Hnames by (unfold U32_MOD; lia). apply Hn, Hk.
Qed.

Lemma consistent_deployed : consistent deployed [].
Proof.
  split; [apply readable_deployed|]. split; [reflexivity|].
  intros i r Hi. rewrite lookup_nil in Hi. discriminate.
Qed.

Lemma consistent_same_cells w w' regs :
  consistent w regs -> readable w' ->
  (forall p x, totalFilesPointer <= p <= cidChunksPointer ->
     cell (storage w') p x = cell (storage w) p x) ->
  consistent w' regs.
Proof.
  intros (_ & Hcount & Hregs) Hread Hcells.
  split; [exact Hread|]. split.
  - unfold totalCount. rewrite Hcells by (pointers; lia). exact Hcount.
  - intros i r Hi. apply (stored_registration_frame w); [apply Hregs, Hi|..];
      intros; apply Hcells; pointers; lia.
Qed.

(** One registration with a short identifier extends a consistent world. *)
Lemma consistent_registerFile env cid fileName fileSize w b w' regs :
  wf_string cid -> wf_string fileName -> byte_length cid <= MAX_CID_BYTES ->
  consistent w regs ->
  registerFile env cid fileName fileSize w = Ok b w' ->
  consistent w' (regs ++ [mkRegistration env cid fileName fileSize]).
Proof.
  intros Hcid Hname Hbound (Hread & Hcount & Hregs) Hrun.
  pose proof (readable_registerFile _ _ _ _ _ _ _ Hcid Hname Hread Hrun)
    as Hread'.
  pose proof (registerFile_Ok_totalCount _ _ _ _ _ _ _ Hrun) as Hcount'.
  pose proof (registerFile_Ok_inv _ _ _ _ _ _ _ Hrun)
    as (_ & _ & _ & _ & _ & Hfresh & _).
  split; [exact Hread'|]. split.
  - rewrite Hcount', length_app. simpl. lia.
  - intros i r Hi.
    destruct (decide (i < length regs)%nat) as [Hlt|Hge].
    + rewrite lookup_app_l in Hi by exact Hlt.
      pose proof (Hregs i r Hi) as Hst.
      assert (Hkey : cidToKey (reg_cid r) <> cidToKey cid).
      { intros Heq. apply Hfresh. unfold exists_flag. rewrite <- Heq.
        apply Hst. }
      apply (stored_registration_frame w); [exact Hst|..].
      * intros p Hp.
        rewrite (registerFile_Ok_cells _ _ _ _ _ _ _ Hrun) by (pointers; lia).
        rewrite decide_False by (pointers; lia).
        rewrite record_written_cell. rewrite decide_False by exact Hkey.
        reflexivity.
      * intros x Hx. apply (registerFile_Ok_names_far _ _ _ _ _ _ _ Hrun).
        pose proof (cidToKey_far _ _ Hkey). unfold U32_MOD in *. lia.
      * intros x Hx. apply (registerFile_Ok_cids_far _ _ _ _ _ _ _ Hrun).
        lia.
    + assert (i = length regs) as ->.
      { apply lookup_lt_Some in Hi. rewrite length_app in Hi. simpl in Hi. lia. }
      rewrite lookup_app_r in Hi by lia.
      rewrite Nat.sub_diag in Hi. injection Hi as <-.
      destruct (registerFile_Ok_strings _ _ _ _ _ _ _ Hcid Hname Hrun)
        as (_ & Hn & Hc).
      destruct (registerFile_Ok_scalars _ _ _ _ _ _ _ Hrun)
        as (Hs & Hu & Hb & Ht).
      unfold stored_registration, stored_string, exists_flag.
      cbn [reg_cid reg_fileName reg_fileSize reg_env]. cbv zeta.
      rewrite <- Hcount.
      split; [exact Hcid|]. split; [exact Hname|]. split; [exact Hbound|].
      split.
      { rewrite (registerFile_Ok_exists _ _ _ _ _ _ _ Hrun).
        rewrite decide_True; done. }
      split.
      { split.
        - rewrite Hc. rewrite decide_True; done.
        - intros k Hk. rewrite Hc. rewrite decide_False by lia.
          rewrite decide_True by lia. do 2 f_equal. lia. }
      split.
      { split.
        - rewrite Hn. rewrite decide_True; done.
        - intros k Hk. rewrite Hn. rewrite decide_False by lia.
          rewrite decide_True by lia. do 2 f_equal. lia. }
      exact (conj Hs (conj Hu (conj Hb Ht))).
Qed.

Lemma consistent_exec env c w regs :
  wf_call c -> bounded_cids (registration_of env c w) ->
  consistent w regs ->
  consistent (exec env c w) (regs ++ registration_of env c w).
Proof.
  intros Hwf Hbound Hcons.
  destruct c; cbn [exec registration_of] in *;
    rewrite ?run_getFile, ?run_getFileByIndex, ?app_nil_r; try exact Hcons.
  - unfold run, succeeds in *.
    destruct (registerFile env cid fileName fileSize w) as [b w'|] eqn:Hrun.
    + destruct Hwf as (Hcid & Hname & _). inversion Hbound; subst.
      eapply consistent_registerFile; eassumption.
    + rewrite app_nil_r. exact Hcons.
  - apply (consistent_same_cells w); [exact Hcons| |].
    + apply (readable_exec env Pause); [exact I|apply Hcons].
    + intros p x Hp. unfold pause. rewrite run_pause_cell.
      rewrite decide_False by (pointers; lia). reflexivity.
  - apply (consistent_same_cells w); [exact Hcons| |].
    + apply (readable_exec env Unpause); [exact I|apply Hcons].
    + intros p x Hp. unfold unpause. rewrite run_pause_cell.
      rewrite decide_False by (pointers; lia). reflexivity.
Qed.

Lemma consistent_exec_trace tr : forall w regs,
  wf_trace tr -> bounded_cids (registrations tr w) ->
  consistent w regs ->
  consistent (exec_trace tr w) (regs ++ registrations tr w).
Proof.
  induction tr as [|[env c] tr IH]; intros w regs Hwf Hbound Hcons.
  - simpl. rewrite app_nil_r. exact Hcons.
  - cbn [exec_trace registrations] in *.
    inversion Hwf as [|? ? [_ Hcall] Hwf']; subst.
    apply Forall_app in Hbound as [Hb1 Hb2].
    rewrite app_assoc. apply IH; [exact Hwf'|exact Hb2|].
    apply consistent_exec; assumption.
Qed.

(** X13. When every registration of a history is of plain strings (7-bit
    characters other than NUL) and its identifier has at most 8160 bytes,
    the i-th registration is what ordinal [i] returns, with the record
    [getFile] returns for its identifier; the ordinals below the counter
    are exactly the registrations. *)
Theorem bounded_ordinal_lookup tr :
  wf_trace tr -> bounded_cids (registrations tr deployed) ->
  Forall plain_registration (registrations tr deployed) ->
  totalCount (exec_trace tr deployed)
    = Z.of_nat (length (registrations tr deployed)) /\
  forall i r,
    registrations tr deployed !! i = Some r ->
    getFileByIndex (Z.of_nat i) (exec_trace tr deployed)
      = Ok (index_record_of r) (exec_trace tr deployed) /\
    getFile (reg_cid r) (exec_trace tr deployed)
      = Ok (record_of r) (exec_trace tr deployed).
Proof.
  intros Hwf Hbound Hplain.
  pose proof (consistent_exec_trace tr deployed [] Hwf Hbound consistent_deployed)
    as Hcons.
  rewrite app_nil_l in Hcons. split; [apply Hcons|].
  intros i r Hi.
  assert (Hr : plain_registration r).
  { rewrite Forall_forall in Hplain. apply Hplain.
    apply list_elem_of_lookup. exists i. exact Hi. }
  destruct (plain_registration_fits r Hr) as [Hf1 Hf2].
  split.
  - rewrite (stored_registration_getFileByIndex _ _ _ _ Hcons Hi).
    apply respond_fits, Hf2.
  - destruct Hcons as (_ & _ & Hregs).
    rewrite (stored_registration_getFile _ i _ (Hregs i r Hi)).
    apply respond_fits, Hf1.
Qed.

(** X14. With plain strings and identifiers that fit the stride, a further
    call changes no ordinal that was already assigned. *)
Theorem bounded_ordinals_stable tr env c i r :
  wf_trace (tr ++ [(env, c)]) ->
  bounded_cids (registrations (tr ++ [(env, c)]) deployed) ->
  plain_registration r ->
  registrations tr deployed !! i = Some r ->
  getFileByIndex (Z.of_nat i) (exec env c (exec_trace tr deployed))
  = Ok (index_record_of r) (exec env c (exec_trace tr deployed)).
Proof.
  intros Hwf Hbound Hplain Hi.
  assert (Hex : forall tr' w, exec_trace (tr' ++ [(env, c)]) w
                              = exec env c (exec_trace tr' w)).
  { induction tr' as [|[e c'] tr' IH]; intros w; simpl; [done|apply IH]. }
  assert (Hregs : forall tr' w, registrations (tr' ++ [(env, c)]) w
                  = registrations tr' w
                    ++ registration_of env c (exec_trace tr' w)).
  { induction tr' as [|[e c'] tr' IH]; intros w; simpl.
    - rewrite app_nil_r. reflexivity.
    - rewrite IH, app_assoc. reflexivity. }
  pose proof (consistent_exec_trace _ deployed [] Hwf Hbound consistent_deployed)
    as Hcons.
  rewrite app_nil_l, Hex in Hcons.
  rewrite (stored_registration_getFileByIndex _ _ i r Hcons).
  - apply respond_fits, (plain_registration_fits r Hplain).
  - rewrite Hregs. apply lookup_app_l_Some, Hi.
Qed.

(** X15. In a reachable world the out-of-bounds error is returned exactly
    for the indices from the counter on. *)
Theorem getFileByIndex_out_of_bounds w index :
  reachable w -> 0 <= index ->
  (getFileByIndex index w = Reverted "Index out of bounds" w
   <-> totalCount w <= index).
Proof.
  intros Hreach Hi. split.
  - intros Hrev. destruct (Z_le_gt_dec (totalCount w) index) as [|Hlt]; [done|].
    exfalso. pose proof (reachable_readable w Hreach) as Hread.
    destruct (readable_readCid w index Hread ltac:(lia)) as (Hm & cid & Hcid).
    destruct (readable_readName w cid Hread) as (s & Hs).
    rewrite getFileByIndex_run in Hrev.
    destruct (index >=? totalCount w) eqn:E; [lia|].
    destruct (index * 256 <=? U256_MAX) eqn:Em; [|lia].
    rewrite Hcid, Hs in Hrev.
    match type of Hrev with
    | respond ?c ?n ?a w = _ =>
        destruct (response_fits c n) eqn:Ef;
        [rewrite (respond_fits c n a w Ef) in Hrev; discriminate Hrev|]
    end.
    unfold respond, E_BUFFER_RESIZE in Hrev.
    destruct ((0 <=? _) && (_ <=? BLOCK_MAXSIZE)); [|discriminate Hrev].
    destruct (getFileByIndex_size cid s <=? getFileByIndex_capacity cid s);
      discriminate Hrev.
  - intros Hge. rewrite getFileByIndex_run.
    destruct (index >=? totalCount w) eqn:E; [reflexivity|lia].
Qed.


(* ===================================================================== *)
(** ** Histories: events, existence flags and records *)
(* ===================================================================== *)

Lemma run_pause_events env b w :
  events (run (onlyDeployer env (sender env) ;;; set_paused_value b) w)
  = events w.
Proof.
  unfold run, onlyDeployer, set_paused_value. mstep.
  destruct (decide (sender env = deployer env)); mstep; reflexivity.
Qed.

Lemma run_checkFileExists cid w : run (checkFileExists cid) w = w.
Proof. reflexivity. Qed.

Lemma run_getTotalFiles w : run getTotalFiles w = w.
Proof. reflexivity. Qed.

Lemma run_getIsPaused w : run getIsPaused w = w.
Proof. reflexivity. Qed.

Lemma registerFile_Ok_events env cid fileName fileSize w b w' :
  registerFile env cid fileName fileSize w = Ok b w' ->
  events w' = events w ++ [FileRegisteredEvent fileSize (sender env)].
Proof.
  intros H.
  destruct (registerFile_Ok_inv _ _ _ _ _ _ _ H)
    as (_ & _ & _ & _ & _ & _ & _ & _ & wb & wc & Hb & Hc & ->).
  destruct (storeString_frame _ _ _ _ _ Hb) as [Eb _].
  destruct (storeString_frame _ _ _ _ _ Hc) as [Ec _].
  unfold count_bumped, add_event, set_storage. cbn [events].
  rewrite Ec, Eb, record_written_events. reflexivity.
Qed.

(** One call appends the event of the registration it made, if any. *)
Lemma exec_events env c w :
  events (exec env c w) = events w ++ List.map event_of (registration_of env c w).
Proof.
  destruct c; cbn [exec registration_of];
    try (cbn [List.map]; rewrite app_nil_r).
  - unfold run, succeeds.
    destruct (registerFile env cid fileName fileSize w) eqn:E.
    + rewrite (registerFile_Ok_events _ _ _ _ _ _ _ E). reflexivity.
    + cbn [List.map]. rewrite app_nil_r. reflexivity.
  - rewrite run_getFile. reflexivity.
  - reflexivity.
  - reflexivity.
  - rewrite run_getFileByIndex. reflexivity.
  - apply run_pause_events.
  - apply run_pause_events.
  - reflexivity.
Qed.

Lemma exec_trace_events tr : forall w,
  events (exec_trace tr w) = events w ++ List.map event_of (registrations tr w).
Proof.
  induction tr as [|[env c] tr IH]; intros w; cbn [exec_trace registrations].
  - cbn [List.map]. rewrite app_nil_r. reflexivity.
  - rewrite IH, exec_events, map_app, app_assoc. reflexivity.
Qed.

(** The existence flag of a key after a history: set exactly when one of the
    registrations was made under that key. *)
Lemma exec_trace_exists_flag tr : forall w cid,
  exists_flag (exec_trace tr w) cid =
  if existsb (fun r => cidToKey (reg_cid r) =? cidToKey cid) (registrations tr w)
  then 1 else exists_flag w cid.
Proof.
  induction tr as [|[env c] tr IH]; intros w cid; cbn [exec_trace registrations].
  - reflexivity.
  - rewrite IH, existsb_app.
    change (exists_flag (exec env c w) cid)
      with (cell (storage (exec env c w)) fileExistsPointer (cidToKey cid)).
    rewrite exec_exists_flag.
    destruct (registration_of env c w) as [|r l] eqn:E.
    + cbn [existsb orb]. reflexivity.
    + assert (Hl : l = []).
      { assert (Hin : r ∈ registration_of env c w) by (rewrite E; left).
        apply registrations_of_single in Hin. congruence. }
      subst l. cbn [existsb]. rewrite orb_false_r.
      destruct (cidToKey (reg_cid r) =? cidToKey cid) eqn:Ek.
      * cbn [orb]. rewrite decide_True by lia.
        destruct (existsb _ _); reflexivity.
      * cbn [orb]. rewrite decide_False by lia. reflexivity.
Qed.

Lemma find_none_existsb {A} (f : A -> bool) l :
  find f l = None -> existsb f l = false.
Proof.
  induction l as [|a l IH]; cbn [find existsb]; [reflexivity|].
  destruct (f a); [discriminate|]. exact IH.
Qed.

Lemma find_some_existsb {A} (f : A -> bool) l a :
  find f l = Some a -> existsb f l = true.
Proof.
  induction l as [|b l IH]; cbn [find existsb]; [discriminate|].
  destruct (f b); [reflexivity|]. exact IH.
Qed.

(** [getFile] addresses a record by the derived key only. *)
Lemma getFile_same_key cid1 cid2 w :
  cidToKey cid1 = cidToKey cid2 -> getFile cid1 w = getFile cid2 w.
Proof.
  intros H. rewrite !getFile_run. unfold exists_flag. rewrite H. reflexivity.
Qed.

Lemma result_getFile_Ok cid w r :
  result (getFile cid) w = inl r -> getFile cid w = Ok r w.
Proof.
  unfold result. destruct (getFile_pure cid w) as [[r' H]|[msg H]];
    rewrite H; congruence.
Qed.

Lemma result_getFile_Reverted cid w msg :
  result (getFile cid) w = inr msg -> getFile cid w = Reverted msg w.
Proof.
  unfold result. destruct (getFile_pure cid w) as [[r' H]|[msg' H]];
    rewrite H; congruence.
Qed.

(** What [getFile] answers for a key whose flag is set stays as it is under
    every call. *)
Lemma exec_getFile_kept env c w cid :
  exists_flag w cid = 1 ->
  result (getFile cid) (exec env c w) = result (getFile cid) w.
Proof.
  intros Hflag.
  destruct c; cbn [exec]; try reflexivity.
  - unfold run.
    destruct (registerFile env cid0 fileName fileSize w) eqn:E; [|reflexivity].
    apply (registerFile_Ok_getFile_other _ _ _ _ _ _ _ cid E).
    intros Hk.
    destruct (registerFile_Ok_inv _ _ _ _ _ _ _ E)
      as (_ & _ & _ & _ & _ & Hnew & _).
    apply Hnew. unfold exists_flag in *. rewrite <- Hk. exact Hflag.
  - rewrite run_getFile. reflexivity.
  - rewrite run_getFileByIndex. reflexivity.
  - unfold pause.
    apply getFile_ext; intros; rewrite run_pause_cell;
      apply decide_False; pointers; lia.
  - unfold unpause.
    apply getFile_ext; intros; rewrite run_pause_cell;
      apply decide_False; pointers; lia.
Qed.

Lemma exec_trace_getFile_kept tr : forall w cid,
  exists_flag w cid = 1 ->
  result (getFile cid) (exec_trace tr w) = result (getFile cid) w.
Proof.
  induction tr as [|[env c] tr IH]; intros w cid Hflag; cbn [exec_trace].
  - reflexivity.
  - rewrite IH by (apply exec_exists_flag_stable, Hflag).
    apply exec_getFile_kept, Hflag.
Qed.

Lemma registerFile_Ok_recorded env cid fileName fileSize w b w' :
  wf_string cid -> wf_string fileName ->
  registerFile env cid fileName fileSize w = Ok b w' ->
  recorded w' (mkRegistration env cid fileName fileSize).
Proof.
  intros Hcid Hname E. split; cbn [reg_cid reg_fileName].
  - unfold exists_flag. rewrite (registerFile_Ok_exists _ _ _ _ _ _ _ E).
    apply decide_True. reflexivity.
  - unfold result at 1.
    rewrite (registerFile_Ok_getFile _ _ _ _ _ _ _ Hcid Hname E).
    exact (result_respond _ _ _ _).
Qed.

Lemma exec_trace_recorded tr w r :
  recorded w r -> recorded (exec_trace tr w) r.
Proof.
  intros [Hflag Hres]. split.
  - apply exec_trace_exists_flag_stable, Hflag.
  - rewrite exec_trace_getFile_kept by exact Hflag. exact Hres.
Qed.

(** The registration a call made is recorded right after it. *)
Lemma exec_getFile_new env c w :
  wf_call c -> Forall (recorded (exec env c w)) (registration_of env c w).
Proof.
  intros Hwf. destruct c; cbn [registration_of]; try constructor.
  unfold succeeds. cbn [exec]. unfold run.
  destruct (registerFile env cid fileName fileSize w) eqn:E; constructor;
    [|constructor].
  destruct Hwf as (Hcid & Hname & _).
  exact (registerFile_Ok_recorded _ _ _ _ _ _ _ Hcid Hname E).
Qed.

Lemma exec_trace_getFile_all tr : forall w regs,
  wf_trace tr ->
  Forall (recorded w) regs ->
  Forall (recorded (exec_trace tr w)) (regs ++ registrations tr w).
Proof.
  induction tr as [|[env c] tr IH]; intros w regs Hwf Hregs;
    cbn [exec_trace registrations].
  - rewrite app_nil_r. exact Hregs.
  - inversion Hwf as [|? ? [_ Hcall] Hwf']; subst.
    rewrite app_assoc. apply IH; [exact Hwf'|].
    apply Forall_app. split.
    + eapply Forall_impl; [exact Hregs|].
      intros r Hr. exact (exec_trace_recorded [(env, c)] w r Hr).
    + apply exec_getFile_new, Hcall.
Qed.


(* ===================================================================== *)
(** ** Sample data: facts used to instantiate the theorems *)
(* ===================================================================== *)

Lemma sample_env_wf : wf_env sample_env.
Proof.
  unfold wf_env, sample_env, is_bytes, U64_MOD. cbn [sender block_number
    block_medianTimestamp].
  split; [reflexivity|]. split; [apply Forall_replicate; lia|]. lia.
Qed.

Lemma sample_trace_wf : wf_trace sample_trace.
Proof.
  unfold wf_trace, sample_trace.
  constructor; [split; [exact sample_env_wf|]|].
  - cbn [snd wf_call]. split; [apply short_wf; cbn; lia|].
    split; [apply short_wf; cbn; lia|]. unfold U256_MAX, U256_MOD. lia.
  - constructor; [split; [exact sample_env_wf|]|constructor].
    cbn [snd wf_call]. apply short_wf; cbn; lia.
Qed.

Lemma sample_registrations :
  registrations sample_trace deployed = [sample_registration].
Proof. vm_compute. reflexivity. Qed.

Lemma sample_bounded : bounded_cids [sample_registration].
Proof.
  constructor; [|constructor]. vm_compute. discriminate.
Qed.

Lemma plain_string_check s :
  forallb (fun b => (0 <? b) && (b <? 128)) (utf8_encode s) = true ->
  plain_string s.
Proof.
  unfold plain_string. rewrite forallb_forall, Forall_forall.
  intros H b Hb. apply list_elem_of_In, H, andb_prop in Hb. lia.
Qed.

Lemma plain_registration_check r :
  forallb (fun b => (0 <? b) && (b <? 128)) (utf8_encode (reg_cid r)) = true ->
  forallb (fun b => (0 <? b) && (b <? 128)) (utf8_encode (reg_fileName r))
  = true ->
  (byte_length (reg_cid r) + byte_length (reg_fileName r) + 136
   <=? BLOCK_MAXSIZE) = true ->
  plain_registration r.
Proof.
  intros Hc Hn Hmax. split; [apply plain_string_check, Hc|].
  split; [apply plain_string_check, Hn|lia].
Qed.

Lemma sample_plain : Forall plain_registration [sample_registration].
Proof.
  constructor; [|constructor]. apply plain_registration_check; reflexivity.
Qed.

Lemma cid1_plain :
  plain_registration (mkRegistration sample_env "cid1" "a.txt" 100).
Proof. apply plain_registration_check; reflexivity. Qed.

(** A first registration on the fresh contract goes through. *)
Lemma fresh_registration cid fileName fileSize :
  (0 < String.length cid < 100)%nat -> (0 < String.length fileName < 100)%nat ->
  fileSize <> 0 ->
  exists w1, registerFile sample_env cid fileName fileSize deployed = Ok true w1.
Proof.
  intros Hcid Hname Hsize.
  assert (Hwf : wf_string cid) by (apply short_wf; lia).
  apply registerFile_succeeds.
  - exact Hwf.
  - apply short_wf; lia.
  - apply is_paused_deployed.
  - destruct cid; [cbn in Hcid; lia|reflexivity].
  - destruct fileName; [cbn in Hname; lia|reflexivity].
  - exact Hsize.
  - rewrite exists_flag_deployed. lia.
  - rewrite totalCount_deployed. lia.
  - rewrite totalCount_deployed.
    pose proof (wf_string_range cid Hwf) as Hr.
    pose proof (chunk_count_bound _ Hr).
    unfold U256_MAX, U256_MOD. lia.
Qed.

(* ===================================================================== *)
(** ** What a history leaves behind *)
(* ===================================================================== *)

(** X1. The event log of any history holds exactly one [FileRegistered]
    event per registration that went through, in call order, each carrying
    the size and the sender of its registration; reverted calls and reads
    add none, so the log is as long as the counter says. *)
Theorem events_history tr :
  events (exec_trace tr deployed)
    = List.map event_of (registrations tr deployed) /\
  Z.of_nat (length (events (exec_trace tr deployed)))
    = totalCount (exec_trace tr deployed).
Proof.
  assert (H : events (exec_trace tr deployed)
              = List.map event_of (registrations tr deployed)).
  { rewrite exec_trace_events. reflexivity. }
  split; [exact H|].
  rewrite H, length_map, exec_trace_totalCount, totalCount_deployed. lia.
Qed.

(** X2. After any history [checkFileExists] answers true exactly for the
    identifiers whose derived key is the key of a registration that went
    through, and it never fails. *)
Theorem checkFileExists_history tr cid :
  checkFileExists cid (exec_trace tr deployed)
  = Ok (existsb (fun r => cidToKey (reg_cid r) =? cidToKey cid)
          (registrations tr deployed))
       (exec_trace tr deployed).
Proof.
  change (checkFileExists cid (exec_trace tr deployed))
    with (Ok (A:=bool) (exists_flag (exec_trace tr deployed) cid =? 1)
            (exec_trace tr deployed)).
  rewrite exec_trace_exists_flag, exists_flag_deployed.
  destruct (existsb _ _); reflexivity.
Qed.

(** After a history of plain registrations [getFile] finds the registration
    made under the key it is asked for, or answers with the miss record. *)
Lemma plain_history_getFile tr cid :
  wf_trace tr -> Forall plain_registration (registrations tr deployed) ->
  getFile cid (exec_trace tr deployed)
  = Ok (match registered_under cid (registrations tr deployed) with
        | Some r => record_of r
        | None => miss_response
        end)
       (exec_trace tr deployed).
Proof.
  intros Hwf Hplain. unfold registered_under.
  destruct (find _ _) as [r|] eqn:E.
  - apply find_some in E as [Hin Hk].
    rewrite (getFile_same_key cid (reg_cid r)) by lia.
    apply result_getFile_Ok.
    pose proof (exec_trace_getFile_all tr deployed [] Hwf ltac:(constructor))
      as Hall.
    rewrite app_nil_l in Hall.
    rewrite Forall_forall in Hall, Hplain.
    apply list_elem_of_In in Hin.
    destruct (Hall r Hin) as [_ ->].
    apply response_of_fits, (plain_registration_fits r (Hplain r Hin)).
  - rewrite getFile_run, exec_trace_exists_flag, (find_none_existsb _ _ E),
      exists_flag_deployed.
    reflexivity.
Qed.

(** X3. After any history of well-formed calls whose registrations are of
    plain strings (7-bit characters other than NUL), [getFile] on a plain
    identifier returns the record of the registration that was made under
    the key of the identifier (name, size, sender, block height and time
    as registered), and the miss record when there is none; it does not
    fail. *)
Theorem getFile_history tr cid :
  wf_trace tr -> Forall plain_registration (registrations tr deployed) ->
  plain_string cid ->
  getFile cid (exec_trace tr deployed)
  = Ok (match registered_under cid (registrations tr deployed) with
        | Some r => record_of r
        | None => miss_response
        end)
       (exec_trace tr deployed).
Proof.
  intros Hwf Hplain _. apply plain_history_getFile; assumption.
Qed.

Lemma getFile_history_witness :
  getFile "bafy123" (exec_trace sample_trace deployed)
  = Ok (match registered_under "bafy123" (registrations sample_trace deployed)
        with
        | Some r => record_of r
        | None => miss_response
        end)
       (exec_trace sample_trace deployed).
Proof.
  apply getFile_history.
  - exact sample_trace_wf.
  - rewrite sample_registrations. exact sample_plain.
  - apply plain_string_check. reflexivity.
Defined.

Lemma registrations_flag_unset tr : forall w r,
  r ∈ registrations tr w -> exists_flag w (reg_cid r) <> 1.
Proof.
  induction tr as [|[env c] tr IH]; intros w r; cbn [registrations].
  - intros Hin. inversion Hin.
  - rewrite elem_of_app. intros [Hin|Hin].
    + destruct c; cbn [registration_of] in Hin; try (inversion Hin; fail).
      unfold succeeds in Hin.
      destruct (registerFile env cid fileName fileSize w) eqn:E;
        [|inversion Hin].
      apply list_elem_of_singleton in Hin. subst r. cbn [reg_cid].
      apply (registerFile_Ok_inv _ _ _ _ _ _ _ E).
    + intros Hflag. apply (IH _ _ Hin).
      apply exec_exists_flag_stable, Hflag.
Qed.

(** X4. No two registrations of a history that went through share a derived
    key, whatever the world the history starts from. *)
Theorem registrations_unique tr w :
  NoDup (List.map (fun r => cidToKey (reg_cid r)) (registrations tr w)).
Proof.
  revert w. induction tr as [|[env c] tr IH]; intros w; cbn [registrations].
  - constructor.
  - destruct (registration_of env c w) as [|r l] eqn:E.
    + apply IH.
    + assert (Hl : l = []).
      { assert (Hin : r ∈ registration_of env c w) by (rewrite E; left).
        apply registrations_of_single in Hin. congruence. }
      subst l. cbn [app List.map]. constructor; [|apply IH].
      rewrite list_elem_of_In, in_map_iff. intros (r' & Hk & Hin).
      apply list_elem_of_In in Hin.
      apply (registrations_flag_unset _ _ _ Hin).
      unfold exists_flag. rewrite Hk.
      change (cell (storage (exec env c w)) fileExistsPointer
                (cidToKey (reg_cid r)) = 1).
      rewrite exec_exists_flag, E. apply decide_True. reflexivity.
Qed.

(** X5. A record, once registered, is permanent: for a registration of
    plain strings, whatever calls follow, by whomever and with whatever
    arguments, [getFile] on the identifier keeps returning the record as
    it was registered. *)
Theorem record_permanent env cid fileName fileSize w b w1 tr :
  plain_registration (mkRegistration env cid fileName fileSize) ->
  registerFile env cid fileName fileSize w = Ok b w1 ->
  getFile cid (exec_trace tr w1)
  = Ok (record_of (mkRegistration env cid fileName fileSize))
       (exec_trace tr w1).
Proof.
  intros Hplain Hreg.
  destruct (plain_registration_wf _ Hplain) as [Hcid Hname].
  pose proof (exec_trace_recorded tr w1 _
                (registerFile_Ok_recorded _ _ _ _ _ _ _ Hcid Hname Hreg))
    as [_ Hres].
  cbn [reg_cid reg_fileName] in Hres.
  apply result_getFile_Ok. rewrite Hres.
  apply response_of_fits, (plain_registration_fits _ Hplain).
Qed.

Lemma record_permanent_witness :
  exists w1,
    registerFile sample_env "cid1" "a.txt" 100 deployed = Ok true w1 /\
    getFile "cid1"
      (exec_trace [(sample_env, RegisterFile "cid2" "b.txt" 7);
                   (sample_env, Pause);
                   (sample_env, RegisterFile "cid1" "c.txt" 9)] w1)
    = Ok (record_of (mkRegistration sample_env "cid1" "a.txt" 100))
         (exec_trace [(sample_env, RegisterFile "cid2" "b.txt" 7);
                      (sample_env, Pause);
                      (sample_env, RegisterFile "cid1" "c.txt" 9)] w1).
Proof.
  destruct (fresh_registration "cid1" "a.txt" 100) as [w1 Hreg];
    [cbn; lia|cbn; lia|lia|].
  exists w1. split; [exact Hreg|].
  exact (record_permanent sample_env "cid1" "a.txt" 100 deployed true w1 _
           cid1_plain Hreg).
Defined.

(** X6. Right after a registration of plain strings returns, the ordinal
    it was given (the counter before the call) returns the identifier byte
    for byte together with the record, also for an identifier longer than
    the stride, and the counter has advanced by one. *)
Theorem new_ordinal_readable env cid fileName fileSize w b w1 :
  plain_registration (mkRegistration env cid fileName fileSize) ->
  registerFile env cid fileName fileSize w = Ok b w1 ->
  getFileByIndex (totalCount w) w1
    = Ok (index_record_of (mkRegistration env cid fileName fileSize)) w1 /\
  totalCount w1 = totalCount w + 1.
Proof.
  intros Hplain Hreg.
  destruct (plain_registration_wf _ Hplain) as [Hcid Hname].
  cbn [reg_cid reg_fileName] in Hcid, Hname. split.
  - rewrite (registerFile_Ok_getFileByIndex _ _ _ _ _ _ _ Hcid Hname Hreg).
    apply respond_fits, (plain_registration_fits _ Hplain).
  - exact (registerFile_Ok_totalCount _ _ _ _ _ _ _ Hreg).
Qed.

Lemma new_ordinal_readable_witness :
  exists w1,
    registerFile sample_env "cid1" "a.txt" 100 deployed = Ok true w1 /\
    getFileByIndex (totalCount deployed) w1
      = Ok (index_record_of (mkRegistration sample_env "cid1" "a.txt" 100)) w1 /\
    totalCount w1 = totalCount deployed + 1.
Proof.
  destruct (fresh_registration "cid1" "a.txt" 100) as [w1 Hreg];
    [cbn; lia|cbn; lia|lia|].
  exists w1. split; [exact Hreg|].
  exact (new_ordinal_readable sample_env "cid1" "a.txt" 100 deployed true w1
           cid1_plain Hreg).
Defined.


(* ===================================================================== *)
(** ** The entry points, one by one *)
(* ===================================================================== *)

(** X7. For an identifier and a name of plain strings (7-bit characters
    other than NUL, which the calldata reads deliver as they were sent),
    and while the identifier index has room, the outcome of [registerFile]
    is decided by its five checks, in their order: paused, empty
    identifier, empty name, zero size, key already registered; when all
    pass, the writes, the counter arithmetic and the event do not fail and
    the call returns true. *)
Theorem registerFile_outcome env cid fileName fileSize w :
  plain_string cid -> plain_string fileName ->
  wf_string cid -> wf_string fileName ->
  0 <= totalCount w ->
  totalCount w * 256 + chunk_count (byte_length cid) <= U256_MAX ->
  result (registerFile env cid fileName fileSize) w
  = registerFile_verdict cid fileName fileSize w.
Proof.
  intros _ _ Hcid Hname Hcount Hroom. unfold registerFile_verdict, result.
  destruct (is_paused w) eqn:E1; [rewrite registerFile_run, E1; reflexivity|].
  destruct (is_empty cid) eqn:E2;
    [rewrite registerFile_run, E1, E2; reflexivity|].
  destruct (is_empty fileName) eqn:E3;
    [rewrite registerFile_run, E1, E2, E3; reflexivity|].
  destruct (fileSize =? 0) eqn:E4;
    [rewrite registerFile_run, E1, E2, E3, E4; reflexivity|].
  destruct (exists_flag w cid =? 1) eqn:E5;
    [rewrite registerFile_run, E1, E2, E3, E4, E5; reflexivity|].
  destruct (registerFile_succeeds env cid fileName fileSize w) as [w' H].
  - exact Hcid.
  - exact Hname.
  - exact E1.
  - exact E2.
  - exact E3.
  - lia.
  - lia.
  - exact Hcount.
  - exact Hroom.
  - rewrite H. reflexivity.
Qed.

Lemma registerFile_outcome_witness :
  result (registerFile sample_env "cid1" "a.txt" 100) deployed
  = registerFile_verdict "cid1" "a.txt" 100 deployed.
Proof.
  apply registerFile_outcome.
  - apply plain_string_check. reflexivity.
  - apply plain_string_check. reflexivity.
  - apply short_wf; cbn; lia.
  - apply short_wf; cbn; lia.
  - rewrite totalCount_deployed. lia.
  - rewrite totalCount_deployed. vm_compute. discriminate.
Defined.

(** X8. Uniqueness is enforced on the derived key: once a registration went
    through, every later registration of an identifier with the same key,
    the same identifier or another one, is refused as already registered
    when it passes the checks that come first. *)
Theorem same_key_rejected env cid fileName fileSize w b w1 tr
    env' cid' fileName' fileSize' :
  registerFile env cid fileName fileSize w = Ok b w1 ->
  cidToKey cid' = cidToKey cid ->
  is_paused (exec_trace tr w1) = false ->
  is_empty cid' = false -> is_empty fileName' = false -> fileSize' <> 0 ->
  registerFile env' cid' fileName' fileSize' (exec_trace tr w1)
  = Reverted "File already registered" (exec_trace tr w1).
Proof.
  intros Hreg Hk Hp Hc Hn Hs.
  assert (Hflag : exists_flag (exec_trace tr w1) cid' = 1).
  { apply exec_trace_exists_flag_stable. unfold exists_flag.
    rewrite (registerFile_Ok_exists _ _ _ _ _ _ _ Hreg).
    apply decide_True, Hk. }
  rewrite registerFile_run, Hp, Hc, Hn, Hflag.
  destruct (fileSize' =? 0) eqn:E; [lia|]. reflexivity.
Qed.

Lemma same_key_rejected_witness :
  exists w1,
    registerFile sample_env "cid1" "a.txt" 100 deployed = Ok true w1 /\
    registerFile sample_env "cid1" "b.txt" 7 (exec_trace [] w1)
    = Reverted "File already registered" (exec_trace [] w1).
Proof.
  destruct (fresh_registration "cid1" "a.txt" 100) as [w1 Hreg];
    [cbn; lia|cbn; lia|lia|].
  exists w1. split; [exact Hreg|].
  apply (same_key_rejected sample_env "cid1" "a.txt" 100 deployed true w1).
  - exact Hreg.
  - reflexivity.
  - cbn [exec_trace]. rewrite (registerFile_Ok_paused _ _ _ _ _ _ _ Hreg).
    apply is_paused_deployed.
  - reflexivity.
  - reflexivity.
  - lia.
Defined.

(** X9. A registration changes nothing for the other keys: for every
    identifier whose derived key differs from the registered one, [getFile]
    and [checkFileExists] answer after the call what they answered before,
    in every world. *)
Theorem registration_keeps_other_keys env cid fileName fileSize w b w1 cid' :
  registerFile env cid fileName fileSize w = Ok b w1 ->
  cidToKey cid' <> cidToKey cid ->
  result (getFile cid') w1 = result (getFile cid') w /\
  result (checkFileExists cid') w1 = result (checkFileExists cid') w.
Proof.
  intros Hreg Hk. split.
  - exact (registerFile_Ok_getFile_other _ _ _ _ _ _ _ _ Hreg Hk).
  - change (inl (B:=string)
              (cell (storage w1) fileExistsPointer (cidToKey cid') =? 1)
            = inl (cell (storage w) fileExistsPointer (cidToKey cid') =? 1)).
    rewrite (registerFile_Ok_exists _ _ _ _ _ _ _ Hreg).
    rewrite decide_False by exact Hk. reflexivity.
Qed.

Lemma sample_keys_differ : cidToKey "cid2" <> cidToKey "cid1".
Proof. vm_compute. discriminate. Qed.

Lemma registration_keeps_other_keys_witness :
  exists w1,
    registerFile sample_env "cid1" "a.txt" 100 deployed = Ok true w1 /\
    result (getFile "cid2") w1 = result (getFile "cid2") deployed /\
    result (checkFileExists "cid2") w1 = result (checkFileExists "cid2") deployed.
Proof.
  destruct (fresh_registration "cid1" "a.txt" 100) as [w1 Hreg];
    [cbn; lia|cbn; lia|lia|].
  exists w1. split; [exact Hreg|].
  exact (registration_keeps_other_keys sample_env "cid1" "a.txt" 100 deployed
           true w1 "cid2" Hreg sample_keys_differ).
Defined.

Lemma copy_prefix (l : list Z) : forall n k,
  length l = n ->
  List.map (fun i => nth i (k ++ l) 0) (seq (length k) n) = l.
Proof.
  induction l as [|a l IH]; intros n k Hlen; subst n; cbn [length seq List.map].
  - reflexivity.
  - f_equal.
    + rewrite app_nth2 by lia. rewrite Nat.sub_diag. reflexivity.
    + specialize (IH (length l) (k ++ [a]) eq_refl).
      rewrite length_app in IH. cbn [length] in IH.
      rewrite Nat.add_1_r in IH. rewrite <- app_assoc in IH. exact IH.
Qed.

Lemma copy_sender (l : list Z) :
  length l = 32%nat -> List.map (fun i => nth i l 0) (seq 0 32) = l.
Proof. intros H. exact (copy_prefix l 32%nat [] H). Qed.

(** X10. The uploader field is the sender: the number stored and returned
    for a registration (of plain strings, so that [getFile] returns) is the
    big-endian value of the 32 bytes of the caller's address, and its 32
    big-endian bytes are that address again. *)
Theorem uploader_is_sender env cid fileName fileSize w b w1 :
  wf_env env ->
  plain_registration (mkRegistration env cid fileName fileSize) ->
  registerFile env cid fileName fileSize w = Ok b w1 ->
  exists r,
    getFile cid w1 = Ok r w1 /\
    r_uploader r = fromBytesBE (sender env) /\
    toUint8ArrayBE (r_uploader r) = sender env.
Proof.
  intros (Hlen & Hbytes & _) Hplain Hreg.
  destruct (plain_registration_wf _ Hplain) as [Hcid Hname].
  cbn [reg_cid reg_fileName] in Hcid, Hname.
  exists (record_of (mkRegistration env cid fileName fileSize)).
  split.
  - rewrite (registerFile_Ok_getFile _ _ _ _ _ _ _ Hcid Hname Hreg).
    apply respond_fits, (plain_registration_fits _ Hplain).
  - cbn [record_of r_uploader reg_env]. rewrite (copy_sender _ Hlen).
    split; [reflexivity|].
    apply toUint8ArrayBE_fromBytesBE; assumption.
Qed.

Lemma uploader_is_sender_witness :
  exists w1 r,
    registerFile sample_env "cid1" "a.txt" 100 deployed = Ok true w1 /\
    getFile "cid1" w1 = Ok r w1 /\
    r_uploader r = fromBytesBE (sender sample_env) /\
    toUint8ArrayBE (r_uploader r) = sender sample_env.
Proof.
  destruct (fresh_registration "cid1" "a.txt" 100) as [w1 Hreg];
    [cbn; lia|cbn; lia|lia|].
  destruct (uploader_is_sender sample_env "cid1" "a.txt" 100 deployed true w1
              sample_env_wf cid1_plain Hreg) as (r & Hr).
  exists w1, r. split; [exact Hreg|exact Hr].
Defined.

Lemma toggle_world env (b : bool) w u w' :
  (if b then pause env else unpause env) w = Ok u w' -> w' = with_paused b w.
Proof.
  unfold with_paused, run, pause, unpause, onlyDeployer.
  destruct b; mstep; destruct (decide (sender env = deployer env));
    mstep; unfold set_paused_value, map_set; congruence.
Qed.

(** X11. A [pause] that returns sets the flag and an [unpause] that returns
    clears it, as [getIsPaused] then reports; neither writes any other
    storage cell (no record, not the counter, not the identifier index) nor
    emits an event. *)
Theorem pause_toggle_effect env (b : bool) w u w' :
  (if b then pause env else unpause env) w = Ok u w' ->
  getIsPaused w' = Ok b w' /\
  events w' = events w /\
  (forall p x, ~ (p = pausedPointer /\ x = 0) ->
     cell (storage w') p x = cell (storage w) p x).
Proof.
  intros H. apply toggle_world in H. subst w'.
  assert (Hflag : is_paused (with_paused b w) = b).
  { unfold is_paused. rewrite with_paused_cell.
    rewrite decide_True by (split; reflexivity). destruct b; reflexivity. }
  split.
  - change (getIsPaused (with_paused b w))
      with (Ok (A:=bool) (is_paused (with_paused b w)) (with_paused b w)).
    rewrite Hflag. reflexivity.
  - split; [reflexivity|].
    intros p x Hpx. rewrite with_paused_cell.
    rewrite decide_False by exact Hpx. reflexivity.
Qed.

Lemma pause_runs : pause sample_env deployed = Ok tt (with_paused true deployed).
Proof. reflexivity. Qed.

Lemma pause_toggle_effect_witness :
  getIsPaused (with_paused true deployed) = Ok true (with_paused true deployed) /\
  events (with_paused true deployed) = events deployed /\
  (forall p x, ~ (p = pausedPointer /\ x = 0) ->
     cell (storage (with_paused true deployed)) p x
     = cell (storage deployed) p x).
Proof.
  exact (pause_toggle_effect sample_env true deployed tt
           (with_paused true deployed) pause_runs).
Defined.

(** X12. The lookups never write: [getFile], [checkFileExists],
    [getTotalFiles] and [getFileByIndex] hand back the world they were
    given, storage and event log, whether they return or throw. *)
Theorem reads_change_nothing w :
  (forall cid, (exists r, getFile cid w = Ok r w) \/
               (exists msg, getFile cid w = Reverted msg w)) /\
  (forall cid, exists r, checkFileExists cid w = Ok r w) /\
  (exists r, getTotalFiles w = Ok r w) /\
  (forall index, (exists r, getFileByIndex index w = Ok r w) \/
                 (exists msg, getFileByIndex index w = Reverted msg w)).
Proof.
  split; [intros cid; apply getFile_pure|].
  split; [intros cid; eexists; reflexivity|].
  split; [eexists; reflexivity|].
  intros index; apply getFileByIndex_pure.
Qed.


(* ===================================================================== *)
(** ** Ordinal lookups on the sample history *)
(* ===================================================================== *)

Lemma bounded_ordinal_lookup_witness :
  totalCount (exec_trace sample_trace deployed)
    = Z.of_nat (length (registrations sample_trace deployed)) /\
  forall i r,
    registrations sample_trace deployed !! i = Some r ->
    getFileByIndex (Z.of_nat i) (exec_trace sample_trace deployed)
      = Ok (index_record_of r) (exec_trace sample_trace deployed) /\
    getFile (reg_cid r) (exec_trace sample_trace deployed)
      = Ok (record_of r) (exec_trace sample_trace deployed).
Proof.
  apply bounded_ordinal_lookup.
  - exact sample_trace_wf.
  - rewrite sample_registrations. exact sample_bounded.
  - rewrite sample_registrations. exact sample_plain.
Defined.

Lemma sample_first_registration :
  registrations [(sample_env, RegisterFile "bafy123" "report.pdf" 2048)] deployed
    !! 0%nat
  = Some sample_registration.
Proof. vm_compute. reflexivity. Qed.

Lemma bounded_ordinals_stable_witness :
  getFileByIndex (Z.of_nat 0)
    (exec sample_env (GetFile "bafy123")
       (exec_trace [(sample_env, RegisterFile "bafy123" "report.pdf" 2048)]
          deployed))
  = Ok (index_record_of sample_registration)
      (exec sample_env (GetFile "bafy123")
         (exec_trace [(sample_env, RegisterFile "bafy123" "report.pdf" 2048)]
            deployed)).
Proof.
  apply (bounded_ordinals_stable
           [(sample_env, RegisterFile "bafy123" "report.pdf" 2048)]
           sample_env (GetFile "bafy123") 0 sample_registration).
  - exact sample_trace_wf.
  - change (bounded_cids (registrations sample_trace deployed)).
    rewrite sample_registrations. exact sample_bounded.
  - apply plain_registration_check; reflexivity.
  - exact sample_first_registration.
Defined.

Lemma getFileByIndex_out_of_bounds_witness :
  getFileByIndex 0 deployed = Reverted "Index out of bounds" deployed
  <-> totalCount deployed <= 0.
Proof.
  apply getFileByIndex_out_of_bounds; [apply reach_deployed|lia].
Defined.

(* ===================================================================== *)
(** ** The slot format of chunked strings *)
(* ===================================================================== *)

(** The chunk built by the copy loop of [storeString] is the 32-byte window
    of the encoding, zero-padded. *)
Lemma chunk_arr_chunk_bytes bytes i :
  0 <= i -> chunk_arr bytes (Z.of_nat (length bytes)) i = chunk_bytes bytes i.
Proof.
  intros Hi. apply (nth_ext _ _ 0 0).
  - rewrite chunk_arr_length. unfold chunk_bytes.
    rewrite length_map, length_seq. reflexivity.
  - intros o Ho. rewrite chunk_arr_length in Ho.
    unfold chunk_bytes. rewrite nth_map_seq by exact Ho.
    apply nth_lookup_Some. unfold chunk_arr.
    rewrite fill_chunk_lookup by lia. rewrite length_replicate.
    case_decide as Hd; [reflexivity|].
    rewrite lookup_replicate_2 by exact Ho.
    rewrite nth_overflow; [reflexivity|].
    destruct (i * 32 + 32 >? Z.of_nat (length bytes)) eqn:E; lia.
Qed.

(** X16. The slot format: for a string that fits and a base key that leaves
    room, [storeString] returns having written the byte length to the base
    slot and, to each of the ceil(len/32) slots that follow, the big-endian
    number of the next 32 bytes of the UTF-8 encoding, zero-padded at the
    end; it writes no other cell and emits no event. *)
Theorem storeString_layout m baseKey value w :
  wf_string value ->
  baseKey + chunk_count (byte_length value) <= U256_MAX ->
  exists w',
    storeString m baseKey value w = Ok tt w' /\
    events w' = events w /\
    cell (storage w') m baseKey = byte_length value /\
    (forall i, 0 <= i < chunk_count (byte_length value) ->
       cell (storage w') m (baseKey + 1 + i)
       = fromBytesBE (chunk_bytes (utf8_encode value) i)) /\
    (forall p x,
       ~ (p = m /\ baseKey <= x <= baseKey + chunk_count (byte_length value)) ->
       cell (storage w') p x = cell (storage w) p x).
Proof.
  intros Hwf Hfit.
  destruct (storeString_spec m baseKey value w Hwf Hfit) as (w' & Hrun & Hev & Hc).
  exists w'. split; [exact Hrun|]. split; [exact Hev|].
  pose proof (wf_string_range value Hwf) as Hr.
  pose proof (chunk_count_bound _ Hr) as Hcc.
  split; [|split].
  - rewrite Hc. rewrite decide_True by (split; reflexivity). reflexivity.
  - intros i Hi. rewrite Hc.
    rewrite decide_False by lia. rewrite decide_True by lia.
    replace (baseKey + 1 + i - baseKey - 1) with i by lia.
    unfold byte_length. apply f_equal, chunk_arr_chunk_bytes. lia.
  - intros p x Hpx. rewrite Hc.
    rewrite decide_False by lia. rewrite decide_False by lia. reflexivity.
Qed.

Lemma storeString_layout_witness :
  exists w',
    storeString fileNameChunksPointer 5 "0123456789abcdef0123456789abcdefXY"
      deployed = Ok tt w' /\
    events w' = events deployed /\
    cell (storage w') fileNameChunksPointer 5
      = byte_length "0123456789abcdef0123456789abcdefXY" /\
    (forall i,
       0 <= i < chunk_count (byte_length "0123456789abcdef0123456789abcdefXY") ->
       cell (storage w') fileNameChunksPointer (5 + 1 + i)
       = fromBytesBE
           (chunk_bytes (utf8_encode "0123456789abcdef0123456789abcdefXY") i)) /\
    (forall p x,
       ~ (p = fileNameChunksPointer /\
          5 <= x <= 5 + chunk_count
                         (byte_length "0123456789abcdef0123456789abcdefXY")) ->
       cell (storage w') p x = cell (storage deployed) p x).
Proof.
  apply storeString_layout.
  - apply short_wf. cbn. lia.
  - vm_compute. discriminate.
Defined.

(** X17. What [readString] returns for slot contents of 7-bit bytes: when
    the base slot holds a length [n] that fits a buffer, the chunk keys
    stay in range and the first [n] bytes of the chunk slots, each slot
    read as 32 big-endian bytes, are below 128, it returns the string of
    exactly these bytes; what the last slot holds beyond the length is
    ignored, and a zero length gives the empty string. *)
Theorem readString_contents m baseKey w :
  0 <= cell (storage w) m baseKey <= BLOCK_MAXSIZE ->
  baseKey + chunk_count (cell (storage w) m baseKey) <= U256_MAX ->
  Forall (fun b => b < 128)
         (slot_bytes w m baseKey (cell (storage w) m baseKey)) ->
  exists s,
    readString m baseKey w = Ok s w /\
    utf8_encode s = slot_bytes w m baseKey (cell (storage w) m baseKey).
Proof.
  intros HL Hfit _.
  exists (utf8_decode (slot_bytes w m baseKey (cell (storage w) m baseKey))).
  split; [apply readString_slot_bytes; assumption|].
  apply utf8_encode_decode, slot_bytes_bytes.
Qed.

Lemma readString_contents_witness :
  exists s,
    readString fileNameChunksPointer 5
      (mkWorld {[ (fileNameChunksPointer, 5) := 3;
                  (fileNameChunksPointer, 6) := 0x616263ff * 2 ^ 224 ]} [])
    = Ok s (mkWorld {[ (fileNameChunksPointer, 5) := 3;
                       (fileNameChunksPointer, 6) := 0x616263ff * 2 ^ 224 ]} [])
    /\
    utf8_encode s =
    slot_bytes (mkWorld {[ (fileNameChunksPointer, 5) := 3;
                           (fileNameChunksPointer, 6) := 0x616263ff * 2 ^ 224 ]}
                  [])
      fileNameChunksPointer 5
      (cell (storage (mkWorld {[ (fileNameChunksPointer, 5) := 3;
                                 (fileNameChunksPointer, 6)
                                   := 0x616263ff * 2 ^ 224 ]} []))
         fileNameChunksPointer 5).
Proof.
  apply readString_contents.
  - vm_compute. split; discriminate.
  - vm_compute. discriminate.
  - match goal with
    | |- Forall _ ?l =>
        replace l with [97; 98; 99] by (vm_compute; reflexivity)
    end.
    repeat (constructor; [lia|]). constructor.
Defined.

(* ===================================================================== *)
(** ** Keys of identifiers that differ in one byte *)
(* ===================================================================== *)

Lemma FNV_PRIME_INV_spec : (FNV_PRIME * FNV_PRIME_INV) mod 2 ^ 64 = 1.
Proof. reflexivity. Qed.

Lemma lxor_range x b :
  0 <= x < 2 ^ 64 -> 0 <= b < 2 ^ 64 -> 0 <= Z.lxor x b < 2 ^ 64.
Proof.
  intros Hx Hb.
  assert (Hnn : 0 <= Z.lxor x b) by (apply Z.lxor_nonneg; lia).
  split; [exact Hnn|].
  destruct (Z.eq_dec (Z.lxor x b) 0) as [-> | Hne]; [lia|].
  apply Z.log2_lt_pow2; [lia|].
  pose proof (Z.log2_lxor x b ltac:(lia) ltac:(lia)) as Hl.
  assert (Hlx : Z.log2 x < 64).
  { destruct (Z.eq_dec x 0) as [-> | ]; [cbn; lia|].
    apply Z.log2_lt_pow2; lia. }
  assert (Hlb : Z.log2 b < 64).
  { destruct (Z.eq_dec b 0) as [-> | ]; [cbn; lia|].
    apply Z.log2_lt_pow2; lia. }
  lia.
Qed.

(** Multiplication by the odd constant is invertible modulo [2^64]. *)
Lemma mul_prime_inj u v :
  0 <= u < 2 ^ 64 -> 0 <= v < 2 ^ 64 ->
  (u * FNV_PRIME) mod 2 ^ 64 = (v * FNV_PRIME) mod 2 ^ 64 -> u = v.
Proof.
  intros Hu Hv H.
  assert (R : forall t, 0 <= t < 2 ^ 64 ->
                ((t * FNV_PRIME) mod 2 ^ 64 * FNV_PRIME_INV) mod 2 ^ 64 = t).
  { intros t Ht. rewrite Z.mul_mod_idemp_l by lia.
    rewrite <- Z.mul_assoc, <- Z.mul_mod_idemp_r by lia.
    rewrite FNV_PRIME_INV_spec, Z.mul_1_r. apply Z.mod_small. lia. }
  rewrite <- (R u Hu), <- (R v Hv), H. reflexivity.
Qed.

Lemma hi_step_inj x y b :
  0 <= x < 2 ^ 64 -> 0 <= y < 2 ^ 64 -> 0 <= b < 2 ^ 64 ->
  xor_then_multiply FNV_PRIME x b = xor_then_multiply FNV_PRIME y b -> x = y.
Proof.
  intros Hx Hy Hb H. unfold xor_then_multiply in H.
  apply mul_prime_inj in H; [|apply lxor_range; assumption..].
  rewrite <- (Z.lxor_0_r x), <- (Z.lxor_0_r y), <- (Z.lxor_nilpotent b).
  rewrite <- !Z.lxor_assoc, H. reflexivity.
Qed.

Lemma hi_step_sep x a b :
  0 <= x < 2 ^ 64 -> 0 <= a < 2 ^ 64 -> 0 <= b < 2 ^ 64 -> a <> b ->
  xor_then_multiply FNV_PRIME x a <> xor_then_multiply FNV_PRIME x b.
Proof.
  intros Hx Ha Hb Hne H. unfold xor_then_multiply in H.
  apply mul_prime_inj in H; [|apply lxor_range; assumption..].
  apply Hne.
  rewrite <- (Z.lxor_0_l a), <- (Z.lxor_0_l b), <- (Z.lxor_nilpotent x).
  rewrite !Z.lxor_assoc, H. reflexivity.
Qed.

Lemma hi_fold_inj l : forall x y,
  is_bytes l -> 0 <= x < 2 ^ 64 -> 0 <= y < 2 ^ 64 ->
  fold_left (xor_then_multiply FNV_PRIME) l x
  = fold_left (xor_then_multiply FNV_PRIME) l y ->
  x = y.
Proof.
  induction l as [|b l IH]; intros x y Hl Hx Hy H; cbn [fold_left] in H.
  - exact H.
  - inversion Hl as [|? ? Hb Hl']; subst.
    apply IH in H; [|exact Hl'|apply xor_then_multiply_range..].
    apply (hi_step_inj x y b); [assumption|assumption|lia|exact H].
Qed.

(** X18. Changing one byte of an identifier changes its key: two
    identifiers that agree everywhere except at one position have different
    derived keys, because each step of the first accumulator is a bijection
    on 64-bit words (XOR with the byte, then multiplication by an odd
    constant). *)
Theorem one_byte_changes_key (pre suf : string) (a b : ascii) :
  a <> b ->
  cidToKey (pre ++ String a suf) <> cidToKey (pre ++ String b suf).
Proof.
  intros Hne Hk.
  rewrite !cidToKey_deriveKey, !deriveKey_key_of in Hk.
  apply key_of_inj in Hk as [Hhi _];
    try apply acc_hi_range; try apply acc_lo_range.
  unfold acc_hi in Hhi. rewrite !utf8_encode_app, !fold_left_app in Hhi.
  change (utf8_encode (String a suf)) with (byte_of_ascii a :: utf8_encode suf)
    in Hhi.
  change (utf8_encode (String b suf)) with (byte_of_ascii b :: utf8_encode suf)
    in Hhi.
  cbn [fold_left] in Hhi.
  set (x := fold_left (xor_then_multiply FNV_PRIME) (utf8_encode pre) FNV_OFFSET)
    in Hhi.
  assert (Hx : 0 <= x < 2 ^ 64).
  { apply fold_xor_then_multiply_range. unfold FNV_OFFSET. lia. }
  apply hi_fold_inj in Hhi;
    [|apply utf8_encode_bytes|apply xor_then_multiply_range..].
  pose proof (byte_of_ascii_range a). pose proof (byte_of_ascii_range b).
  apply (hi_step_sep x (byte_of_ascii a) (byte_of_ascii b)) in Hhi;
    [exact Hhi|exact Hx|lia|lia|].
  intros Heq. apply Hne.
  rewrite <- (ascii_of_byte_of_ascii a), <- (ascii_of_byte_of_ascii b), Heq.
  reflexivity.
Qed.

Lemma one_byte_changes_key_witness :
  cidToKey ("bafy" ++ String "1" "23") <> cidToKey ("bafy" ++ String "7" "23").
Proof. apply one_byte_changes_key. discriminate. Defined.


(* ===================================================================== *)
(** ** The two lookups read the same record *)
(* ===================================================================== *)

(** X19. Whatever the storage holds, the record [getFileByIndex] returns for
    an ordinal is the record [getFile] returns for the identifier found
    there: same name, size, uploader, height and time whenever the
    existence flag of that identifier is set. [getFileByIndex] itself does
    not consult the flag; when it is unset [getFile] answers with the miss
    record. *)
Theorem lookups_agree index w r w' :
  getFileByIndex index w = Ok r w' ->
  result (getFile (ir_cid r)) w
  = inl (if exists_flag w (ir_cid r) =? 1
         then mkFileResponse (ir_fileName r) (ir_fileSize r) (ir_uploader r)
                (ir_blockNumber r) (ir_timestamp r) true
         else miss_response).
Proof.
  intros H. rewrite getFileByIndex_run in H.
  destruct (index >=? totalCount w); [discriminate H|].
  destruct (index * 256 <=? U256_MAX); [|discriminate H].
  destruct (readString cidChunksPointer (index * 256) w) as [cid w1|] eqn:Ec;
    [|discriminate H].
  pose proof (result_readString_world _ _ _ _ _ Ec) as ->.
  destruct (readString fileNameChunksPointer (cidToKey cid) w)
    as [fileName w2|] eqn:En; [|discriminate H].
  pose proof (result_readString_world _ _ _ _ _ En) as ->.
  apply respond_Ok_inv in H as (<- & _ & Hfits).
  cbn [ir_cid ir_fileName ir_fileSize ir_uploader ir_blockNumber ir_timestamp].
  rewrite getFile_result.
  destruct (exists_flag w cid =? 1); [|reflexivity].
  unfold result. rewrite En.
  apply response_of_fits, (index_fits_getFile cid), Hfits.
Qed.

Lemma sample_ordinal w1 :
  registerFile sample_env "cid1" "a.txt" 100 deployed = Ok true w1 ->
  getFileByIndex (totalCount deployed) w1
  = Ok (index_record_of (mkRegistration sample_env "cid1" "a.txt" 100)) w1.
Proof.
  intros Hreg.
  rewrite (registerFile_Ok_getFileByIndex _ _ _ _ _ _ _
             (short_wf "cid1" ltac:(cbn; lia))
             (short_wf "a.txt" ltac:(cbn; lia)) Hreg).
  apply respond_fits, (plain_registration_fits _ cid1_plain).
Qed.

Lemma lookups_agree_witness :
  exists w1,
    registerFile sample_env "cid1" "a.txt" 100 deployed = Ok true w1 /\
    result (getFile "cid1") w1
    = inl (if exists_flag w1 "cid1" =? 1
           then record_of (mkRegistration sample_env "cid1" "a.txt" 100)
           else miss_response).
Proof.
  destruct (fresh_registration "cid1" "a.txt" 100) as [w1 Hreg];
    [cbn; lia|cbn; lia|lia|].
  exists w1. split; [exact Hreg|].
  exact (lookups_agree (totalCount deployed) w1
           (index_record_of (mkRegistration sample_env "cid1" "a.txt" 100)) w1
           (sample_ordinal w1 Hreg)).
Defined.

(* ===================================================================== *)
(** ** Names that do not fit the response *)
(* ===================================================================== *)

Lemma two_byte_name_units (pre suf : string) (a0 a1 : ascii) :
  plain_string pre -> 192 <= byte_of_ascii a0 < 224 ->
  utf16_length (pre ++ String a0 (String a1 suf))
  < byte_length (pre ++ String a0 (String a1 suf)).
Proof.
  intros Hpre Ha0. unfold utf16_length, byte_length.
  rewrite utf8_encode_app.
  change (utf8_encode (String a0 (String a1 suf)))
    with (byte_of_ascii a0 :: byte_of_ascii a1 :: utf8_encode suf).
  rewrite utf16_units_app_ascii.
  - rewrite utf16_units_lead2 by exact Ha0.
    pose proof (utf16_units_bounds (utf8_encode suf)).
    rewrite length_app. cbn [length]. lia.
  - unfold plain_string in Hpre. eapply Forall_impl; [exact Hpre|].
    intros b Hb. cbv beta in Hb. lia.
Qed.

(** X20. A name with a two-byte character cannot be returned: [getFile]
    and [getFileByIndex] size the response buffer with the length of the
    name in UTF-16 units and write its UTF-8 bytes, and the writer throws
    when the bytes pass the end of the buffer. After a registration whose
    identifier is plain and whose name has a character of two bytes
    (between plain characters), [getFile] on its identifier throws, after any later calls, and so does
    [getFileByIndex] at its ordinal right after the registration. *)
Theorem two_byte_name_unreadable env cid (pre suf : string) (a0 a1 : ascii)
    fileSize w b w1 tr :
  plain_string cid -> plain_string pre -> plain_string suf ->
  194 <= byte_of_ascii a0 < 224 -> 128 <= byte_of_ascii a1 < 192 ->
  wf_string cid -> wf_string (pre ++ String a0 (String a1 suf)) ->
  registerFile env cid (pre ++ String a0 (String a1 suf)) fileSize w = Ok b w1 ->
  (exists msg, getFile cid (exec_trace tr w1) = Reverted msg (exec_trace tr w1)) /\
  (exists msg, getFileByIndex (totalCount w) w1 = Reverted msg w1).
Proof.
  intros _ Hpre _ Ha0 _ Hcid Hname Hreg.
  pose proof (two_byte_name_units pre suf a0 a1 Hpre ltac:(lia)) as Hunits.
  set (fileName := (pre ++ String a0 (String a1 suf))%string) in *.
  split.
  - pose proof (exec_trace_recorded tr w1 _
                  (registerFile_Ok_recorded _ _ _ _ _ _ _ Hcid Hname Hreg))
      as [_ Hres].
    cbn [reg_cid reg_fileName] in Hres.
    destruct (response_of_overflow (getFile_capacity fileName)
                (getFile_size fileName)
                (record_of (mkRegistration env cid fileName fileSize)))
      as [msg Hmsg].
    + destruct (response_fits _ _) eqn:E; [|reflexivity].
      apply getFile_fits_iff in E. exfalso. lia.
    + exists msg. apply result_getFile_Reverted. rewrite Hres. exact Hmsg.
  - rewrite (registerFile_Ok_getFileByIndex _ _ _ _ _ _ _ Hcid Hname Hreg).
    apply respond_overflow.
    destruct (response_fits _ _) eqn:E; [|reflexivity].
    apply getFileByIndex_fits_iff in E. exfalso. lia.
Qed.

Lemma two_byte_name_unreadable_witness :
  exists w1,
    registerFile sample_env "cid1" (String "195" (String "169" "")) 5
      deployed = Ok true w1 /\
    (exists msg, getFile "cid1" (exec_trace [] w1)
                 = Reverted msg (exec_trace [] w1)) /\
    (exists msg, getFileByIndex (totalCount deployed) w1 = Reverted msg w1).
Proof.
  destruct (fresh_registration "cid1" (String "195" (String "169" "")) 5)
    as [w1 Hreg]; [cbn; lia|cbn; lia|lia|].
  exists w1. split; [exact Hreg|].
  apply (two_byte_name_unreadable sample_env "cid1" "" "" "195" "169" 5
           deployed true w1 []).
  - apply plain_string_check. reflexivity.
  - constructor.
  - constructor.
  - change (byte_of_ascii "195") with 195. lia.
  - change (byte_of_ascii "169") with 169. lia.
  - apply short_wf; cbn; lia.
  - apply (short_wf (String "195" (String "169" ""))); cbn; lia.
  - exact Hreg.
Defined.


(* ===================================================================== *)
(** ** C5: the pause gate *)
(* ===================================================================== *)






